(** * DeepLink-AI: the crawl engine and its oracle client

    A shallow embedding of the modules that carry the crawl:
    - [services/gemini]: [guessContentType], [fetchPageLinks],
      [analyzeOrphans];
    - [App.tsx]: [startRecursiveCrawl], [processQueue], [finishCrawl],
      [stopCrawl], [updateNodeState]; the key pool ([handleConnectApi],
      [handleDisconnectApi]); the views of the node list ([filteredNodes],
      [depthData]); [addLog] and the text of [handleExportCSV];
    - [NetworkGraph]: the links it builds from the node list.

    The remote model, [Math.random] and [JSON.parse] are the platform's; the
    development is parametric in them (class [Platform]).  Timed waits and
    requests are recorded as events, in milliseconds.

    Conventions of the model:
    - strings are sequences of 8-bit characters, [trim] strips ASCII white
      space, and JSON numbers are integers; the model is exact on ASCII
      text: the white space of the code ([\s], [trim]) also takes U+00A0,
      U+2028, U+FEFF and the like, and its [length] counts UTF-16 units;
    - a thrown value is an object whose [status] and [code] are absent,
      numbers or strings and whose [message] is absent or a string; the
      constructor of the remote client does not throw;
    - [processQueue] is an async function: [processQueue] below is its part
      up to the first [await], [resumeQueue] the part after it, and [Task]
      says which of the two the event loop will run next;
    - [resumeQueue] runs the delay, the oracle call and the merge of a step
      in one piece; with one step pending at a time only the stop button can
      come in between, and it touches nothing the step reads;
    - a run ([run]) is a crawl started on an engine with no step pending; it
      keeps its key pool, and the configuration is the one captured when it
      started.  [stopCrawl] cancels nothing, so the code can also start a
      crawl while a step of a stopped crawl is pending: [sessionStep] has
      these crawls, and what is proved over [run] is not claimed for them;
    - a render that throws (a status that is not a string meets
      [startsWith] in the statistics updater and in the table) unmounts the
      component: status and statistics are then no longer shown, while the
      refs and the pending callbacks live on.  What is proved of
      [crawlStatus] assumes string statuses where the oracle is arbitrary;
    - the engine state [Engine] leaves out the log lines, the graph and the
      other presentation state of the component, and [startTime]; the log
      and the views are functions of their own. *)

From Stdlib Require Import ZArith Ascii String.
From stdpp Require Import base numbers strings pretty list sorting gmap.

Open Scope string_scope.
Open Scope list_scope.
Open Scope nat_scope.

(** ** JavaScript values that cross the oracle boundary *)

#[local] Set Warnings "-register-all".

Inductive Json : Type :=
  | JNull
  | JBool (b : bool)
  | JNum (z : Z)
  | JStr (s : string)
  | JArr (l : list Json)
  | JObj (fields : list (string * Json)).

(** The result of a property read: [None] is [undefined]. *)
Definition JsVal := option Json.

Definition truthy (v : JsVal) : bool :=
  match v with
  | None | Some JNull | Some (JBool false) | Some (JNum 0%Z) | Some (JStr "") => false
  | Some _ => true
  end.

(** [a || b] where [b] is a defined value. *)
Definition orDefault (a : JsVal) (b : Json) : Json :=
  match a with
  | Some j => if truthy a then j else b
  | None => b
  end.

Fixpoint assoc (name : string) (fields : list (string * Json)) : JsVal :=
  match fields with
  | [] => None
  | (k, v) :: rest => if String.eqb k name then Some v else assoc name rest
  end.

(** What the code inspects of a thrown value. [e_json] is what
    [JSON.stringify] gives for it. *)
Inductive ErrField := EUndefined | ENum (z : Z) | EStr (s : string).

Record JsError := mkError {
  e_status : ErrField;
  e_code : ErrField;
  e_message : option string;
  e_json : string
}.

Definition TypeError (msg : string) : JsError :=
  mkError EUndefined EUndefined (Some msg) "{}".

Definition newError (msg : string) : JsError :=
  mkError EUndefined EUndefined (Some msg) "{}".

Inductive Result (A : Type) : Type :=
  | Ok (a : A)
  | Throw (e : JsError).
Arguments Ok {A} a.
Arguments Throw {A} e.

(** [link.name]: reading a property of [null] throws, a missing property is
    [undefined]; numbers, strings, booleans and arrays carry none of the names
    read here. *)
Definition readProp (link : Json) (name : string) : JsVal :=
  match link with
  | JObj fields => assoc name fields
  | _ => None
  end.

Definition getProp (link : Json) (name : string) : Result JsVal :=
  match link with
  | JNull => Throw (TypeError ("Cannot read properties of null (reading '" +:+ name +:+ "')"))
  | _ => Ok (readProp link name)
  end.

(** ** String helpers ([String.prototype]) *)

Definition lowerAscii (c : ascii) : ascii :=
  let n := nat_of_ascii c in
  if ((65 <=? n) && (n <=? 90))%nat then ascii_of_nat (n + 32) else c.

Fixpoint toLowerCase (s : string) : string :=
  match s with
  | EmptyString => EmptyString
  | String c r => String (lowerAscii c) (toLowerCase r)
  end.

Definition startsWith (p s : string) : bool := String.prefix p s.

Definition endsWith (suffix s : string) : bool :=
  (String.length suffix <=? String.length s)%nat &&
  String.eqb (String.substring (String.length s - String.length suffix)
                               (String.length suffix) s) suffix.

Fixpoint includes (needle s : string) : bool :=
  String.prefix needle s ||
  match s with
  | EmptyString => false
  | String _ r => includes needle r
  end.

(** [s.replace(/pat/g, '')] for a literal, non-empty [pat]: [skip] counts the
    characters of a match still to be dropped. *)
Fixpoint removeAllFrom (pat : string) (skip : nat) (s : string) : string :=
  match s with
  | EmptyString => EmptyString
  | String c r =>
      match skip with
      | S k => removeAllFrom pat k r
      | O => if String.prefix pat s
             then removeAllFrom pat (String.length pat - 1) r
             else String c (removeAllFrom pat 0 r)
      end
  end.

Definition removeAll (pat s : string) : string := removeAllFrom pat 0 s.

Definition isSpace (c : ascii) : bool :=
  let n := nat_of_ascii c in
  (((9 <=? n) && (n <=? 13)) || (n =? 32))%nat.

Fixpoint trimStart (s : string) : string :=
  match s with
  | EmptyString => EmptyString
  | String c r => if isSpace c then trimStart r else s
  end.

Definition trim (s : string) : string :=
  String.rev (trimStart (String.rev (trimStart s))).

(** ** types.ts *)

Inductive ContentType :=
  | TextHtml | ApplicationJson | ImageJpeg | ImagePng | TextCss
  | ApplicationJavascript | ApplicationPdf | Other.

Global Instance ContentType_eq_dec : EqDecision ContentType.
Proof. solve_decision. Defined.

Record LinkNode := mkNode {
  id : string;
  url : string;
  title : Json;
  depth : nat;
  parentId : option string;
  status : Json;
  type : Json;
  contentType : ContentType;
  size : option nat;
  discoverySource : Json;
  scanned : bool;
  responseTime : option nat
}.

Record CrawlConfig := mkConfig {
  cfg_url : string;
  maxDepth : nat;
  maxPages : nat;
  delay : Z
}.

Record CrawlStats := mkStats {
  totalLinks : nat;
  scannedPages : nat;
  queuedPages : nat;
  errors : nat;
  assetsFound : nat;
  totalSizeKB : nat;
  currentUrl : string;
  depthReached : nat
}.

Inductive CrawlStatus := IDLE | RUNNING | PAUSED | COMPLETED | FAILED.

Global Instance CrawlStatus_eq_dec : EqDecision CrawlStatus.
Proof. solve_decision. Defined.

(** ** services/gemini: the classifier *)

Definition matchesExt (exts : list string) (u : string) : bool :=
  existsb (fun e => endsWith e (toLowerCase u)) exts.

Definition guessContentType (u : string) : ContentType :=
  if matchesExt [".jpg"; ".jpeg"; ".gif"; ".webp"] u then ImageJpeg
  else if matchesExt [".png"] u then ImagePng
  else if matchesExt [".js"] u then ApplicationJavascript
  else if matchesExt [".css"] u then TextCss
  else if matchesExt [".pdf"] u then ApplicationPdf
  else if matchesExt [".json"] u then ApplicationJson
  else TextHtml.

(** [guessContentType(link.url)] on a raw value: [url.match] exists on
    strings only. *)
Definition guessContentTypeOf (v : JsVal) : Result ContentType :=
  match v with
  | Some (JStr u) => Ok (guessContentType u)
  | None => Throw (TypeError "Cannot read properties of undefined (reading 'match')")
  | Some JNull => Throw (TypeError "Cannot read properties of null (reading 'match')")
  | Some _ => Throw (TypeError "url.match is not a function")
  end.

(** ** The platform: remote model, random source, JSON parser *)

(** What one [generateContent] call may do: resolve with [response.text]
    ([None] is [undefined]) or reject with an error. *)
Inductive Outcome :=
  | Resolved (text : option string)
  | Rejected (e : JsError).

(** [generateContent w apiKey currentUrl rootUrl]: the prompt is a function of
    the two URLs alone.  [randomBelow w n] is [Math.floor(Math.random() * n)].
    [JSON_parse] is [None] where [JSON.parse] throws. *)
Class Platform (World : Type) := {
  generateContent : World -> string -> string -> string -> Outcome * World;
  randomBelow : World -> nat -> nat * World;
  JSON_parse : string -> option Json
}.

Inductive Event :=
  | Request (keyIdx attempt : nat)
  | Sleep (ms : Z).

Record Fetched := mkFetched {
  links : list LinkNode;
  usedKeyIndex : nat
}.

(** How one pass of the inner [for] loop ends. *)
Inductive LoopExit :=
  | Returned (r : Fetched)
  | Thrown (e : JsError)
  | Broke
  | Finished.

Definition LoopState (World : Type) : Type :=
  LoopExit * option JsError * World * list Event.

(** The events [evs] happen, then the rest of the loop runs. *)
Definition prepend {World : Type} (evs : list Event) (r : LoopState World) : LoopState World :=
  let '(x, le, w, evs') := r in (x, le, w, evs ++ evs').

(** The five events of three attempts on one key with a cooldown between them. *)
Definition threeAttempts (pause1 pause2 : Z) (keyIdx : nat) : list Event :=
  [Request keyIdx 0; Sleep pause1; Request keyIdx 1; Sleep pause2; Request keyIdx 2].

(** The event is not a request to another key than [keyIdx]. *)
Definition onKey (keyIdx : nat) (ev : Event) : Prop :=
  match ev with
  | Request k _ => k = keyIdx
  | Sleep _ => True
  end.

Module Gemini.
Section Client.
Context {World : Type} `{Platform World}.

Variable apiKeys : list string.
Variable currentUrl rootUrl : string.
Variable currentDepth : nat.

(** The callback of [rawLinks.map]: the fields are evaluated in the order of
    the object literal, so a throwing [guessContentType(link.url)] comes
    before either random draw. *)
Definition toLinkNode (link : Json) (w : World) : Result LinkNode * World :=
  match getProp link "url" with
  | Throw e => (Throw e, w)
  | Ok u =>
      match guessContentTypeOf u with
      | Throw e => (Throw e, w)
      | Ok ct =>
          let u' := match u with Some (JStr s) => s | _ => "" end in
          let '(r1, w1) := randomBelow w 100 in
          let '(r2, w2) := randomBelow w1 200 in
          (Ok {| id := u'; url := u';
                 title := orDefault (readProp link "title") (JStr "Untitled");
                 depth := currentDepth + 1;
                 parentId := Some currentUrl;
                 status := orDefault (readProp link "status") (JStr "200");
                 type := orDefault (readProp link "type") (JStr "internal");
                 contentType := ct;
                 size := Some (r1 + 5);
                 discoverySource := orDefault (readProp link "discoverySource") (JStr "anchor");
                 scanned := false;
                 responseTime := Some (r2 + 20) |}, w2)
      end
  end.

Fixpoint mapLinks (raw : list Json) (w : World) : Result (list LinkNode) * World :=
  match raw with
  | [] => (Ok [], w)
  | link :: rest =>
      match toLinkNode link w with
      | (Throw e, w1) => (Throw e, w1)
      | (Ok n, w1) =>
          match mapLinks rest w1 with
          | (Throw e, w2) => (Throw e, w2)
          | (Ok ns, w2) => (Ok (n :: ns), w2)
          end
      end
  end.

(** [rawLinks.map(...)]: only an array has [map]. *)
Definition mapRaw (raw : Json) (w : World) : Result (list LinkNode) * World :=
  match raw with
  | JArr l => mapLinks l w
  | JNull => (Throw (TypeError "Cannot read properties of null (reading 'map')"), w)
  | _ => (Throw (TypeError "rawLinks.map is not a function"), w)
  end.

Definition cleanText (text : string) : string :=
  trim (removeAll "```" (removeAll "```json" text)).

(** The body of the [try] block for one attempt. *)
Definition tryBody (apiKey : string) (keyIdx : nat) (w : World) : Result Fetched * World :=
  match generateContent w apiKey currentUrl rootUrl with
  | (Rejected e, w1) => (Throw e, w1)
  | (Resolved None, w1) | (Resolved (Some ""), w1) => (Ok (mkFetched [] keyIdx), w1)
  | (Resolved (Some text), w1) =>
      match JSON_parse (cleanText text) with
      | None => (Ok (mkFetched [] keyIdx), w1)
      | Some raw =>
          match mapRaw raw w1 with
          | (Throw e, w2) => (Throw e, w2)
          | (Ok ls, w2) => (Ok (mkFetched ls keyIdx), w2)
          end
      end
  end.

Definition fieldIs429 (f : ErrField) : bool :=
  match f with ENum 429%Z => true | _ => false end.

Definition isQuotaError (e : JsError) : bool :=
  fieldIs429 (e_status e) || fieldIs429 (e_code e) ||
  match e_status e with EStr s => String.eqb s "RESOURCE_EXHAUSTED" | _ => false end ||
  match e_message e with
  | Some m => includes "429" m || includes "quota" m
  | None => false
  end.

(** [for (let attempt = 0; attempt < 3; attempt++)], entered with
    [remaining = 3 - attempt].  Returns how the loop ended, [lastError], the
    world and the events in order. *)
Fixpoint attemptLoop (apiKey : string) (keyIdx : nat) (remaining attempt : nat)
    (lastError : option JsError) (w : World)
    : LoopExit * option JsError * World * list Event :=
  match remaining with
  | O => (Finished, lastError, w, [])
  | S remaining' =>
      match tryBody apiKey keyIdx w with
      | (Ok r, w1) => (Returned r, lastError, w1, [Request keyIdx attempt])
      | (Throw error, w1) =>
          if isQuotaError error then
            if (attempt <? 2)%nat then
              let '(x, le, w2, evs) :=
                attemptLoop apiKey keyIdx remaining' (S attempt) (Some error) w1 in
              (x, le, w2, Request keyIdx attempt :: Sleep 10000%Z :: evs)
            else (Broke, Some error, w1, [Request keyIdx attempt])
          else if (attempt =? 2)%nat then
            (Thrown error, Some error, w1, [Request keyIdx attempt])
          else
            let '(x, le, w2, evs) :=
              attemptLoop apiKey keyIdx remaining' (S attempt) (Some error) w1 in
            (x, le, w2, Request keyIdx attempt :: Sleep (2000 * (Z.of_nat attempt + 1))%Z :: evs)
      end
  end.

(** [for (let keyIdx = activeKeyIndex; keyIdx < apiKeys.length; keyIdx++)],
    entered with [rest] the keys from [keyIdx] on. *)
Fixpoint keyLoop (rest : list string) (keyIdx : nat)
    (lastError : option JsError) (w : World)
    : LoopExit * option JsError * World * list Event :=
  match rest with
  | [] => (Finished, lastError, w, [])
  | apiKey :: rest' =>
      match attemptLoop apiKey keyIdx 3 0 lastError w with
      | (Returned r, le, w1, evs) => (Returned r, le, w1, evs)
      | (Thrown e, le, w1, evs) => (Thrown e, le, w1, evs)
      | (_, le, w1, evs) =>
          let '(x, le', w2, evs') := keyLoop rest' (S keyIdx) le w1 in
          (x, le', w2, evs ++ evs')
      end
  end.

Definition fetchPageLinks (activeKeyIndex : nat) (w : World)
    : Result Fetched * World * list Event :=
  if bool_decide (apiKeys = []) then (Throw (newError "No API Keys provided."), w, [])
  else if negb (bool_decide (guessContentType currentUrl = TextHtml)) then
    (Ok (mkFetched [] activeKeyIndex), w, [])
  else
    match keyLoop (drop activeKeyIndex apiKeys) activeKeyIndex None w with
    | (Returned r, _, w1, evs) => (Ok r, w1, evs)
    | (Thrown e, _, w1, evs) => (Throw e, w1, evs)
    | (_, Some lastError, w1, evs) => (Throw lastError, w1, evs)
    | (_, None, w1, evs) => (Ok (mkFetched [] (length apiKeys - 1)), w1, evs)
    end.

End Client.
End Gemini.

(** ** App.tsx: the crawl loop *)

(** What is pending on the event loop for the crawl: a [setTimeout] of
    [processQueue], a [processQueue] suspended at its [await] with the node it
    dequeued, or nothing. *)
Inductive Task :=
  | Scheduled
  | Awaiting (currentNode : LinkNode)
  | NoTask.

(** The refs and the state of the component the crawl reads or writes.
    [reports] lists the keys [analyzeOrphans] was called with. *)
Record Engine := mkEngine {
  queue : list LinkNode;
  visited : gset string;
  nodes : list LinkNode;
  isRunning : bool;
  apiKeys : list string;
  currentKeyIndex : nat;
  isApiConnected : bool;
  crawlStatus : CrawlStatus;
  stats : CrawlStats;
  reports : list string;
  task : Task
}.

Definition setNode_status (v : Json) (n : LinkNode) : LinkNode :=
  {| id := id n; url := url n; title := title n; depth := depth n;
     parentId := parentId n; status := v; type := type n;
     contentType := contentType n; size := size n;
     discoverySource := discoverySource n; scanned := scanned n;
     responseTime := responseTime n |}.

Definition setNode_scanned (b : bool) (n : LinkNode) : LinkNode :=
  {| id := id n; url := url n; title := title n; depth := depth n;
     parentId := parentId n; status := status n; type := type n;
     contentType := contentType n; size := size n;
     discoverySource := discoverySource n; scanned := b;
     responseTime := responseTime n |}.

Fixpoint findIndex (i : string) (l : list LinkNode) : option nat :=
  match l with
  | [] => None
  | n :: rest => if String.eqb (id n) i then Some 0 else S <$> findIndex i rest
  end.

(** [updateNodeState] on the list: the first entry with the id is replaced by
    a copy of the node.  The node passed is the dequeued object, which the
    list holds under its unique id, so mutating it in place and writing the
    copy reach the same entry. *)
Definition updateNodes (updatedNode : LinkNode) (l : list LinkNode) : list LinkNode :=
  match findIndex (id updatedNode) l with
  | Some index => <[index := updatedNode]> l
  | None => l
  end.

Definition withNodes (l : list LinkNode) (s : Engine) : Engine :=
  {| queue := queue s; visited := visited s; nodes := l; isRunning := isRunning s;
     apiKeys := apiKeys s; currentKeyIndex := currentKeyIndex s;
     isApiConnected := isApiConnected s; crawlStatus := crawlStatus s;
     stats := stats s; reports := reports s; task := task s |}.

Definition withStats (st : CrawlStats) (s : Engine) : Engine :=
  {| queue := queue s; visited := visited s; nodes := nodes s; isRunning := isRunning s;
     apiKeys := apiKeys s; currentKeyIndex := currentKeyIndex s;
     isApiConnected := isApiConnected s; crawlStatus := crawlStatus s;
     stats := st; reports := reports s; task := task s |}.

Definition withTask (t : Task) (s : Engine) : Engine :=
  {| queue := queue s; visited := visited s; nodes := nodes s; isRunning := isRunning s;
     apiKeys := apiKeys s; currentKeyIndex := currentKeyIndex s;
     isApiConnected := isApiConnected s; crawlStatus := crawlStatus s;
     stats := stats s; reports := reports s; task := t |}.

Definition withKeyIndex (k : nat) (s : Engine) : Engine :=
  {| queue := queue s; visited := visited s; nodes := nodes s; isRunning := isRunning s;
     apiKeys := apiKeys s; currentKeyIndex := k;
     isApiConnected := isApiConnected s; crawlStatus := crawlStatus s;
     stats := stats s; reports := reports s; task := task s |}.

Definition updateNodeState (updatedNode : LinkNode) (s : Engine) : Engine :=
  withNodes (updateNodes updatedNode (nodes s)) s.

Definition stopCrawl (s : Engine) : Engine :=
  {| queue := queue s; visited := visited s; nodes := nodes s; isRunning := false;
     apiKeys := apiKeys s; currentKeyIndex := currentKeyIndex s;
     isApiConnected := isApiConnected s; crawlStatus := IDLE;
     stats := stats s; reports := reports s; task := task s |}.

(** [finishCrawl]: [analyzeOrphans] is called when the active key is a
    non-empty string. *)
Definition finishCrawl (s : Engine) : Engine :=
  {| queue := queue s; visited := visited s; nodes := nodes s; isRunning := false;
     apiKeys := apiKeys s; currentKeyIndex := currentKeyIndex s;
     isApiConnected := isApiConnected s; crawlStatus := COMPLETED;
     stats := stats s;
     reports := match apiKeys s !! currentKeyIndex s with
                | Some activeKey =>
                    if String.eqb activeKey "" then reports s else reports s ++ [activeKey]
                | None => reports s
                end;
     task := NoTask |}.

Definition withQueue (q : list LinkNode) (s : Engine) : Engine :=
  {| queue := q; visited := visited s; nodes := nodes s; isRunning := isRunning s;
     apiKeys := apiKeys s; currentKeyIndex := currentKeyIndex s;
     isApiConnected := isApiConnected s; crawlStatus := crawlStatus s;
     stats := stats s; reports := reports s; task := task s |}.

Definition isInternalHtml (child : LinkNode) : bool :=
  match type child with
  | JStr t => String.eqb t "internal"
  | _ => false
  end && bool_decide (contentType child = TextHtml).

(** The child enters the visited set and the node list, and the frontier when
    it is an internal HTML page. *)
Definition recordChild (child : LinkNode) (s : Engine) : Engine :=
  {| queue := if isInternalHtml child then queue s ++ [child] else queue s;
     visited := {[url child]} ∪ visited s;
     nodes := nodes s ++ [child];
     isRunning := isRunning s; apiKeys := apiKeys s;
     currentKeyIndex := currentKeyIndex s; isApiConnected := isApiConnected s;
     crawlStatus := crawlStatus s; stats := stats s; reports := reports s;
     task := task s |}.

(** One pass of the [for (const child of children)] body.  Only a string has
    [startsWith]: any other status throws after the child was recorded. *)
Definition admitChild (child : LinkNode) (s : Engine) : Engine * option JsError :=
  if bool_decide (url child ∈ visited s) then (s, None)
  else
    match status child with
    | JStr _ => (recordChild child s, None)
    | _ => (recordChild child s,
            Some (TypeError "child.status.startsWith is not a function"))
    end.

Fixpoint mergeChildren (children : list LinkNode) (s : Engine) : Engine * option JsError :=
  match children with
  | [] => (s, None)
  | child :: rest =>
      match admitChild child s with
      | (s', None) => mergeChildren rest s'
      | (s', Some err) => (s', Some err)
      end
  end.

Definition statusStartsWith4 (n : LinkNode) : option bool :=
  match status n with
  | JStr st => Some (startsWith "4" st)
  | _ => None
  end.

Definition isResource (n : LinkNode) : bool :=
  match type n with
  | JStr t => String.eqb t "resource"
  | _ => false
  end.

(** [l.filter(n => n.status.startsWith('4')).length]; [None] where the
    callback throws. *)
Fixpoint countErrors (l : list LinkNode) : option nat :=
  match l with
  | [] => Some 0
  | n :: rest =>
      match statusStartsWith4 n, countErrors rest with
      | Some b, Some k => Some (if b then S k else k)
      | _, _ => None
      end
  end.

Definition sizeOr0 (n : LinkNode) : nat := default 0 (size n).

(** The updater passed to [setStats] after a successful expansion. *)
Definition statsUpdater (nodesRef queueRef : list LinkNode) (currentNode : LinkNode)
    (children : list LinkNode) (prev : CrawlStats) : option CrawlStats :=
  match countErrors nodesRef with
  | None => None
  | Some errs =>
      Some {| totalLinks := length nodesRef;
              scannedPages := scannedPages prev + 1;
              queuedPages := length queueRef;
              errors := errs;
              assetsFound := length (filter (fun n => isResource n = true) nodesRef);
              totalSizeKB := totalSizeKB prev + foldl (fun acc c => acc + sizeOr0 c) 0 children;
              currentUrl := currentUrl prev;
              depthReached := depthReached prev `max` depth currentNode |}
  end.

(** An updater that throws does so while React renders, outside
    [processQueue]: the render fails and React unmounts the component, so
    the statistics are no longer shown, while the refs and the loop go on.
    The model keeps the last statistics; it does not follow the component
    beyond that render. *)
Definition setStats (f : CrawlStats -> option CrawlStats) (s : Engine) : Engine :=
  match f (stats s) with
  | Some st => withStats st s
  | None => s
  end.

Definition fieldTruthy (f : ErrField) : bool :=
  match f with
  | EUndefined | ENum 0%Z | EStr "" => false
  | _ => true
  end.

Definition fieldToString (f : ErrField) : string :=
  match f with
  | EUndefined => "undefined"
  | ENum z => pretty z
  | EStr s => s
  end.

(** The [catch] block of [processQueue]. *)
Definition failedStatus (err : JsError) : string :=
  let errorMsg := match e_message err with
                  | Some m => if String.eqb m "" then e_json err else m
                  | None => e_json err
                  end in
  let status := fieldToString (if fieldTruthy (e_status err) then e_status err
                               else if fieldTruthy (e_code err) then e_code err
                               else EStr "500") in
  if String.eqb status "404" || includes "404" errorMsg then "404"
  else if String.eqb status "403" || includes "403" errorMsg then "403"
  else "500".

Section Crawl.
Context {World : Type} `{Platform World}.
Variable config : CrawlConfig.

Definition terminates (s : Engine) : bool :=
  negb (isRunning s) || (length (queue s) =? 0) || (maxPages config <=? length (nodes s)).

(** [processQueue] up to its first [await]. *)
Definition processQueue (s : Engine) : Engine :=
  if terminates s then finishCrawl s
  else
    match queue s with
    | [] => withTask NoTask s
    | currentNode :: rest =>
        let s1 := withQueue rest s in
        let s2 := withStats
                    {| totalLinks := totalLinks (stats s1);
                       scannedPages := scannedPages (stats s1);
                       queuedPages := length rest;
                       errors := errors (stats s1);
                       assetsFound := assetsFound (stats s1);
                       totalSizeKB := totalSizeKB (stats s1);
                       currentUrl := url currentNode;
                       depthReached := depthReached (stats s1) |} s1 in
        if maxDepth config <=? depth currentNode then withTask Scheduled s2
        else
          let currentNode' := setNode_status (JStr "scanning") currentNode in
          withTask (Awaiting currentNode') (updateNodeState currentNode' s2)
    end.

(** The nodes [processQueue] takes off the frontier: none or the head. *)
Definition dequeuedBy (s : Engine) : list LinkNode :=
  if terminates s then [] else take 1 (queue s).

Definition catchError (err : JsError) (currentNode : LinkNode) (s : Engine) : Engine :=
  updateNodeState (setNode_status (JStr (failedStatus err)) currentNode) s.

(** [processQueue] from its [await] on: the delay, the oracle call, the
    merge, and the next [setTimeout]. *)
Definition resumeQueue (currentNode : LinkNode) (s : Engine) (w : World)
    : Engine * World * list Event :=
  let '(res, w', evs) :=
    Gemini.fetchPageLinks (apiKeys s) (url currentNode) (cfg_url config)
                          (depth currentNode) (currentKeyIndex s) w in
  let s' :=
    match res with
    | Throw err => catchError err currentNode s
    | Ok r =>
        let s1 := if bool_decide (usedKeyIndex r = currentKeyIndex s) then s
                  else withKeyIndex (usedKeyIndex r) s in
        match mergeChildren (links r) s1 with
        | (s2, Some err) => catchError err currentNode s2
        | (s2, None) =>
            let currentNode' := setNode_scanned true (setNode_status (JStr "200") currentNode) in
            let s3 := updateNodeState currentNode' s2 in
            setStats (statsUpdater (nodes s3) (queue s3) currentNode' (links r)) s3
        end
    end in
  (withTask Scheduled s', w', Sleep (delay config) :: evs).

Definition rootNode : LinkNode :=
  {| id := cfg_url config; url := cfg_url config; title := JStr "Root"; depth := 0;
     parentId := None; status := JStr "pending"; type := JStr "internal";
     contentType := TextHtml; size := None; discoverySource := JStr "anchor";
     scanned := false; responseTime := None |}.

Definition canStart (s : Engine) : bool :=
  negb (String.eqb (cfg_url config) "") && isApiConnected s &&
  negb (bool_decide (crawlStatus s = RUNNING)).

(** [startRecursiveCrawl] up to its call of [processQueue]. *)
Definition resetCrawl (s : Engine) : Engine :=
  {| queue := [rootNode]; visited := {[cfg_url config]}; nodes := [rootNode];
     isRunning := true; apiKeys := apiKeys s; currentKeyIndex := currentKeyIndex s;
     isApiConnected := isApiConnected s; crawlStatus := RUNNING;
     stats := {| totalLinks := 1; scannedPages := 0; queuedPages := 1; errors := 0;
                 assetsFound := 0; totalSizeKB := 0; currentUrl := cfg_url config;
                 depthReached := 0 |};
     reports := reports s; task := NoTask |}.

Definition startRecursiveCrawl (s : Engine) : Engine :=
  if canStart s then processQueue (resetCrawl s) else s.

(** One crawl run: [startRecursiveCrawl] on an engine with nothing pending,
    then timers firing, suspended steps resuming and the stop button (shown
    while the status is RUNNING), in any order the event loop allows.  The
    first index lists the dequeued nodes, oldest first.  A crawl started
    while a step of a stopped crawl is still pending is no run: see
    [sessionStep]. *)
Inductive run : list LinkNode -> Engine -> World -> Prop :=
  | run_start s0 w :
      task s0 = NoTask -> canStart s0 = true ->
      run (dequeuedBy (resetCrawl s0)) (startRecursiveCrawl s0) w
  | run_timer h s w :
      run h s w -> task s = Scheduled ->
      run (h ++ dequeuedBy s) (processQueue s) w
  | run_resume h s w currentNode :
      run h s w -> task s = Awaiting currentNode ->
      run h (resumeQueue currentNode s w).1.1 (resumeQueue currentNode s w).1.2
  | run_stop h s w :
      run h s w -> crawlStatus s = RUNNING ->
      run h (stopCrawl s) w.

End Crawl.

(** ** A scripted platform for the examples

    The world counts the oracle calls made so far.  [respond] chooses each
    reply from the call number, the key and the page; every random draw is 0;
    [JSON_parse] knows the documents [docs] by their serialisation and
    rejects every other text. *)

Definition quote : string := String (ascii_of_nat 34) EmptyString.

Fixpoint stringify (j : Json) : string :=
  match j with
  | JNull => "null"
  | JBool b => if b then "true" else "false"
  | JNum z => pretty z
  | JStr s => quote +:+ s +:+ quote
  | JArr l =>
      "[" +:+
      (fix items (l : list Json) : string :=
         match l with
         | [] => ""
         | x :: rest =>
             match rest with
             | [] => stringify x
             | _ => stringify x +:+ "," +:+ items rest
             end
         end) l +:+ "]"
  | JObj fields =>
      "{" +:+
      (fix members (l : list (string * Json)) : string :=
         match l with
         | [] => ""
         | (k, v) :: rest =>
             match rest with
             | [] => quote +:+ k +:+ quote +:+ ":" +:+ stringify v
             | _ => quote +:+ k +:+ quote +:+ ":" +:+ stringify v +:+ "," +:+ members rest
             end
         end) fields +:+ "}"
  end.

Fixpoint parseKnown (docs : list Json) (text : string) : option Json :=
  match docs with
  | [] => None
  | j :: rest => if String.eqb (stringify j) text then Some j else parseKnown rest text
  end.

Definition scripted (respond : nat -> string -> string -> Outcome) (docs : list Json)
    : Platform nat :=
  {| generateContent := fun w apiKey currentUrl _ => (respond w apiKey currentUrl, S w);
     randomBelow := fun w _ => (0, w);
     JSON_parse := parseKnown docs |}.

Definition quotaError : JsError :=
  mkError (ENum 429) EUndefined (Some "Too Many Requests") "{}".

Definition serverError : JsError :=
  mkError (ENum 500) EUndefined (Some "Internal error") "{}".

Definition linkJson (u t : string) : Json :=
  JObj [("url", JStr u); ("title", JStr "link"); ("type", JStr t); ("status", JStr "200")].

(** The oracle of the example scenario: every page has the two children
    [/a] and [/a/style.css]. *)
Definition twoLinks : Json :=
  JArr [linkJson "https://example.test/a" "internal";
        linkJson "https://example.test/a/style.css" "resource"].

Definition examplePlatform : Platform nat :=
  scripted (fun _ _ _ => Resolved (Some ("```json" +:+ stringify twoLinks +:+ "```")))
           [twoLinks].

Definition exampleConfig (pages : nat) : CrawlConfig :=
  {| cfg_url := "https://example.test/"; maxDepth := 2; maxPages := pages; delay := 5000 |}.

Definition idleEngine (keys : list string) : Engine :=
  {| queue := []; visited := ∅; nodes := []; isRunning := false; apiKeys := keys;
     currentKeyIndex := 0; isApiConnected := true; crawlStatus := IDLE;
     stats := mkStats 0 0 0 0 0 0 "" 0; reports := []; task := NoTask |}.

Definition quotaPlatform : Platform nat := scripted (fun _ _ _ => Rejected quotaError) [].
Definition faultyPlatform : Platform nat := scripted (fun _ _ _ => Rejected serverError) [].
Definition objectPlatform : Platform nat :=
  scripted (fun _ _ _ => Resolved (Some (stringify (JObj [])))) [JObj []].
Definition garbagePlatform : Platform nat :=
  scripted (fun _ _ _ => Resolved (Some "Sorry, I cannot list links.")) [twoLinks].

(** ** Predicates of the proofs *)

(** Every call made for the page with a key of the pool is rejected with a
    quota signal. *)
Definition alwaysQuota {World : Type} `{Platform World} (cur root : string)
    (keys : list string) : Prop :=
  forall w apiKey, apiKey ∈ keys ->
    exists e w1, generateContent w apiKey cur root = (Rejected e, w1) /\
                 Gemini.isQuotaError e = true.

(** What the merge loop leaves behind: [added] are the nodes it appended, in
    order. *)
Definition mergedWith (added : list LinkNode) (s s' : Engine) : Prop :=
  nodes s' = nodes s ++ added /\
  queue s' = queue s ++ filter (fun n => isInternalHtml n = true) added /\
  (forall x, x ∈ visited s' <-> x ∈ visited s \/ x ∈ url <$> added) /\
  NoDup (url <$> added) /\
  (forall n, n ∈ added -> url n ∉ visited s) /\
  stats s' = stats s /\ task s' = task s /\ crawlStatus s' = crawlStatus s /\
  isRunning s' = isRunning s /\ apiKeys s' = apiKeys s /\
  currentKeyIndex s' = currentKeyIndex s /\ reports s' = reports s.

(** What [fetchPageLinks] fixes in every node it builds for page [cur] at
    depth [d]. *)
Definition childOf (cur : string) (d : nat) (n : LinkNode) : Prop :=
  id n = url n /\ depth n = d + 1 /\ parentId n = Some cur /\
  contentType n = guessContentType (url n) /\ scanned n = false.

Definition statusOf (link : Json) : Json := orDefault (readProp link "status") (JStr "200").

(** The list is empty or is one reply of the oracle for the page, parsed and
    mapped. *)
Definition fromReply {World : Type} `{Platform World} (cur root : string) (d : nat)
    (ls : list LinkNode) : Prop :=
  ls = [] \/
  exists w apiKey t w1 raw w2,
    generateContent w apiKey cur root = (Resolved (Some t), w1) /\
    JSON_parse (Gemini.cleanText t) = Some (JArr raw) /\
    Gemini.mapLinks cur d raw w1 = (Ok ls, w2).

(** The oracle never lists more than [k] links for a page. *)
Definition fanout {World : Type} `{Platform World} (k : nat) : Prop :=
  forall w apiKey cur root t w1 raw,
    generateContent w apiKey cur root = (Resolved (Some t), w1) ->
    JSON_parse (Gemini.cleanText t) = Some (JArr raw) ->
    length raw <= k.

(** The status the oracle gives a link, where it gives one, is a string. *)
Definition stringStatuses {World : Type} `{Platform World} : Prop :=
  forall w apiKey cur root t w1 raw,
    generateContent w apiKey cur root = (Resolved (Some t), w1) ->
    JSON_parse (Gemini.cleanText t) = Some (JArr raw) ->
    Forall (fun link => exists st, statusOf link = JStr st) raw.

(** [c'] is [c] with another status and, possibly, the scanned flag. *)
Definition restatus (c c' : LinkNode) : Prop :=
  id c' = id c /\ url c' = url c /\ depth c' = depth c /\ parentId c' = parentId c /\
  type c' = type c /\ contentType c' = contentType c /\ size c' = size c /\
  exists st, status c' = JStr st.

(** The children the oracle client hands to a resumed step. *)
Definition fetchedChildren {World : Type} `{Platform World} (config : CrawlConfig)
    (c : LinkNode) (s : Engine) (w : World) : list LinkNode :=
  match (Gemini.fetchPageLinks (apiKeys s) (url c) (cfg_url config) (depth c)
                               (currentKeyIndex s) w).1.1 with
  | Ok r => links r
  | Throw _ => []
  end.

(** Every node, listed, queued or in flight, is keyed by its URL, and the
    URLs of the node list are unique and visited. *)
Definition wellFormed (s : Engine) : Prop :=
  Forall (fun n => id n = url n) (nodes s) /\
  NoDup (url <$> nodes s) /\
  Forall (fun u => u ∈ visited s) (url <$> nodes s) /\
  Forall (fun n => id n = url n) (queue s) /\
  (forall c, task s = Awaiting c -> id c = url c).

Definition depthLe (a b : LinkNode) : Prop := depth a <= depth b.

(** The dequeued nodes followed by the frontier are sorted by depth, and the
    frontier spans at most two levels: those of the node in flight, or of its
    own head, and the next. *)
Definition bfsOrdered (h : list LinkNode) (s : Engine) : Prop :=
  StronglySorted depthLe (h ++ queue s) /\
  match task s with
  | Awaiting c =>
      (forall x, x ∈ h -> depth x <= depth c) /\
      (forall q, q ∈ queue s -> depth c <= depth q <= depth c + 1)
  | _ => forall x q, head (queue s) = Some x -> q ∈ queue s -> depth q <= depth x + 1
  end.

(** The recomputations the statistics are compared with. *)
Definition scannedNodes (l : list LinkNode) : list LinkNode :=
  filter (fun n => scanned n = true) l.
Definition sumSizes (l : list LinkNode) : nat := sum_list_with sizeOr0 l.
Definition deepest (l : list LinkNode) : nat := max_list_with depth l.
Definition resourceNodes (l : list LinkNode) : list LinkNode :=
  filter (fun n => isResource n = true) l.
Definition stringStatus (n : LinkNode) : Prop := exists st, status n = JStr st.

(** The statistics agree with the node list, and the nodes still to be
    expanded are unscanned entries of it. *)
Definition statsAgree (s : Engine) : Prop :=
  Forall stringStatus (nodes s) /\
  NoDup (id <$> queue s) /\
  Forall (fun q => q ∈ nodes s /\ scanned q = false) (queue s) /\
  (forall c, task s = Awaiting c ->
     c ∈ nodes s /\ scanned c = false /\ id c ∉ id <$> queue s) /\
  totalLinks (stats s) = length (nodes s) /\
  scannedPages (stats s) = length (scannedNodes (nodes s)) /\
  depthReached (stats s) = deepest (scannedNodes (nodes s)) /\
  sumSizes (nodes s) <= totalSizeKB (stats s) /\
  assetsFound (stats s) = length (resourceNodes (nodes s)) /\
  queuedPages (stats s) = length (queue s).

(** Every reply for the page is a non-empty text that parses to JSON other
    than a list. *)
Definition alwaysNonList {World : Type} `{Platform World} (cur root : string) : Prop :=
  forall w apiKey,
    exists t w1 raw,
      generateContent w apiKey cur root = (Resolved (Some t), w1) /\
      t <> "" /\
      JSON_parse (Gemini.cleanText t) = Some raw /\
      forall l, raw <> JArr l.

(** ** The example scenario, step by step *)

Module Scenario.
#[local] Existing Instance examplePlatform.

Definition keys : list string := ["key-1"].

Section Run.
Variable pages : nat.

Definition cfg : CrawlConfig := exampleConfig pages.
Definition scanning (n : LinkNode) : LinkNode := setNode_status (JStr "scanning") n.

(** Start: the seed is dequeued and awaited. *)
Definition h1 : list LinkNode := dequeuedBy cfg (resetCrawl cfg (idleEngine keys)).
Definition s1 : Engine := startRecursiveCrawl cfg (idleEngine keys).
Definition c1 : LinkNode := scanning (rootNode cfg).
(** The seed's expansion returns. *)
Definition s2 : Engine := (resumeQueue cfg c1 s1 0).1.1.
Definition w2 : nat := (resumeQueue cfg c1 s1 0).1.2.
(** The timer fires: [/a] is dequeued and awaited. *)
Definition h3 : list LinkNode := h1 ++ dequeuedBy cfg s2.
Definition s3 : Engine := processQueue cfg s2.
Definition c3 : LinkNode := scanning (default (rootNode cfg) (head (queue s2))).
(** The expansion of [/a] returns the same two links again. *)
Definition s4 : Engine := (resumeQueue cfg c3 s3 w2).1.1.
Definition w4 : nat := (resumeQueue cfg c3 s3 w2).1.2.

(** Stop pressed while the seed's expansion is in flight. *)
Definition stopped : Engine := stopCrawl s1.
Definition drained : Engine := (resumeQueue cfg c1 stopped 0).1.1.
Definition drainedWorld : nat := (resumeQueue cfg c1 stopped 0).1.2.
Definition final : Engine := processQueue cfg drained.
Definition finalHistory : list LinkNode := h1 ++ dequeuedBy cfg drained.
End Run.

End Scenario.

(** ** The event loop around the crawl *)

(** One turn of the event loop on the crawl's pending task, when nobody
    presses a button. *)
Definition turn {World : Type} `{Platform World} (config : CrawlConfig)
    (sw : Engine * World) : Engine * World :=
  match task sw.1 with
  | Scheduled => (processQueue config sw.1, sw.2)
  | Awaiting currentNode => (resumeQueue config currentNode sw.1 sw.2).1
  | NoTask => sw
  end.


(** The page budget with at most [k] links per reply. *)
Definition nodeBound (config : CrawlConfig) (k : nat) : nat :=
  1 `max` (maxPages config - 1 + k).

(** What of a node [updateNodeState] never changes. *)
Definition shape (n : LinkNode) : string * string * nat * option string :=
  (id n, url n, depth n, parentId n).

(** The node list as a tree: a node without parent is the seed, at depth 0,
    and the parent of any other node is listed one level above it. *)
Definition treeShaped (config : CrawlConfig) (l : list LinkNode) : Prop :=
  forall n, n ∈ l ->
    match parentId n with
    | None => url n = cfg_url config /\ depth n = 0
    | Some p => exists m, m ∈ l /\ url m = p /\ depth n = depth m + 1
    end.

(** An upper bound on the turns a run still needs: two for each node that
    may yet be dequeued, one more while a step is in flight. *)
Definition turnsLeft (config : CrawlConfig) (k : nat) (h : list LinkNode) (s : Engine) : nat :=
  2 * (nodeBound config k - length h) +
  match task s with Awaiting _ => 1 | _ => 0 end.

(** ** App.tsx: the key pool *)

(** The separators of [/[\n,\|\s]+/] among the ASCII characters: on text
    with other characters the code also splits at U+00A0, U+2028, U+FEFF
    and the other white space of [\s]. *)
Definition isKeySeparator (c : ascii) : bool :=
  isSpace c || (nat_of_ascii c =? 44) || (nat_of_ascii c =? 124).

(** [s.split(/[...]+/)]: the pieces between runs of separators.  [cur] is the
    piece being read and [afterSep] tells that the last character was a
    separator; a separator at either end of the input gives an empty piece
    there. *)
Fixpoint splitOnRuns (isSep : ascii -> bool) (s cur : string) (afterSep : bool)
    : list string :=
  match s with
  | EmptyString => [cur]
  | String c r =>
      if isSep c then
        if afterSep then splitOnRuns isSep r "" true
        else cur :: splitOnRuns isSep r "" true
      else splitOnRuns isSep r (cur +:+ String c EmptyString) false
  end.

Definition parseKeys (input : string) : list string :=
  filter (fun k => 20 < String.length k)
         (trim <$> splitOnRuns isKeySeparator input "" false).

(** [handleConnectApi] on the text of the input field. *)
Definition handleConnectApi (input : string) (s : Engine) : Engine :=
  let keys := parseKeys input in
  if 0 <? length keys then
    {| queue := queue s; visited := visited s; nodes := nodes s; isRunning := isRunning s;
       apiKeys := keys; currentKeyIndex := 0; isApiConnected := true;
       crawlStatus := crawlStatus s; stats := stats s; reports := reports s;
       task := task s |}
  else s.

Definition handleDisconnectApi (s : Engine) : Engine :=
  let s' :=
    {| queue := queue s; visited := visited s; nodes := nodes s; isRunning := isRunning s;
       apiKeys := []; currentKeyIndex := currentKeyIndex s; isApiConnected := false;
       crawlStatus := crawlStatus s; stats := stats s; reports := reports s;
       task := task s |} in
  if bool_decide (crawlStatus s = RUNNING) then stopCrawl s' else s'.

(** No character of the string is a separator. *)
Fixpoint separatorFree (s : string) : bool :=
  match s with
  | EmptyString => true
  | String c r => negb (isKeySeparator c) && separatorFree r
  end.

(** [l.join(sep)] on strings. *)
Fixpoint joinWith (sep : string) (l : list string) : string :=
  match l with
  | [] => ""
  | x :: rest =>
      match rest with
      | [] => x
      | _ => x +:+ sep +:+ joinWith sep rest
      end
  end.

(** The state of the component when it is mounted. *)
Definition mountedEngine : Engine :=
  {| queue := []; visited := ∅; nodes := []; isRunning := false; apiKeys := [];
     currentKeyIndex := 0; isApiConnected := false; crawlStatus := IDLE;
     stats := mkStats 0 0 0 0 0 0 "" 0; reports := []; task := NoTask |}.

(** ** Measures of one call of [fetchPageLinks] *)

Definition isRequest (ev : Event) : bool :=
  match ev with
  | Request _ _ => true
  | Sleep _ => false
  end.

(** The calls of [generateContent] among the events. *)
Definition requestCount (evs : list Event) : nat :=
  length (List.filter isRequest evs).

(** The time spent in [setTimeout] waits, in milliseconds. *)
Definition sleepTotal (evs : list Event) : Z :=
  foldr (fun ev acc => match ev with
                       | Sleep ms => (ms + acc)%Z
                       | Request _ _ => acc
                       end) 0%Z evs.

(** A request goes to a key of [lo, hi) and is one of three attempts; a wait
    is a cooldown of 10 s or a backoff of 2 s or 4 s. *)
Definition boundedEvent (lo hi : nat) (ev : Event) : Prop :=
  match ev with
  | Request keyIdx attempt => lo <= keyIdx < hi /\ attempt < 3
  | Sleep ms => ms = 10000%Z \/ ms = 2000%Z \/ ms = 4000%Z
  end.

(** An oracle that rejects the key [k-bad] with a quota signal and answers
    every other key with the two links. *)
Definition pickyPlatform : Platform nat :=
  scripted (fun _ apiKey _ =>
              if String.eqb apiKey "k-bad" then Rejected quotaError
              else Resolved (Some (stringify twoLinks)))
           [twoLinks].

(** No character of the string is a backtick. *)
Fixpoint noBacktick (s : string) : bool :=
  match s with
  | EmptyString => true
  | String c r => negb (Ascii.eqb c "`") && noBacktick r
  end.

(** ** App.tsx: the views of the node list *)

(** [node.status.startsWith(p)]: only a string has the method. *)
Definition statusStartsWith (p : string) (node : LinkNode) : option bool :=
  match status node with
  | JStr st => Some (startsWith p st)
  | _ => None
  end.

Definition matchesSearch (searchTerm : string) (node : LinkNode) : bool :=
  includes (toLowerCase searchTerm) (toLowerCase (url node)).

(** [matchesType] in the callback of [filteredNodes]; [None] where it
    throws. *)
Definition matchesType (filterType : string) (node : LinkNode) : option bool :=
  if String.eqb filterType "all" then Some true
  else if String.eqb filterType "broken" then
    match statusStartsWith "4" node with
    | Some true => Some true
    | Some false => statusStartsWith "5" node
    | None => None
    end
  else if String.eqb filterType "assets" then Some (isResource node)
  else if String.eqb filterType "pages" then Some (negb (isResource node))
  else if String.eqb filterType "scanned" then Some (scanned node)
  else Some true.

Definition matchesFilter (filterType searchTerm : string) (node : LinkNode) : option bool :=
  match matchesType filterType node with
  | Some b => Some (matchesSearch searchTerm node && b)
  | None => None
  end.

(** [l.filter(f)] for a callback that may throw. *)
Fixpoint filterNodes (f : LinkNode -> option bool) (l : list LinkNode)
    : option (list LinkNode) :=
  match l with
  | [] => Some []
  | n :: rest =>
      match f n with
      | None => None
      | Some b =>
          match filterNodes f rest with
          | None => None
          | Some kept => Some (if b then n :: kept else kept)
          end
      end
  end.

Definition filteredNodes (filterType searchTerm : string) (l : list LinkNode)
    : option (list LinkNode) :=
  filterNodes (matchesFilter filterType searchTerm) l.

(** [counts[d] = (counts[d] || 0) + 1] on the entries of [counts], kept in
    the order [Object.entries] lists integer keys: ascending. *)
Fixpoint bump (d : nat) (counts : list (nat * nat)) : list (nat * nat) :=
  match counts with
  | [] => [(d, 1)]
  | (k, c) :: rest =>
      if d =? k then (k, S c) :: rest
      else if d <? k then (d, 1) :: (k, c) :: rest
      else (k, c) :: bump d rest
  end.

Definition depthCounts (l : list LinkNode) : list (nat * nat) :=
  foldl (fun counts n => bump (depth n) counts) [] l.

Definition depthData (l : list LinkNode) : list (string * nat) :=
  (fun e => ("Lvl " +:+ pretty e.1, e.2)) <$> depthCounts l.

(** [counts[d] || 0]. *)
Fixpoint lookupCount (d : nat) (counts : list (nat * nat)) : nat :=
  match counts with
  | [] => 0
  | (k, c) :: rest => if d =? k then c else lookupCount d rest
  end.

Definition byLevel (a b : nat * nat) : Prop := a.1 < b.1.

(** The nodes of the list at depth [d]. *)
Definition nodesAt (d : nat) (l : list LinkNode) : nat :=
  length (filter (fun n => depth n = d) l).

(** ** NetworkGraph: the links *)

(** The body of [data.forEach] that builds [links]: a link is pushed when
    [parentId] is truthy and a node with that URL is found. *)
Definition graphLink (data : list LinkNode) (node : LinkNode) : option (string * string) :=
  match parentId node with
  | Some p =>
      if negb (String.eqb p "") && existsb (fun d => String.eqb (url d) p) data
      then Some (p, url node)
      else None
  | None => None
  end.

Definition graphLinks (data : list LinkNode) : list (string * string) :=
  omap (graphLink data) data.


(** ** services/gemini: the report *)

(** The numbers [analyzeOrphans] writes into its prompt.  [Math.max] of no
    depth at all is [-Infinity], here [None]. *)
Record Summary := mkSummary {
  totalNodes : nat;
  scannedCount : nat;
  resourceCount : nat;
  deepestLevel : option nat
}.

Definition summarize (l : list LinkNode) : Summary :=
  {| totalNodes := length l;
     scannedCount := length (filter (fun n => scanned n = true) l);
     resourceCount := length (filter (fun n => isResource n = true) l);
     deepestLevel := match l with
                     | [] => None
                     | _ => Some (max_list_with depth l)
                     end |}.

(** The remote model asked for a report: the prompt is a function of the
    summary alone. *)
Class Reporter (World : Type) := {
  generateReport : World -> string -> Summary -> Outcome * World
}.

(** [analyzeOrphans]: the text it resolves with, the world, and the number of
    requests it made. *)
Definition analyzeOrphans {World : Type} `{Reporter World} (apiKey : string)
    (l : list LinkNode) (w : World) : string * World * nat :=
  if String.eqb apiKey "" then ("API Key missing.", w, 0)
  else
    match generateReport w apiKey (summarize l) with
    | (Resolved (Some text), w1) =>
        (if String.eqb text "" then "Analysis failed." else text, w1, 1)
    | (Resolved None, w1) => ("Analysis failed.", w1, 1)
    | (Rejected _, w1) => ("Could not perform analysis.", w1, 1)
    end.

Definition exampleReporter : Reporter nat :=
  {| generateReport := fun w _ _ => (Resolved (Some "A shallow site."), S w) |}.

(** ** App.tsx: the log and the export *)

Definition logLimit : nat := 200.

(** The updater of [addLog]: [[entry, ...prev].slice(0, 200)]. *)
Definition addLog {A : Type} (entry : A) (prev : list A) : list A :=
  take logLimit (entry :: prev).

Definition newline : string := String (ascii_of_nat 10) EmptyString.

(** The text [Array.prototype.join] puts for an element: nothing for [null]
    and [undefined], the string itself, the decimal digits of a number (of
    the integers below 10^21), the joined elements of an array. *)
Fixpoint jsonText (j : Json) : string :=
  match j with
  | JNull => ""
  | JBool b => if b then "true" else "false"
  | JNum z => pretty z
  | JStr s => s
  | JArr l => joinWith "," (List.map jsonText l)
  | JObj _ => "[object Object]"
  end.

Definition csvHeaders : list string := ["URL"; "Type"; "Status"; "Size"; "Depth"; "Parent"].

Definition csvRow (n : LinkNode) : list string :=
  [url n; jsonText (type n); jsonText (status n);
   match size n with Some k => pretty k | None => "" end;
   pretty (depth n);
   default "" (parentId n)].

(** [csvContent] in [handleExportCSV]. *)
Definition csvContent (l : list LinkNode) : string :=
  joinWith newline (joinWith "," csvHeaders :: (joinWith "," <$> (csvRow <$> l))).

(** [s.split(c)] for a one-character separator; [cur] is the piece being
    read. *)
Fixpoint splitOn (c : ascii) (s cur : string) : list string :=
  match s with
  | EmptyString => [cur]
  | String a r =>
      if Ascii.eqb a c then cur :: splitOn c r ""
      else splitOn c r (cur +:+ String a EmptyString)
  end.

(** Reading a CSV text: the lines, each split at the commas. *)
Definition readCsv (text : string) : list (list string) :=
  (fun line => splitOn "," line "") <$> splitOn (ascii_of_nat 10) text "".

Fixpoint charFree (c : ascii) (s : string) : bool :=
  match s with
  | EmptyString => true
  | String a r => negb (Ascii.eqb a c) && charFree c r
  end.

(** The text holds no comma and no line feed. *)
Definition csvSafe (s : string) : Prop :=
  charFree "," s = true /\ charFree (ascii_of_nat 10) s = true.

(** ** Several steps in flight

    [stopCrawl] cancels neither the timer nor the step in flight, and the
    start button is live as soon as the status is not RUNNING: a crawl can
    start while a step of the stopped crawl is pending, and that step then
    writes into the refs of the new crawl.  A session keeps every pending
    callback with the configuration its closure captured; [task] of the
    engine then only says what the last call scheduled.  A resumed step is
    still taken in one piece, the oracle call with the merge, and the key
    pool events are not part of a session. *)
Inductive Pending :=
  | TimerOf (config : CrawlConfig)
  | StepOf (config : CrawlConfig) (currentNode : LinkNode).

Definition pendingOf (config : CrawlConfig) (t : Task) : list Pending :=
  match t with
  | Scheduled => [TimerOf config]
  | Awaiting currentNode => [StepOf config currentNode]
  | NoTask => []
  end.

(** [dequeued] lists the nodes taken off the frontier since the last start. *)
Record Session (World : Type) := mkSession {
  dequeued : list LinkNode;
  engine : Engine;
  world : World;
  callbacks : list Pending
}.
Arguments mkSession {World} dequeued engine world callbacks.
Arguments dequeued {World} _.
Arguments engine {World} _.
Arguments world {World} _.
Arguments callbacks {World} _.

Inductive sessionStep {World : Type} `{Platform World} : Session World -> Session World -> Prop :=
  | session_start config h s w p :
      canStart config s = true ->
      sessionStep (mkSession h s w p)
                  (mkSession (dequeuedBy config (resetCrawl config s))
                             (startRecursiveCrawl config s) w
                             (p ++ pendingOf config (task (startRecursiveCrawl config s))))
  | session_timer config h s w p1 p2 :
      sessionStep (mkSession h s w (p1 ++ TimerOf config :: p2))
                  (mkSession (h ++ dequeuedBy config s) (processQueue config s) w
                             (p1 ++ pendingOf config (task (processQueue config s)) ++ p2))
  | session_resume config currentNode h s w p1 p2 :
      sessionStep (mkSession h s w (p1 ++ StepOf config currentNode :: p2))
                  (mkSession h (resumeQueue config currentNode s w).1.1
                             (resumeQueue config currentNode s w).1.2
                             (p1 ++ TimerOf config :: p2))
  | session_stop h s w p :
      crawlStatus s = RUNNING ->
      sessionStep (mkSession h s w p) (mkSession h (stopCrawl s) w p).


(** Every character is an ASCII character. *)
Fixpoint asciiOnly (s : string) : bool :=
  match s with
  | EmptyString => true
  | String c r => (nat_of_ascii c <? 128) && asciiOnly r
  end.

(** An oracle for a site of three pages: [/] links to [/a], [/a] links to
    [/a/x], and no other page has a link. *)
Definition siteLinks (cur : string) : Json :=
  if String.eqb cur "https://example.test/" then
    JArr [linkJson "https://example.test/a" "internal"]
  else if String.eqb cur "https://example.test/a" then
    JArr [linkJson "https://example.test/a/x" "internal"]
  else JArr [].

Definition sitePlatform : Platform nat :=
  scripted (fun _ _ cur => Resolved (Some (stringify (siteLinks cur))))
           [siteLinks "https://example.test/"; siteLinks "https://example.test/a"; JArr []].

(** ** A crawl restarted while a step of the stopped crawl is pending *)

Module Restart.
#[local] Existing Instance sitePlatform.

Definition keys : list string := ["key-1"].
Definition cfg : CrawlConfig :=
  {| cfg_url := "https://example.test/"; maxDepth := 3; maxPages := 10; delay := 5000 |}.
Definition scanning (n : LinkNode) : LinkNode := setNode_status (JStr "scanning") n.
Definition seed : LinkNode := scanning (rootNode cfg).

(** The first crawl: the seed is expanded, [/a] is dequeued and awaited. *)
Definition h1 : list LinkNode := dequeuedBy cfg (resetCrawl cfg (idleEngine keys)).
Definition e1 : Engine := startRecursiveCrawl cfg (idleEngine keys).
Definition e2 : Engine := (resumeQueue cfg seed e1 0).1.1.
Definition w2 : nat := (resumeQueue cfg seed e1 0).1.2.
Definition h3 : list LinkNode := h1 ++ dequeuedBy cfg e2.
Definition e3 : Engine := processQueue cfg e2.
Definition pageA : LinkNode := scanning (default (rootNode cfg) (head (queue e2))).
(** Abort, then start again: the step of [/a] is still pending. *)
Definition e4 : Engine := stopCrawl e3.
Definition h5 : list LinkNode := dequeuedBy cfg (resetCrawl cfg e4).
Definition e5 : Engine := startRecursiveCrawl cfg e4.
(** The step of [/a] resumes in the new crawl, and its timer fires. *)
Definition e6 : Engine := (resumeQueue cfg pageA e5 w2).1.1.
Definition w6 : nat := (resumeQueue cfg pageA e5 w2).1.2.
Definition h7 : list LinkNode := h5 ++ dequeuedBy cfg e6.
Definition e7 : Engine := processQueue cfg e6.
Definition pageX : LinkNode := scanning (default (rootNode cfg) (head (queue e6))).
(** The seed's step of the new crawl resumes, and its timer fires. *)
Definition e8 : Engine := (resumeQueue cfg seed e7 w6).1.1.
Definition w8 : nat := (resumeQueue cfg seed e7 w6).1.2.
Definition h9 : list LinkNode := h7 ++ dequeuedBy cfg e8.
Definition e9 : Engine := processQueue cfg e8.
Definition pageA' : LinkNode := scanning (default (rootNode cfg) (head (queue e8))).

Definition S0 : Session nat := mkSession [] (idleEngine keys) 0 [].
Definition S1 : Session nat := mkSession h1 e1 0 [StepOf cfg seed].
Definition S2 : Session nat := mkSession h1 e2 w2 [TimerOf cfg].
Definition S3 : Session nat := mkSession h3 e3 w2 [StepOf cfg pageA].
Definition S4 : Session nat := mkSession h3 e4 w2 [StepOf cfg pageA].
Definition S5 : Session nat := mkSession h5 e5 w2 [StepOf cfg pageA; StepOf cfg seed].
Definition S6 : Session nat := mkSession h5 e6 w6 [TimerOf cfg; StepOf cfg seed].
Definition S7 : Session nat := mkSession h7 e7 w6 [StepOf cfg pageX; StepOf cfg seed].
Definition S8 : Session nat := mkSession h7 e8 w8 [StepOf cfg pageX; TimerOf cfg].
Definition S9 : Session nat := mkSession h9 e9 w8 [StepOf cfg pageX; StepOf cfg pageA'].

End Restart.

(** * Properties *)

Example guess_png : guessContentType "https://x.test/Logo.PNG" = ImagePng.
Proof. reflexivity. Qed.
Example guess_html : guessContentType "https://x.test/a.json/b" = TextHtml.
Proof. reflexivity. Qed.
Example clean_fence :
  trim (removeAll "```" (removeAll "```json" ("```json" +:+ " [] " +:+ "```"))) = "[]".
Proof. reflexivity. Qed.


(** ** The oracle client: retries, rotation, soft failures *)

Section ClientFacts.
Context {World : Type} `{Platform World}.
Variables (cur root : string) (d : nat).

Lemma tryBody_rejected apiKey keyIdx w e w1 :
  generateContent w apiKey cur root = (Rejected e, w1) ->
  Gemini.tryBody cur root d apiKey keyIdx w = (Throw e, w1).
Proof. intros Hg. unfold Gemini.tryBody. by rewrite Hg. Qed.

(** What one failed attempt leads to, by the kind of error and the attempt. *)
Lemma attemptLoop_throw apiKey keyIdx remaining attempt le w e w1 :
  Gemini.tryBody cur root d apiKey keyIdx w = (Throw e, w1) ->
  Gemini.attemptLoop cur root d apiKey keyIdx (S remaining) attempt le w =
    if Gemini.isQuotaError e then
      if attempt <? 2 then
        prepend [Request keyIdx attempt; Sleep 10000]
          (Gemini.attemptLoop cur root d apiKey keyIdx remaining (S attempt) (Some e) w1)
      else (Broke, Some e, w1, [Request keyIdx attempt])
    else if attempt =? 2 then (Thrown e, Some e, w1, [Request keyIdx attempt])
    else
      prepend [Request keyIdx attempt; Sleep (2000 * (Z.of_nat attempt + 1))]
        (Gemini.attemptLoop cur root d apiKey keyIdx remaining (S attempt) (Some e) w1).
Proof.
  intros Ht. cbn [Gemini.attemptLoop]. rewrite Ht.
  destruct (Gemini.isQuotaError e), (attempt <? 2), (attempt =? 2); try reflexivity;
    unfold prepend;
    by destruct (Gemini.attemptLoop _ _ _ _ _ _ _ _ _) as [[[? ?] ?] ?].
Qed.

Lemma attemptLoop_ok apiKey keyIdx remaining attempt le w r w1 :
  Gemini.tryBody cur root d apiKey keyIdx w = (Ok r, w1) ->
  Gemini.attemptLoop cur root d apiKey keyIdx (S remaining) attempt le w =
    (Returned r, le, w1, [Request keyIdx attempt]).
Proof. intros Ht. cbn [Gemini.attemptLoop]. by rewrite Ht. Qed.

Lemma keyLoop_cons apiKey rest keyIdx le w :
  Gemini.keyLoop cur root d (apiKey :: rest) keyIdx le w =
    match Gemini.attemptLoop cur root d apiKey keyIdx 3 0 le w with
    | (Returned r, le1, w1, evs) => (Returned r, le1, w1, evs)
    | (Thrown e, le1, w1, evs) => (Thrown e, le1, w1, evs)
    | (_, le1, w1, evs) => prepend evs (Gemini.keyLoop cur root d rest (S keyIdx) le1 w1)
    end.
Proof.
  cbn [Gemini.keyLoop].
  destruct (Gemini.attemptLoop _ _ _ _ _ _ _ _ _) as [[[[] ?] ?] ?]; try reflexivity;
    unfold prepend; by destruct (Gemini.keyLoop _ _ _ _ _ _ _) as [[[? ?] ?] ?].
Qed.

(** Every request of the inner loop goes to the key it was entered with. *)
Lemma attemptLoop_same_key apiKey keyIdx remaining attempt le w :
  Forall (onKey keyIdx)
         (Gemini.attemptLoop cur root d apiKey keyIdx remaining attempt le w).2.
Proof.
  revert attempt le w.
  induction remaining as [|n IH]; intros attempt le w; cbn [Gemini.attemptLoop].
  - constructor.
  - destruct (Gemini.tryBody _ _ _ _ _ _) as [[r|e] w1].
    + by repeat constructor.
    + specialize (IH (S attempt) (Some e) w1).
      destruct (Gemini.attemptLoop _ _ _ _ _ n _ _ _) as [[[x le'] w2] evs].
      destruct (Gemini.isQuotaError e), (attempt <? 2), (attempt =? 2);
        by repeat constructor.
Qed.

Section AllQuota.
Variable keys : list string.

Hypothesis Hquota : alwaysQuota cur root keys.

Lemma attemptLoop_all_quota apiKey keyIdx le w :
  apiKey ∈ keys ->
  exists e w1, Gemini.isQuotaError e = true /\
    Gemini.attemptLoop cur root d apiKey keyIdx 3 0 le w =
      (Broke, Some e, w1, threeAttempts 10000 10000 keyIdx).
Proof.
  intros Hin.
  destruct (Hquota w apiKey Hin) as (e1 & w1 & Hg1 & Hq1).
  destruct (Hquota w1 apiKey Hin) as (e2 & w2 & Hg2 & Hq2).
  destruct (Hquota w2 apiKey Hin) as (e3 & w3 & Hg3 & Hq3).
  exists e3, w3. split; [done|].
  rewrite (attemptLoop_throw _ _ _ _ _ _ _ _ (tryBody_rejected _ keyIdx _ _ _ Hg1)), Hq1.
  rewrite (attemptLoop_throw _ _ _ _ _ _ _ _ (tryBody_rejected _ keyIdx _ _ _ Hg2)), Hq2.
  rewrite (attemptLoop_throw _ _ _ _ _ _ _ _ (tryBody_rejected _ keyIdx _ _ _ Hg3)), Hq3.
  reflexivity.
Qed.

Lemma keyLoop_all_quota rest keyIdx le w :
  rest ⊆ keys ->
  exists le' w1,
    Gemini.keyLoop cur root d rest keyIdx le w =
      (Finished, le', w1,
       flat_map (threeAttempts 10000 10000) (seq keyIdx (length rest))) /\
    match rest with
    | [] => le' = le
    | _ => exists e, le' = Some e /\ Gemini.isQuotaError e = true
    end.
Proof.
  revert keyIdx le w. induction rest as [|apiKey rest IH]; intros keyIdx le w Hsub.
  - exists le, w. by split.
  - assert (Hin : apiKey ∈ keys) by (apply Hsub; left).
    assert (Hsub' : rest ⊆ keys) by (intros x Hx; apply Hsub; by right).
    destruct (attemptLoop_all_quota apiKey keyIdx le w Hin) as (e & w1 & Hq & Hloop).
    destruct (IH (S keyIdx) (Some e) w1 Hsub') as (le' & w2 & Hrest & Hle).
    exists le', w2. split.
    + rewrite keyLoop_cons, Hloop, Hrest. reflexivity.
    + destruct rest; [subst le'|]; eauto.
Qed.
End AllQuota.

End ClientFacts.

Section ClientClaims.
Context {World : Type} `{Platform World}.
Variables (cur root : string) (d : nat).

Lemma fetchPageLinks_html keys startIndex w :
  keys <> [] -> guessContentType cur = TextHtml ->
  Gemini.fetchPageLinks keys cur root d startIndex w =
    match Gemini.keyLoop cur root d (drop startIndex keys) startIndex None w with
    | (Returned r, _, w1, evs) => (Ok r, w1, evs)
    | (Thrown e, _, w1, evs) => (Throw e, w1, evs)
    | (_, Some lastError, w1, evs) => (Throw lastError, w1, evs)
    | (_, None, w1, evs) => (Ok (mkFetched [] (length keys - 1)), w1, evs)
    end.
Proof.
  intros Hne Hhtml. unfold Gemini.fetchPageLinks.
  rewrite bool_decide_eq_false_2 by done.
  by rewrite bool_decide_eq_true_2.
Qed.

(** C3. A quota signal (status or code 429, status RESOURCE_EXHAUSTED, or a
    message containing 429 or quota) on the first or second attempt makes
    the client wait 10000 ms and call the same key again; on the third
    attempt it leaves the key without waiting and the outer loop goes on
    with the next key.  When every call is answered by a quota signal, the
    call fails with a quota error after three requests to each key from the
    start index on, and no other request. *)
Theorem quota_cooldown_then_rotation :
  (forall apiKey keyIdx attempt le w e w1,
     attempt < 2 ->
     Gemini.tryBody cur root d apiKey keyIdx w = (Throw e, w1) ->
     Gemini.isQuotaError e = true ->
     Gemini.attemptLoop cur root d apiKey keyIdx (3 - attempt) attempt le w =
       prepend [Request keyIdx attempt; Sleep 10000]
         (Gemini.attemptLoop cur root d apiKey keyIdx (3 - S attempt) (S attempt) (Some e) w1))
  /\ (forall apiKey keyIdx le w e w1,
     Gemini.tryBody cur root d apiKey keyIdx w = (Throw e, w1) ->
     Gemini.isQuotaError e = true ->
     Gemini.attemptLoop cur root d apiKey keyIdx 1 2 le w =
       (Broke, Some e, w1, [Request keyIdx 2]))
  /\ (forall apiKey rest keyIdx le w le1 w1 evs,
     Gemini.attemptLoop cur root d apiKey keyIdx 3 0 le w = (Broke, le1, w1, evs) ->
     Gemini.keyLoop cur root d (apiKey :: rest) keyIdx le w =
       prepend evs (Gemini.keyLoop cur root d rest (S keyIdx) le1 w1))
  /\ (forall keys startIndex w,
     guessContentType cur = TextHtml ->
     startIndex < length keys ->
     alwaysQuota cur root keys ->
     exists e w1,
       Gemini.isQuotaError e = true /\
       Gemini.fetchPageLinks keys cur root d startIndex w =
         (Throw e, w1,
          flat_map (threeAttempts 10000 10000)
                   (seq startIndex (length keys - startIndex)))).
Proof.
  repeat split.
  - intros apiKey keyIdx attempt le w e w1 Hlt Ht Hq.
    replace (3 - attempt) with (S (3 - S attempt)) by lia.
    rewrite (attemptLoop_throw _ _ _ _ _ _ _ _ _ _ _ Ht), Hq.
    by apply Nat.ltb_lt in Hlt as ->.
  - intros apiKey keyIdx le w e w1 Ht Hq.
    by rewrite (attemptLoop_throw _ _ _ _ _ _ _ _ _ _ _ Ht), Hq.
  - intros apiKey rest keyIdx le w le1 w1 evs Hloop.
    by rewrite keyLoop_cons, Hloop.
  - intros keys startIndex w Hhtml Hlt Hquota.
    assert (Hne : keys <> []) by (intros ->; cbn in Hlt; lia).
    destruct (keyLoop_all_quota cur root d keys Hquota (drop startIndex keys)
                startIndex None w) as (le' & w1 & Hloop & Hle).
    { apply subseteq_drop. }
    rewrite length_drop in Hloop.
    destruct (drop startIndex keys) as [|k rest] eqn:Hdrop.
    { apply (f_equal length) in Hdrop. rewrite length_drop in Hdrop. cbn in Hdrop. lia. }
    destruct Hle as (e & -> & Hq). exists e, w1. split; [done|].
    by rewrite fetchPageLinks_html, Hdrop, Hloop.
Qed.

(** C4. Any other error on the first or second attempt makes the client
    wait 2000 ms times the number of the attempt (2 s, then 4 s) and call
    the same key again; on the third attempt the error leaves both loops at
    once and is what [fetchPageLinks] throws, with no request to a later
    key. *)
Theorem other_error_backoff_then_fatal :
  (forall apiKey keyIdx attempt le w e w1,
     attempt < 2 ->
     Gemini.tryBody cur root d apiKey keyIdx w = (Throw e, w1) ->
     Gemini.isQuotaError e = false ->
     Gemini.attemptLoop cur root d apiKey keyIdx (3 - attempt) attempt le w =
       prepend [Request keyIdx attempt; Sleep (2000 * (Z.of_nat attempt + 1))]
         (Gemini.attemptLoop cur root d apiKey keyIdx (3 - S attempt) (S attempt) (Some e) w1))
  /\ (forall apiKey keyIdx le w e w1,
     Gemini.tryBody cur root d apiKey keyIdx w = (Throw e, w1) ->
     Gemini.isQuotaError e = false ->
     Gemini.attemptLoop cur root d apiKey keyIdx 1 2 le w =
       (Thrown e, Some e, w1, [Request keyIdx 2]))
  /\ (forall apiKey rest keyIdx le w e le1 w1 evs,
     Gemini.attemptLoop cur root d apiKey keyIdx 3 0 le w = (Thrown e, le1, w1, evs) ->
     Gemini.keyLoop cur root d (apiKey :: rest) keyIdx le w = (Thrown e, le1, w1, evs) /\
     Forall (onKey keyIdx) evs)
  /\ (forall keys startIndex w e le1 w1 evs,
     keys <> [] ->
     guessContentType cur = TextHtml ->
     Gemini.keyLoop cur root d (drop startIndex keys) startIndex None w =
       (Thrown e, le1, w1, evs) ->
     Gemini.fetchPageLinks keys cur root d startIndex w = (Throw e, w1, evs)).
Proof.
  split; [|split; [|split]].
  - intros apiKey keyIdx attempt le w e w1 Hlt Ht Hq.
    replace (3 - attempt) with (S (3 - S attempt)) by lia.
    rewrite (attemptLoop_throw _ _ _ _ _ _ _ _ _ _ _ Ht), Hq.
    assert ((attempt =? 2) = false) as -> by (apply Nat.eqb_neq; lia). done.
  - intros apiKey keyIdx le w e w1 Ht Hq.
    by rewrite (attemptLoop_throw _ _ _ _ _ _ _ _ _ _ _ Ht), Hq.
  - intros apiKey rest keyIdx le w e le1 w1 evs Hloop. split.
    + by rewrite keyLoop_cons, Hloop.
    + pose proof (attemptLoop_same_key cur root d apiKey keyIdx 3 0 le w) as Hk.
      by rewrite Hloop in Hk.
  - intros keys startIndex w e le1 w1 evs Hne Hhtml Hloop.
    by rewrite fetchPageLinks_html, Hloop.
Qed.

(** A payload that [JSON.parse] rejects, or an empty one, is a page without
    children on the key in use. *)
Lemma unparseable_payload_is_childless apiKey keyIdx w text w1 :
  generateContent w apiKey cur root = (Resolved text, w1) ->
  match text with
  | Some t => t = "" \/ JSON_parse (Gemini.cleanText t) = None
  | None => True
  end ->
  Gemini.tryBody cur root d apiKey keyIdx w = (Ok (mkFetched [] keyIdx), w1).
Proof.
  intros Hg Ht. unfold Gemini.tryBody. rewrite Hg.
  destruct text as [[|c t]|]; try done.
  destruct Ht as [? | ->]; done.
Qed.

(** A reply that is JSON but not a list fails in [rawLinks.map]; the
    [TypeError] is taken for a transient fault, retried with backoff and
    thrown after the third attempt on the first key tried. *)
Lemma non_list_payload_throws keys startIndex w :
  guessContentType cur = TextHtml ->
  startIndex < length keys ->
  alwaysNonList cur root ->
  exists e w1,
    Gemini.isQuotaError e = false /\
    Gemini.fetchPageLinks keys cur root d startIndex w =
      (Throw e, w1, threeAttempts 2000 4000 startIndex).
Proof.
  intros Hhtml Hlt Hnon.
  assert (Hne : keys <> []) by (intros ->; cbn in Hlt; lia).
  assert (Htry : forall apiKey keyIdx w0, exists e w1,
            Gemini.isQuotaError e = false /\
            Gemini.tryBody cur root d apiKey keyIdx w0 = (Throw e, w1)).
  { intros apiKey keyIdx w0.
    destruct (Hnon w0 apiKey) as (t & w1 & raw & Hg & Ht & Hp & Hraw).
    unfold Gemini.tryBody. rewrite Hg. destruct t as [|c t]; [done|]. rewrite Hp.
    destruct raw; cbn; try (eexists _, _; split; [|reflexivity]; reflexivity).
    by destruct (Hraw l). }
  destruct (drop startIndex keys) as [|apiKey rest] eqn:Hdrop.
  { apply (f_equal length) in Hdrop. rewrite length_drop in Hdrop. cbn in Hdrop. lia. }
  destruct (Htry apiKey startIndex w) as (e1 & w1 & Hq1 & Ht1).
  destruct (Htry apiKey startIndex w1) as (e2 & w2 & Hq2 & Ht2).
  destruct (Htry apiKey startIndex w2) as (e3 & w3 & Hq3 & Ht3).
  exists e3, w3. split; [done|].
  rewrite fetchPageLinks_html, Hdrop, keyLoop_cons by done.
  rewrite (attemptLoop_throw _ _ _ _ _ _ _ _ _ _ _ Ht1), Hq1.
  rewrite (attemptLoop_throw _ _ _ _ _ _ _ _ _ _ _ Ht2), Hq2.
  rewrite (attemptLoop_throw _ _ _ _ _ _ _ _ _ _ _ Ht3), Hq3.
  reflexivity.
Qed.

(** C10, as amended. With a non-empty pool and a start index past its end no
    request is made and the call succeeds without children; the index it
    reports is the last of the pool when the page classifies as HTML, and
    the start index itself when the page is a resource. *)
Theorem start_index_past_pool keys startIndex w :
  keys <> [] ->
  length keys <= startIndex ->
  Gemini.fetchPageLinks keys cur root d startIndex w =
    (Ok (mkFetched [] (if bool_decide (guessContentType cur = TextHtml)
                       then length keys - 1 else startIndex)), w, []).
Proof.
  intros Hne Hge. unfold Gemini.fetchPageLinks.
  rewrite bool_decide_eq_false_2 by done.
  case_bool_decide; cbn [negb]; [|done].
  by rewrite drop_ge.
Qed.

(** The resource short cut: a page that does not classify as HTML has no
    children, and the oracle is not called. *)
Lemma fetchPageLinks_resource keys startIndex w :
  keys <> [] ->
  guessContentType cur <> TextHtml ->
  Gemini.fetchPageLinks keys cur root d startIndex w =
    (Ok (mkFetched [] startIndex), w, []).
Proof.
  intros Hne Hres. unfold Gemini.fetchPageLinks.
  rewrite bool_decide_eq_false_2 by done.
  by rewrite bool_decide_eq_false_2.
Qed.

End ClientClaims.

(** *** The client on scripted oracles *)

Lemma quota_cooldown_then_rotation_witness :
  let P := quotaPlatform in
  let u := "https://example.test/" in
  @Gemini.attemptLoop nat P u u 0 "k1" 0 3 0 None 0 =
    prepend [Request 0 0; Sleep 10000]
      (@Gemini.attemptLoop nat P u u 0 "k1" 0 2 1 (Some quotaError) 1)
  /\ @Gemini.attemptLoop nat P u u 0 "k1" 0 1 2 None 2 =
       (Broke, Some quotaError, 3, [Request 0 2])
  /\ @Gemini.keyLoop nat P u u 0 ["k1"; "k2"] 0 None 0 =
       prepend (threeAttempts 10000 10000 0)
         (@Gemini.keyLoop nat P u u 0 ["k2"] 1 (Some quotaError) 3)
  /\ exists e w1,
       Gemini.isQuotaError e = true /\
       @Gemini.fetchPageLinks nat P ["k1"; "k2"] u u 0 0 0 =
         (Throw e, w1, threeAttempts 10000 10000 0 ++ threeAttempts 10000 10000 1).
Proof.
  intros P u.
  destruct (@quota_cooldown_then_rotation nat P u u 0) as (H1 & H2 & H3 & H4).
  split; [|split; [|split]].
  - apply (H1 "k1" 0 0 None 0 quotaError 1); [lia | reflexivity | reflexivity].
  - apply (H2 "k1" 0 None 2 quotaError 3); reflexivity.
  - apply (H3 "k1" ["k2"] 0 None 0 (Some quotaError) 3). reflexivity.
  - apply (H4 ["k1"; "k2"] 0 0); [reflexivity | cbn; lia |].
    intros w apiKey _. exists quotaError, (S w). split; reflexivity.
Defined.

Lemma other_error_backoff_then_fatal_witness :
  let P := faultyPlatform in
  let u := "https://example.test/" in
  @Gemini.attemptLoop nat P u u 0 "k1" 0 2 1 None 1 =
    prepend [Request 0 1; Sleep 4000]
      (@Gemini.attemptLoop nat P u u 0 "k1" 0 1 2 (Some serverError) 2)
  /\ @Gemini.attemptLoop nat P u u 0 "k1" 0 1 2 None 2 =
       (Thrown serverError, Some serverError, 3, [Request 0 2])
  /\ (@Gemini.keyLoop nat P u u 0 ["k1"; "k2"] 0 None 0 =
        (Thrown serverError, Some serverError, 3, threeAttempts 2000 4000 0) /\
      Forall (onKey 0) (threeAttempts 2000 4000 0))
  /\ @Gemini.fetchPageLinks nat P ["k1"; "k2"] u u 0 0 0 =
       (Throw serverError, 3, threeAttempts 2000 4000 0).
Proof.
  intros P u.
  destruct (@other_error_backoff_then_fatal nat P u u 0) as (H1 & H2 & H3 & H4).
  split; [|split; [|split]].
  - apply (H1 "k1" 0 1 None 1 serverError 2); [lia | reflexivity | reflexivity].
  - apply (H2 "k1" 0 None 2 serverError 3); reflexivity.
  - apply (H3 "k1" ["k2"] 0 None 0 serverError (Some serverError) 3). reflexivity.
  - apply (H4 ["k1"; "k2"] 0 0 serverError (Some serverError) 3);
      [discriminate | reflexivity | reflexivity].
Defined.

(** C9 at a payload that is JSON but not a list: the empty object.  Each
    attempt parses it, fails in [rawLinks.map], and is retried as a transient
    fault; the third failure is thrown to the caller. *)
Theorem object_payload_is_fatal :
  @Gemini.fetchPageLinks nat objectPlatform ["k1"; "k2"]
     "https://example.test/" "https://example.test/" 0 0 0 =
    (Throw (TypeError "rawLinks.map is not a function"), 3, threeAttempts 2000 4000 0).
Proof. reflexivity. Qed.

(** The sibling path: text that is not JSON at all gives a childless page on
    the first request. *)
Example garbage_payload_is_childless :
  @Gemini.fetchPageLinks nat garbagePlatform ["k1"; "k2"]
     "https://example.test/" "https://example.test/" 0 0 0 =
    (Ok (mkFetched [] 0), 1, [Request 0 0]).
Proof. reflexivity. Qed.

Lemma start_index_past_pool_witness :
  @Gemini.fetchPageLinks nat examplePlatform ["k1"; "k2"]
     "https://example.test/" "https://example.test/" 0 2 0 = (Ok (mkFetched [] 1), 0, [])
  /\ @Gemini.fetchPageLinks nat examplePlatform ["k1"; "k2"]
     "https://example.test/logo.png" "https://example.test/" 1 5 0 = (Ok (mkFetched [] 5), 0, []).
Proof.
  split.
  - apply (@start_index_past_pool nat examplePlatform); [discriminate | cbn; lia].
  - apply (@start_index_past_pool nat examplePlatform); [discriminate | cbn; lia].
Defined.

(** C10 as stated fails on a resource page: the index reported is the start
    index, not the last index of the pool. *)
Lemma start_index_past_pool_counterexample :
  exists r w evs,
    @Gemini.fetchPageLinks nat examplePlatform ["k1"; "k2"]
       "https://example.test/logo.png" "https://example.test/" 1 5 0 = (Ok r, w, evs) /\
    usedKeyIndex r <> length ["k1"; "k2"] - 1.
Proof. eexists _, _, _. split; [reflexivity|]. cbn. lia. Qed.

(** ** The node list and the merge loop *)

Lemma findIndex_Some i l k :
  findIndex i l = Some k -> exists n, l !! k = Some n /\ id n = i.
Proof.
  revert k. induction l as [|n l IH]; intros k; cbn; [done|].
  destruct (String.eqb_spec (id n) i) as [Heq|Hne].
  - intros [= <-]. by exists n.
  - destruct (findIndex i l) as [k'|]; cbn; [|done].
    intros [= <-]. by apply IH.
Qed.

Lemma findIndex_None i l :
  findIndex i l = None -> forall n, n ∈ l -> id n <> i.
Proof.
  induction l as [|n l IH]; cbn; [by intros _ ? ?%elem_of_nil|].
  destruct (String.eqb_spec (id n) i) as [Heq|Hne]; [done|].
  destruct (findIndex i l) as [k'|]; cbn; [done|].
  intros _ x [->|Hx]%elem_of_cons; [done|by apply IH].
Qed.

Lemma updateNodes_cases u l :
  (updateNodes u l = l /\ forall n, n ∈ l -> id n <> id u) \/
  (exists k n, l !! k = Some n /\ id n = id u /\ updateNodes u l = <[k := u]> l).
Proof.
  unfold updateNodes. destruct (findIndex (id u) l) as [k|] eqn:Hf.
  - right. destruct (findIndex_Some _ _ _ Hf) as (n & Hn & Hid). by exists k, n.
  - left. split; [done|]. by apply findIndex_None.
Qed.

Lemma updateNodes_length u l : length (updateNodes u l) = length l.
Proof.
  destruct (updateNodes_cases u l) as [[-> _]|(k & n & _ & _ & ->)]; [done|].
  apply length_insert.
Qed.

(** A projection that agrees on the old and the new entry is not changed by
    the update. *)
Lemma updateNodes_fmap {B} (f : LinkNode -> B) u l :
  (forall n, n ∈ l -> id n = id u -> f n = f u) ->
  f <$> updateNodes u l = f <$> l.
Proof.
  intros Hf.
  destruct (updateNodes_cases u l) as [[-> _]|(k & n & Hk & Hid & ->)]; [done|].
  rewrite list_fmap_insert.
  apply list_insert_id. rewrite list_lookup_fmap, Hk. cbn. f_equal.
  apply Hf; [|done]. by eapply list_elem_of_lookup_2.
Qed.

Lemma updateNodes_elem u l n :
  n ∈ updateNodes u l -> n ∈ l \/ n = u.
Proof.
  destruct (updateNodes_cases u l) as [[-> _]|(k & m & Hk & Hid & ->)]; [by left|].
  intros (j & Hj)%list_elem_of_lookup_1.
  destruct (decide (k = j)) as [->|Hne].
  - rewrite list_lookup_insert_eq in Hj by (by eapply lookup_lt_Some).
    right. congruence.
  - rewrite list_lookup_insert_ne in Hj by done. left. by eapply list_elem_of_lookup_2.
Qed.

Lemma mergedWith_nil s : mergedWith [] s s.
Proof.
  unfold mergedWith. rewrite !app_nil_r. cbn.
  split; [done|]. split; [done|]. split.
  { intros x. split; [by left|]. by intros [?|?%elem_of_nil]. }
  split; [constructor|]. split; [by intros ? ?%elem_of_nil|done].
Qed.

Lemma mergedWith_cons child added s s' :
  url child ∉ visited s ->
  mergedWith added (recordChild child s) s' ->
  mergedWith (child :: added) s s'.
Proof.
  intros Hvis (Hn & Hq & Hv & Hnd & Hfresh & Hst & Ht & Hc & Hr & Hk & Hi & Hrep).
  cbn in *. unfold mergedWith.
  split; [by rewrite Hn, <- app_assoc|].
  split.
  { rewrite Hq, filter_cons. destruct (isInternalHtml child) eqn:Hh.
    - rewrite decide_True by done. by rewrite <- app_assoc.
    - by rewrite decide_False by done. }
  split.
  { intros x. rewrite Hv. cbn.
    rewrite elem_of_cons, elem_of_union, elem_of_singleton. tauto. }
  split.
  { cbn. constructor; [|done]. intros (n & Hu & Hin)%list_elem_of_fmap.
    apply (Hfresh n Hin). rewrite <- Hu. by apply elem_of_union_l, elem_of_singleton. }
  split.
  { intros n [->|Hin]%elem_of_cons; [done|].
    intros Hx. apply (Hfresh n Hin). by apply elem_of_union_r. }
  done.
Qed.

Lemma mergeChildren_spec children s s' err :
  mergeChildren children s = (s', err) ->
  exists added, added `sublist_of` children /\ mergedWith added s s'.
Proof.
  revert s. induction children as [|child rest IH]; intros s; cbn.
  - intros [= <- <-]. exists []. split; [constructor|apply mergedWith_nil].
  - unfold admitChild. case_bool_decide as Hvis.
    + intros (added & Hsub & ?)%IH. exists added. split; [by constructor|done].
    + destruct (status child);
        try (intros [= <- <-]; exists [child]; split;
             [ constructor; apply sublist_nil_l
             | apply mergedWith_cons; [done|apply mergedWith_nil] ]).
      intros (added & Hsub & Hm)%IH. exists (child :: added).
      split; [by constructor|by apply mergedWith_cons].
Qed.

(** With string statuses throughout, the merge loop does not throw. *)
Lemma mergeChildren_no_throw children s :
  Forall (fun n => exists st, status n = JStr st) children ->
  (mergeChildren children s).2 = None.
Proof.
  intros Hs. revert s. induction Hs as [|child rest (st & Hst) _ IH]; intros s; cbn; [done|].
  unfold admitChild. case_bool_decide; [apply IH|]. rewrite Hst. apply IH.
Qed.

(** ** Where the children of a successful call come from *)

Section Replies.
Context {World : Type} `{Platform World}.
Variables (cur root : string) (d : nat).

Lemma toLinkNode_Ok link w n w1 :
  Gemini.toLinkNode cur d link w = (Ok n, w1) ->
  childOf cur d n /\ status n = statusOf link.
Proof.
  unfold Gemini.toLinkNode.
  destruct (getProp link "url") as [u|e]; [|done].
  destruct (guessContentTypeOf u) as [ct|e] eqn:Hct; [|done].
  destruct (randomBelow w 100) as [r1 w2], (randomBelow w2 200) as [r2 w3].
  intros [= <- <-]. unfold childOf. cbn.
  repeat split.
  destruct u as [[]|]; cbn in Hct; congruence.
Qed.

Lemma mapLinks_Ok raw w ls w1 :
  Gemini.mapLinks cur d raw w = (Ok ls, w1) ->
  Forall2 (fun link n => childOf cur d n /\ status n = statusOf link) raw ls.
Proof.
  revert w ls. induction raw as [|link raw IH]; intros w ls; cbn.
  - intros [= <- <-]. constructor.
  - destruct (Gemini.toLinkNode cur d link w) as [[n|e] w2] eqn:Hn; [|done].
    destruct (Gemini.mapLinks cur d raw w2) as [[ns|e] w3] eqn:Hns; [|done].
    intros [= <- <-]. constructor; [by eapply toLinkNode_Ok|by eapply IH].
Qed.

Lemma tryBody_Ok apiKey keyIdx w r w1 :
  Gemini.tryBody cur root d apiKey keyIdx w = (Ok r, w1) ->
  fromReply cur root d (links r) /\ usedKeyIndex r = keyIdx.
Proof.
  unfold Gemini.tryBody.
  destruct (generateContent w apiKey cur root) as [[[[|c t]|]|e] w2] eqn:Hg;
    try (intros [= <- <-]; split; [by left|done]); [|done].
  destruct (JSON_parse _) as [raw|] eqn:Hp;
    [|intros [= <- <-]; split; [by left|done]].
  destruct raw as [| | | |raw|]; cbn; try done.
  destruct (Gemini.mapLinks cur d raw w2) as [[ls|e] w3] eqn:Hm; [|done].
  intros [= <- <-]. split; [|done]. right. by exists w, apiKey, (String c t), w2, raw, w3.
Qed.

Lemma attemptLoop_Returned apiKey keyIdx remaining attempt le w r le1 w1 evs :
  Gemini.attemptLoop cur root d apiKey keyIdx remaining attempt le w =
    (Returned r, le1, w1, evs) ->
  fromReply cur root d (links r) /\ usedKeyIndex r = keyIdx.
Proof.
  revert attempt le w evs.
  induction remaining as [|n IH]; intros attempt le w evs; cbn [Gemini.attemptLoop]; [done|].
  destruct (Gemini.tryBody _ _ _ _ _ _) as [[r'|e] w2] eqn:Ht.
  - intros [= <- <- <- <-]. by eapply tryBody_Ok.
  - pose proof (IH (S attempt) (Some e) w2) as IH'.
    destruct (Gemini.attemptLoop _ _ _ _ _ n _ _ _) as [[[x le'] w3] evs'].
    destruct (Gemini.isQuotaError e), (attempt <? 2), (attempt =? 2);
      try done; intros [= -> <- <- <-]; by eapply IH'.
Qed.

Lemma keyLoop_Returned rest keyIdx le w r le1 w1 evs :
  Gemini.keyLoop cur root d rest keyIdx le w = (Returned r, le1, w1, evs) ->
  fromReply cur root d (links r) /\ keyIdx <= usedKeyIndex r < keyIdx + length rest.
Proof.
  revert keyIdx le w evs.
  induction rest as [|apiKey rest IH]; intros keyIdx le w evs; [done|].
  rewrite keyLoop_cons.
  destruct (Gemini.attemptLoop _ _ _ _ _ _ _ _ _) as [[[x le2] w2] evs2] eqn:Ha.
  pose proof (IH (S keyIdx) le2 w2) as IH'.
  destruct (Gemini.keyLoop _ _ _ rest _ _ _) as [[[y le3] w3] evs3].
  destruct x; cbn.
  - intros [= <- <- <- <-].
    destruct (attemptLoop_Returned _ _ _ _ _ _ _ _ _ _ Ha) as [? ->]. split; [done|lia].
  - done.
  - intros [= -> <- <- <-]. destruct (IH' _ eq_refl) as [? ?]. split; [done|lia].
  - intros [= -> <- <- <-]. destruct (IH' _ eq_refl) as [? ?]. split; [done|lia].
Qed.

(** A successful call gives no children or those of one reply. *)
Lemma fetchPageLinks_Ok keys startIndex w r w1 evs :
  Gemini.fetchPageLinks keys cur root d startIndex w = (Ok r, w1, evs) ->
  fromReply cur root d (links r).
Proof.
  unfold Gemini.fetchPageLinks.
  case_bool_decide; [done|].
  case_bool_decide; cbn [negb]; [|intros [= <- <- <-]; by left].
  destruct (Gemini.keyLoop _ _ _ _ _ _ _) as [[[x le] w2] evs2] eqn:Hk.
  destruct x; [| done | |].
  - intros [= <- <- <-]. by eapply keyLoop_Returned.
  - destruct le; [done|]. intros [= <- <- <-]. by left.
  - destruct le; [done|]. intros [= <- <- <-]. by left.
Qed.

Lemma fromReply_childOf ls : fromReply cur root d ls -> Forall (childOf cur d) ls.
Proof.
  intros [->|(w & apiKey & t & w1 & raw & w2 & _ & _ & Hm)]; [constructor|].
  apply mapLinks_Ok in Hm. induction Hm as [|???? [? _]]; by constructor.
Qed.

Lemma fetchPageLinks_childOf keys startIndex w r w1 evs :
  Gemini.fetchPageLinks keys cur root d startIndex w = (Ok r, w1, evs) ->
  Forall (childOf cur d) (links r).
Proof. intros Hf. by eapply fromReply_childOf, fetchPageLinks_Ok. Qed.

End Replies.

Section ReplyBounds.
Context {World : Type} `{Platform World}.

Lemma fetchPageLinks_fanout k keys cur root d startIndex w r w1 evs :
  fanout k ->
  Gemini.fetchPageLinks keys cur root d startIndex w = (Ok r, w1, evs) ->
  length (links r) <= k.
Proof.
  intros Hk Hf.
  destruct (fetchPageLinks_Ok _ _ _ _ _ _ _ _ _ Hf)
    as [->|(w0 & apiKey & t & w2 & raw & w3 & Hg & Hp & Hm)]; [cbn; lia|].
  apply mapLinks_Ok, Forall2_length in Hm. rewrite <- Hm. by eapply Hk.
Qed.

Lemma fetchPageLinks_statuses keys cur root d startIndex w r w1 evs :
  stringStatuses ->
  Gemini.fetchPageLinks keys cur root d startIndex w = (Ok r, w1, evs) ->
  Forall (fun n => exists st, status n = JStr st) (links r).
Proof.
  intros Hs Hf.
  destruct (fetchPageLinks_Ok _ _ _ _ _ _ _ _ _ Hf)
    as [->|(w0 & apiKey & t & w2 & raw & w3 & Hg & Hp & Hm)]; [constructor|].
  specialize (Hs _ _ _ _ _ _ _ Hg Hp). apply mapLinks_Ok in Hm.
  clear Hf Hg Hp. revert Hs.
  induction Hm as [|link n raw' ls [_ Hst] _ IH]; intros Hs; [constructor|].
  inversion Hs as [|? ? (st & Hlink) Hrest]; subst.
  constructor; [exists st; congruence|by apply IH].
Qed.
End ReplyBounds.

(** ** The steps of the crawl loop *)

Section Steps.
Context {World : Type} `{Platform World}.
Variable config : CrawlConfig.

Lemma terminates_false s :
  terminates config s = false ->
  isRunning s = true /\ length (nodes s) < maxPages config /\
  exists c rest, queue s = c :: rest.
Proof.
  unfold terminates. intros Ht.
  apply orb_false_iff in Ht as [Ht Hp]. apply orb_false_iff in Ht as [Hr Hq].
  apply negb_false_iff in Hr. apply Nat.leb_gt in Hp. apply Nat.eqb_neq in Hq.
  split; [done|]. split; [done|].
  destruct (queue s) as [|c rest]; [done|]. by exists c, rest.
Qed.

(** A step that stops the run. *)
Lemma processQueue_finish s :
  terminates config s = true ->
  processQueue config s = finishCrawl s /\ dequeuedBy config s = [].
Proof. intros Ht. unfold processQueue, dequeuedBy. by rewrite Ht. Qed.

(** A step that takes the head [c] off the frontier: it is skipped at the
    depth limit, and otherwise marked as scanning and awaited. *)
Lemma processQueue_dequeue s :
  terminates config s = false ->
  exists c rest,
    let s' := processQueue config s in
    queue s = c :: rest /\ dequeuedBy config s = [c] /\
    queue s' = rest /\ visited s' = visited s /\ isRunning s' = isRunning s /\
    crawlStatus s' = crawlStatus s /\ apiKeys s' = apiKeys s /\
    currentKeyIndex s' = currentKeyIndex s /\ reports s' = reports s /\
    totalLinks (stats s') = totalLinks (stats s) /\
    scannedPages (stats s') = scannedPages (stats s) /\
    queuedPages (stats s') = length rest /\
    errors (stats s') = errors (stats s) /\
    assetsFound (stats s') = assetsFound (stats s) /\
    totalSizeKB (stats s') = totalSizeKB (stats s) /\
    depthReached (stats s') = depthReached (stats s) /\
    ((maxDepth config <= depth c /\ task s' = Scheduled /\ nodes s' = nodes s) \/
     (depth c < maxDepth config /\
      task s' = Awaiting (setNode_status (JStr "scanning") c) /\
      nodes s' = updateNodes (setNode_status (JStr "scanning") c) (nodes s))).
Proof.
  intros Ht. destruct (terminates_false s Ht) as (_ & _ & c & rest & Hq).
  exists c, rest. unfold processQueue, dequeuedBy. rewrite Ht, Hq.
  destruct (maxDepth config <=? depth c) eqn:Hd; cbn.
  - apply Nat.leb_le in Hd. repeat split; try done. by left.
  - apply Nat.leb_gt in Hd. repeat split; try done. by right.
Qed.

(** A resumed step: the nodes [added] by the merge, the entry of the
    current node rewritten, the next step scheduled. *)
Lemma resumeQueue_spec c s w :
  exists added c',
    let s' := (resumeQueue config c s w).1.1 in
    nodes s' = updateNodes c' (nodes s ++ added) /\
    queue s' = queue s ++ filter (fun n => isInternalHtml n = true) added /\
    (forall x, x ∈ visited s' <-> x ∈ visited s \/ x ∈ url <$> added) /\
    NoDup (url <$> added) /\
    (forall n, n ∈ added -> url n ∉ visited s) /\
    Forall (childOf (url c) (depth c)) added /\
    task s' = Scheduled /\ crawlStatus s' = crawlStatus s /\
    isRunning s' = isRunning s /\ apiKeys s' = apiKeys s /\ reports s' = reports s /\
    restatus c c' /\
    ((scanned c' = true /\
      exists r w1 evs,
        Gemini.fetchPageLinks (apiKeys s) (url c) (cfg_url config) (depth c)
                              (currentKeyIndex s) w = (Ok r, w1, evs) /\
        (mergeChildren (links r)
           (if bool_decide (usedKeyIndex r = currentKeyIndex s) then s
            else withKeyIndex (usedKeyIndex r) s)).2 = None /\
        added `sublist_of` links r /\
        stats s' = default (stats s)
                     (statsUpdater (nodes s') (queue s') c' (links r) (stats s))) \/
     (scanned c' = scanned c /\ stats s' = stats s /\
      (added = [] \/
       exists r w1 evs,
         Gemini.fetchPageLinks (apiKeys s) (url c) (cfg_url config) (depth c)
                               (currentKeyIndex s) w = (Ok r, w1, evs) /\
         (mergeChildren (links r)
            (if bool_decide (usedKeyIndex r = currentKeyIndex s) then s
             else withKeyIndex (usedKeyIndex r) s)).2 <> None))) /\
    added `sublist_of` fetchedChildren config c s w.
Proof.
  unfold resumeQueue, fetchedChildren.
  destruct (Gemini.fetchPageLinks _ _ _ _ _ _) as [[[r|e] w1] evs] eqn:Hf; cbn [fst snd].
  - set (s1 := if bool_decide _ then s else _).
    assert (Hs1 : nodes s1 = nodes s /\ queue s1 = queue s /\ visited s1 = visited s /\
                  stats s1 = stats s /\ task s1 = task s /\ crawlStatus s1 = crawlStatus s /\
                  isRunning s1 = isRunning s /\ apiKeys s1 = apiKeys s /\
                  reports s1 = reports s).
    { unfold s1. by case_bool_decide. }
    destruct Hs1 as (Hn1 & Hq1 & Hv1 & Hst1 & Ht1 & Hc1 & Hr1 & Hk1 & Hrep1).
    destruct (mergeChildren (links r) s1) as [s2 err] eqn:Hm.
    destruct (mergeChildren_spec _ _ _ _ Hm)
      as (added & Hsub & Hn & Hq & Hv & Hnd & Hfresh & Hst & Ht & Hc & Hr & Hk & _ & Hrep).
    assert (Hch : Forall (childOf (url c) (depth c)) added).
    { pose proof (fetchPageLinks_childOf _ _ _ _ _ _ _ _ _ Hf) as Hall.
      rewrite Forall_forall in Hall |- *. intros n Hin. apply Hall.
      by eapply sublist_subseteq. }
    rewrite Hn1 in Hn. rewrite Hq1 in Hq. rewrite Hv1 in Hfresh.
    destruct err as [err|].
    + exists added, (setNode_status (JStr (failedStatus err)) c). cbn.
      rewrite Hn, Hq.
      repeat split; try done; try congruence.
      * intros Hx. apply Hv in Hx. by rewrite Hv1 in Hx.
      * intros Hx. apply Hv. by rewrite Hv1.
      * by eexists.
      * right. split; [done|]. split; [congruence|]. right.
        exists r, w1, evs. fold s1. by rewrite Hm.
    + exists added, (setNode_scanned true (setNode_status (JStr "200") c)).
      unfold setStats. cbn [nodes queue updateNodeState withNodes stats].
      destruct (statsUpdater _ _ _ _ _) as [st|] eqn:Hup; cbn;
        rewrite Hn, Hq; rewrite Hn, Hq, Hst, Hst1 in Hup.
      * repeat split; try done; try congruence.
        -- intros Hx. apply Hv in Hx. by rewrite Hv1 in Hx.
        -- intros Hx. apply Hv. by rewrite Hv1.
        -- by eexists.
        -- left. split; [done|]. exists r, w1, evs. fold s1. rewrite Hm, Hup. done.
      * repeat split; try done; try congruence.
        -- intros Hx. apply Hv in Hx. by rewrite Hv1 in Hx.
        -- intros Hx. apply Hv. by rewrite Hv1.
        -- by eexists.
        -- left. split; [done|]. exists r, w1, evs. fold s1. rewrite Hm, Hup. cbn.
           repeat split; try done. congruence.
  - exists [], (setNode_status (JStr (failedStatus e)) c). cbn.
    rewrite !app_nil_r.
    repeat split; try done.
    + by left.
    + by intros [?|?%elem_of_nil].
    + constructor.
    + by intros ? ?%elem_of_nil.
    + by eexists.
    + right. split; [done|]. split; [done|]. by left.
Qed.

(** Induction over a run, through the state reset by
    [startRecursiveCrawl]. *)
Lemma run_invariant (I : list LinkNode -> Engine -> Prop) :
  (forall s0, I [] (resetCrawl config s0)) ->
  (forall h s, I h s -> (forall c, task s <> Awaiting c) ->
               I (h ++ dequeuedBy config s) (processQueue config s)) ->
  (forall h s w c, I h s -> task s = Awaiting c ->
                   I h (resumeQueue config c s w).1.1) ->
  (forall h s, I h s -> I h (stopCrawl s)) ->
  forall h s w, run config h s w -> I h s.
Proof.
  intros Hreset Htimer Hresume Hstop h s w Hrun.
  induction Hrun as [s0 w Ht Hc|h s w _ IH Ht|h s w c _ IH Ht|h s w _ IH Hc].
  - unfold startRecursiveCrawl. rewrite Hc.
    apply (Htimer [] (resetCrawl config s0)); [apply Hreset|done].
  - apply Htimer; [done|]. intros c. by rewrite Ht.
  - by apply Hresume.
  - by apply Hstop.
Qed.

End Steps.

(** ** No URL twice in the node list *)

Lemma updateNodes_keyed u l :
  id u = url u ->
  Forall (fun n => id n = url n) l ->
  Forall (fun n => id n = url n) (updateNodes u l) /\
  url <$> updateNodes u l = url <$> l.
Proof.
  intros Hu Hl. split.
  - rewrite Forall_forall in Hl |- *.
    intros n [Hn| ->]%updateNodes_elem; [by apply Hl|done].
  - apply updateNodes_fmap. intros n Hn Hid.
    rewrite Forall_forall in Hl. rewrite <- (Hl n Hn), <- Hu. done.
Qed.

Section WellFormed.
Context {World : Type} `{Platform World}.
Variable config : CrawlConfig.

Lemma wellFormed_reset s0 : wellFormed (resetCrawl config s0).
Proof.
  unfold wellFormed. cbn.
  repeat split; try (by repeat constructor).
  - apply NoDup_singleton.
  - constructor; [by apply elem_of_singleton|constructor].
Qed.

Lemma wellFormed_run h s w : run config h s w -> wellFormed s.
Proof.
  revert h s w.
  apply (run_invariant config (fun _ s => wellFormed s)).
  - apply wellFormed_reset.
  - intros h s (Hid & Hnd & Hvis & Hq & Hc) Htask.
    destruct (terminates config s) eqn:Ht.
    + destruct (processQueue_finish config s Ht) as [-> _]. by unfold wellFormed.
    + destruct (processQueue_dequeue config s Ht)
        as (c & rest & Hqs & _ & Hq' & Hv' & _ & _ & _ & _ & _ & _ & _ & _ & _ & _ & _ & _ & Hcase).
      rewrite Hqs in Hq. apply Forall_cons in Hq as [Hcid Hrest].
      unfold wellFormed. rewrite Hq', Hv'.
      destruct Hcase as [(_ & Ht' & ->)|(_ & Ht' & ->)]; rewrite Ht'.
      * done.
      * destruct (updateNodes_keyed (setNode_status (JStr "scanning") c) (nodes s))
          as [Hid' Hurl]; [done|done|].
        rewrite Hurl. repeat split; try done. by intros ? [= <-].
  - intros h s w c (Hid & Hnd & Hvis & Hq & Hc) Htask.
    destruct (resumeQueue_spec config c s w)
      as (added & c' & Hn & Hq' & Hv' & Hnd' & Hfresh & Hch & Ht' & _ & _ & _ & _ & Hre & _).
    cbn in Hn, Hq', Hv', Ht'.
    destruct Hre as (Hid' & Hurl' & _).
    assert (Hkeyed : Forall (fun n => id n = url n) added).
    { eapply Forall_impl; [exact Hch|]. by intros n (? & _). }
    destruct (updateNodes_keyed c' (nodes s ++ added)) as [Hid2 Hurl2].
    { rewrite Hid', Hurl'. by apply Hc. }
    { by apply Forall_app. }
    unfold wellFormed. rewrite Hn, Hq', Ht', Hurl2, fmap_app.
    repeat split; try done.
    + apply NoDup_app. repeat split; try done.
      intros u Hu (n & -> & Hin)%list_elem_of_fmap.
      apply (Hfresh n Hin). rewrite Forall_forall in Hvis. by apply Hvis.
    + apply Forall_app. split.
      * eapply Forall_impl; [exact Hvis|]. intros u Hu. apply Hv'. by left.
      * apply Forall_forall. intros u Hu. apply Hv'. by right.
    + apply Forall_app. split; [done|].
      apply Forall_forall. intros n [_ Hin]%list_elem_of_filter.
      rewrite Forall_forall in Hkeyed. by apply Hkeyed.
  - intros h s Hwf. by unfold wellFormed.
Qed.

(** C6. In every state of a crawl run no two nodes of the node list have
    the same URL; a child whose URL a listed node already has is skipped by
    the merge loop, which leaves the whole engine, and with it that node,
    as it was; and the merge loop only appends to the node list. *)
Theorem no_duplicate_urls h s w :
  run config h s w ->
  NoDup (url <$> nodes s) /\
  (forall n child, n ∈ nodes s -> url child = url n -> admitChild child s = (s, None)) /\
  (forall children s' err,
     mergeChildren children s = (s', err) -> nodes s `prefix_of` nodes s').
Proof.
  intros Hrun. destruct (wellFormed_run h s w Hrun) as (_ & Hnd & Hvis & _).
  split; [done|]. split.
  - intros n child Hin Hurl. unfold admitChild.
    rewrite bool_decide_eq_true_2; [done|].
    rewrite Forall_forall in Hvis. apply Hvis. rewrite Hurl.
    by apply list_elem_of_fmap_2.
  - intros children s' err (added & _ & Hn & _)%mergeChildren_spec.
    by exists added.
Qed.

End WellFormed.

(** ** The page budget *)

Section Budget.
Context {World : Type} `{Platform World}.
Variable config : CrawlConfig.
Variable k : nat.
Hypothesis Hfanout : fanout k.

Lemma fetchedChildren_fanout c s w : length (fetchedChildren config c s w) <= k.
Proof.
  unfold fetchedChildren.
  destruct (Gemini.fetchPageLinks _ _ _ _ _ _) as [[[r|e] w1] evs] eqn:Hf; cbn; [|lia].
  by eapply fetchPageLinks_fanout.
Qed.

(** C1, as amended. The budget is tested when a step begins, not while
    children are merged: in a crawl started with no step of an earlier crawl
    pending, an expansion is in flight only while the node list is shorter
    than [maxPages], and it appends at most the children of one reply.  With
    at most [k] links per reply the node list never holds more than
    [maxPages - 1 + k] nodes (or the seed alone). *)
Theorem node_budget_overshoot h s w :
  run config h s w ->
  (forall c, task s = Awaiting c -> length (nodes s) < maxPages config) /\
  length (nodes s) <= 1 `max` (maxPages config - 1 + k).
Proof.
  revert h s w.
  apply (run_invariant config (fun _ s =>
    (forall c, task s = Awaiting c -> length (nodes s) < maxPages config) /\
    length (nodes s) <= 1 `max` (maxPages config - 1 + k))).
  - intros s0. cbn. split; [done|lia].
  - intros h s [Haw Hlen] _.
    destruct (terminates config s) eqn:Ht.
    + destruct (processQueue_finish config s Ht) as [-> _]. cbn. by split.
    + destruct (terminates_false config s Ht) as (_ & Hlt & _).
      destruct (processQueue_dequeue config s Ht)
        as (c & rest & _ & _ & _ & _ & _ & _ & _ & _ & _ & _ & _ & _ & _ & _ & _ & _ & Hcase).
      destruct Hcase as [(_ & Ht' & ->)|(_ & Ht' & ->)]; rewrite Ht'.
      * by split.
      * rewrite updateNodes_length. split; [by intros _ _|done].
  - intros h s w c [Haw Hlen] Htask.
    destruct (resumeQueue_spec config c s w)
      as (added & c' & Hn & _ & _ & _ & _ & _ & Ht' & _ & _ & _ & _ & _ & _ & Hsub).
    rewrite Hn, Ht', updateNodes_length, length_app. split; [done|].
    specialize (Haw c Htask). apply sublist_length in Hsub.
    pose proof (fetchedChildren_fanout c s w). lia.
  - intros h s [Haw Hlen]. by split.
Qed.

End Budget.

(** ** Resources are leaves *)

Section Leaves.
Context {World : Type} `{Platform World}.
Variable config : CrawlConfig.

Lemma isInternalHtml_true n :
  isInternalHtml n = true -> type n = JStr "internal" /\ contentType n = TextHtml.
Proof.
  unfold isInternalHtml. intros [Ht Hc]%andb_true_iff.
  apply bool_decide_eq_true_1 in Hc. split; [|done].
  destruct (type n); try done. by apply String.eqb_eq in Ht as ->.
Qed.

(** C8. Every node that was dequeued or waits in the frontier is an internal
    HTML node, and unless it is the seed its URL classifies as HTML; a child
    whose content type is not HTML leaves the frontier as it was, whatever
    its tag; the nodes a resumed step adds to the frontier are tagged
    internal and classify as HTML by their URL; and on a page that does not
    classify as HTML the client returns no children at once, without a
    request. *)
Theorem resource_leaf_rule h s w :
  run config h s w ->
  (forall n, n ∈ h ++ queue s ->
     type n = JStr "internal" /\ contentType n = TextHtml /\
     (parentId n <> None -> guessContentType (url n) = TextHtml)) /\
  (forall child s0, contentType child <> TextHtml ->
     queue (admitChild child s0).1 = queue s0) /\
  (forall c n,
     task s = Awaiting c ->
     n ∈ queue (resumeQueue config c s w).1.1 ->
     n ∈ queue s \/ (guessContentType (url n) = TextHtml /\ type n = JStr "internal")) /\
  (forall keys cur root d startIndex w0,
     keys <> [] -> guessContentType cur <> TextHtml ->
     Gemini.fetchPageLinks keys cur root d startIndex w0 =
       (Ok (mkFetched [] startIndex), w0, [])).
Proof.
  intros Hrun. split; [|split; [|split]].
  - revert h s w Hrun.
    apply (run_invariant config (fun h s => forall n, n ∈ h ++ queue s ->
      type n = JStr "internal" /\ contentType n = TextHtml /\
      (parentId n <> None -> guessContentType (url n) = TextHtml))).
    + intros s0 n. cbn. intros ->%list_elem_of_singleton. by cbn.
    + intros h s IH _ n.
      destruct (terminates config s) eqn:Ht.
      * destruct (processQueue_finish config s Ht) as [-> ->].
        rewrite app_nil_r. apply IH.
      * destruct (processQueue_dequeue config s Ht)
          as (c & rest & Hq & -> & -> & _).
        rewrite <- app_assoc. cbn. rewrite <- Hq. apply IH.
    + intros h s w c IH Htask n.
      destruct (resumeQueue_spec config c s w)
        as (added & c' & _ & -> & _ & _ & _ & Hch & _).
      rewrite app_assoc. intros [Hin|Hin]%elem_of_app; [by apply IH|].
      apply list_elem_of_filter in Hin as [Hih Hin].
      apply isInternalHtml_true in Hih as [Hty Hct].
      rewrite Forall_forall in Hch. destruct (Hch n Hin) as (_ & _ & _ & Hg & _).
      split; [done|]. split; [done|]. intros _. congruence.
    + intros h s IH. apply IH.
  - intros child s0 Hct. unfold admitChild. case_bool_decide; [done|].
    assert (isInternalHtml child = false) as Hno.
    { unfold isInternalHtml. rewrite (bool_decide_eq_false_2 _ Hct). apply andb_false_r. }
    destruct (status child); cbn; by rewrite Hno.
  - intros c n _.
    destruct (resumeQueue_spec config c s w) as (added & c' & _ & -> & _ & _ & _ & Hch & _).
    intros [Hin|[Hih Hin]%list_elem_of_filter]%elem_of_app; [by left|right].
    apply isInternalHtml_true in Hih as [Hty Hct].
    rewrite Forall_forall in Hch. destruct (Hch n Hin) as (_ & _ & _ & Hg & _).
    split; [congruence|done].
  - intros keys cur root d startIndex w0. apply fetchPageLinks_resource.
Qed.

End Leaves.

(** ** Breadth-first order *)

Lemma sorted_same_depth l k :
  Forall (fun q => depth q = k) l -> StronglySorted depthLe l.
Proof.
  induction 1 as [|q l Hd Hl IH]; constructor; [done|].
  eapply Forall_impl; [exact Hl|]. intros y Hy. cbn in Hy. unfold depthLe. lia.
Qed.

Section BreadthFirst.
Context {World : Type} `{Platform World}.
Variable config : CrawlConfig.

Lemma bfsOrdered_idle h s :
  (forall c, task s <> Awaiting c) ->
  bfsOrdered h s ->
  forall x q, head (queue s) = Some x -> q ∈ queue s -> depth q <= depth x + 1.
Proof. intros Ht [_ Hb]. destruct (task s); [done| |done]. by destruct (Ht currentNode). Qed.

Lemma bfsOrdered_run h s w : run config h s w -> bfsOrdered h s.
Proof.
  revert h s w. apply (run_invariant config bfsOrdered).
  - intros s0. split; cbn.
    + repeat constructor.
    + intros x q [= <-] ->%list_elem_of_singleton. lia.
  - intros h s Hinv Htask.
    pose proof (bfsOrdered_idle h s Htask Hinv) as Hspan. destruct Hinv as [Hsorted _].
    destruct (terminates config s) eqn:Ht.
    + destruct (processQueue_finish config s Ht) as [-> ->].
      rewrite app_nil_r. by split.
    + destruct (processQueue_dequeue config s Ht)
        as (c & rest & Hq & -> & Hq' & _ & _ & _ & _ & _ & _ & _ & _ & _ & _ & _ & _ & _ & Hcase).
      rewrite Hq in Hsorted, Hspan.
      assert (Hsorted' : StronglySorted depthLe ((h ++ [c]) ++ rest))
        by (by rewrite <- app_assoc).
      pose proof Hsorted' as Hs.
      apply StronglySorted_app in Hs as (Hcross & _ & _).
      assert (Hc_rest : forall q, q ∈ rest -> depth c <= depth q <= depth c + 1).
      { intros q Hin. split.
        - apply (Hcross c q); [|done]. apply elem_of_app. right. by left.
        - apply (Hspan c q); [done|by right]. }
      split; [by rewrite Hq'|]. rewrite Hq'.
      destruct Hcase as [(_ & -> & _)|(_ & -> & _)].
      * intros x q Hx Hin. destruct rest as [|y rest']; [done|]. cbn in Hx.
        injection Hx as <-. pose proof (Hc_rest q Hin) as Hb1.
        assert (Hy : y ∈ y :: rest') by (by left).
        pose proof (Hc_rest y Hy) as Hb2. lia.
      * split; [|done]. intros x [Hx| ->%list_elem_of_singleton]%elem_of_app; [|done].
        apply StronglySorted_app in Hsorted as (Hcross' & _ & _).
        apply (Hcross' x c); [done|by left].
  - intros h s w c [Hsorted Hspan] Htask. rewrite Htask in Hspan.
    destruct Hspan as [Hh Hq].
    destruct (resumeQueue_spec config c s w)
      as (added & c' & _ & Hq' & _ & _ & _ & Hch & Ht' & _).
    assert (Hkids : forall q, q ∈ filter (fun n => isInternalHtml n = true) added ->
              depth q = depth c + 1).
    { intros q [_ Hin]%list_elem_of_filter. rewrite Forall_forall in Hch.
      by destruct (Hch q Hin) as (_ & ? & _). }
    split; rewrite Hq'.
    + rewrite app_assoc. apply StronglySorted_app_2; [|done|].
      * intros x q Hx Hin. unfold depthLe. rewrite (Hkids q Hin).
        apply elem_of_app in Hx as [Hx|Hx]; [pose proof (Hh x Hx); lia|].
        pose proof (Hq x Hx). lia.
      * apply (sorted_same_depth _ (depth c + 1)). by apply Forall_forall.
    + rewrite Ht'. intros x q Hx Hin.
      assert (Hlow : depth c <= depth x).
      { apply head_Some_elem_of in Hx.
        apply elem_of_app in Hx as [Hx|Hx]; [by apply Hq|]. rewrite (Hkids x Hx). lia. }
      apply elem_of_app in Hin as [Hin|Hin]; [pose proof (Hq q Hin); lia|].
      rewrite (Hkids q Hin). lia.
  - intros h s Hinv. done.
Qed.

(** X26. In a crawl started with no step of an earlier crawl pending, the
    nodes taken off the frontier, in the order they were taken, are in
    non-decreasing depth order, and so are the expanded ones among them; the
    frontier continues that order; every child the client returns for a page
    has the depth of the page plus one, and so
    has every node a resumed step adds to the frontier, relative to the node
    it expanded. *)
Theorem breadth_first_order h s w :
  run config h s w ->
  StronglySorted depthLe h /\
  StronglySorted depthLe (filter (fun n => depth n < maxDepth config) h) /\
  StronglySorted depthLe (h ++ queue s) /\
  (forall keys cur root d startIndex w0 r w1 evs,
     Gemini.fetchPageLinks keys cur root d startIndex w0 = (Ok r, w1, evs) ->
     Forall (fun n => depth n = d + 1) (links r)) /\
  (forall c n,
     task s = Awaiting c ->
     n ∈ queue (resumeQueue config c s w).1.1 ->
     n ∈ queue s \/ depth n = depth c + 1).
Proof.
  intros Hrun. destruct (bfsOrdered_run h s w Hrun) as [Hsorted _].
  assert (Hh : StronglySorted depthLe h) by (by eapply StronglySorted_app_1_l).
  split; [done|]. split; [|split; [done|split]].
  - clear -Hh. induction Hh as [|x l Hl IH Hx]; [constructor|].
    rewrite filter_cons. case_decide; [|done].
    constructor; [done|]. apply Forall_forall.
    intros y [_ Hy]%list_elem_of_filter. rewrite Forall_forall in Hx. by apply Hx.
  - intros keys cur root d startIndex w0 r w1 evs Hf.
    eapply Forall_impl; [by eapply fetchPageLinks_childOf|]. by intros n (_ & ? & _).
  - intros c n _.
    destruct (resumeQueue_spec config c s w) as (added & c' & _ & -> & _ & _ & _ & Hch & _).
    intros [Hin|[_ Hin]%list_elem_of_filter]%elem_of_app; [by left|right].
    rewrite Forall_forall in Hch. by destruct (Hch n Hin) as (_ & ? & _).
Qed.

End BreadthFirst.

(** ** The statistics against the node list *)

Lemma findIndex_app_fresh i l1 c l2 :
  (forall n, n ∈ l1 -> id n <> i) -> id c = i ->
  findIndex i (l1 ++ c :: l2) = Some (length l1).
Proof.
  intros Hfresh Hc. induction l1 as [|n l1 IH]; cbn.
  - by apply String.eqb_eq in Hc as ->.
  - assert (Hn : id n <> i) by (apply Hfresh; by left).
    apply String.eqb_neq in Hn as ->. rewrite IH; [done|].
    intros m Hm. apply Hfresh. by right.
Qed.

(** With unique ids, updating with a restatused copy of a listed node
    replaces exactly that node. *)
Lemma updateNodes_replace c c' l :
  NoDup (id <$> l) -> c ∈ l -> id c' = id c ->
  exists l1 l2, l = l1 ++ c :: l2 /\ updateNodes c' l = l1 ++ c' :: l2.
Proof.
  intros Hnd Hin Hid.
  apply list_elem_of_split in Hin as (l1 & l2 & ->).
  exists l1, l2. split; [done|]. unfold updateNodes.
  rewrite (findIndex_app_fresh (id c') l1 c l2); [|
    |done].
  - rewrite insert_app_r_alt by done. by rewrite Nat.sub_diag.
  - intros n Hn Heq. rewrite fmap_app in Hnd. apply NoDup_app in Hnd as (_ & Hdis & _).
    apply (Hdis (id n)); [by apply list_elem_of_fmap_2|].
    rewrite Heq, Hid. cbn. by left.
Qed.

Lemma sumSizes_app l1 l2 : sumSizes (l1 ++ l2) = sumSizes l1 + sumSizes l2.
Proof. apply sum_list_with_app. Qed.

Lemma sumSizes_sublist l1 l2 : l1 `sublist_of` l2 -> sumSizes l1 <= sumSizes l2.
Proof. unfold sumSizes. induction 1; cbn; lia. Qed.

Lemma foldl_sizes acc l :
  foldl (fun a c => a + sizeOr0 c) acc l = acc + sumSizes l.
Proof.
  revert acc. induction l as [|c l IH]; intros acc; cbn; [unfold sumSizes; cbn; lia|].
  rewrite IH. unfold sumSizes. cbn. lia.
Qed.

Lemma deepest_app l1 l2 : deepest (l1 ++ l2) = deepest l1 `max` deepest l2.
Proof. unfold deepest. induction l1 as [|n l1 IH]; cbn; [done|]. rewrite IH. lia. Qed.

Lemma scannedNodes_app l1 l2 : scannedNodes (l1 ++ l2) = scannedNodes l1 ++ scannedNodes l2.
Proof. apply filter_app. Qed.

Lemma scannedNodes_unscanned l :
  Forall (fun n => scanned n = false) l -> scannedNodes l = [].
Proof.
  induction 1 as [|n l Hn _ IH]; [done|].
  unfold scannedNodes. rewrite filter_cons, decide_False by congruence. apply IH.
Qed.

Lemma countErrors_strings l : Forall stringStatus l -> is_Some (countErrors l).
Proof.
  induction 1 as [|n l (st & Hst) _ [k Hk]]; cbn; [by eexists|].
  unfold statusStartsWith4. rewrite Hst, Hk. by eexists.
Qed.

Lemma scannedNodes_middle l1 x l2 :
  scannedNodes (l1 ++ x :: l2) =
    scannedNodes l1 ++ (if scanned x then [x] else []) ++ scannedNodes l2.
Proof.
  unfold scannedNodes. rewrite filter_app, filter_cons.
  destruct (scanned x); [by rewrite decide_True|by rewrite decide_False].
Qed.

(** Replacing [c] by a restatused copy keeps lengths, sizes, resources and
    the other entries. *)
Lemma replace_facts c c' l1 l2 :
  restatus c c' ->
  Forall stringStatus (l1 ++ c :: l2) ->
  Forall stringStatus (l1 ++ c' :: l2) /\
  length (l1 ++ c' :: l2) = length (l1 ++ c :: l2) /\
  sumSizes (l1 ++ c' :: l2) = sumSizes (l1 ++ c :: l2) /\
  length (resourceNodes (l1 ++ c' :: l2)) = length (resourceNodes (l1 ++ c :: l2)) /\
  (forall q, q ∈ l1 ++ c :: l2 -> q <> c -> q ∈ l1 ++ c' :: l2).
Proof.
  intros (_ & _ & _ & _ & Hty & _ & Hsz & Hst) Hl.
  apply Forall_app in Hl as [Hl1 Hl2]. apply Forall_cons in Hl2 as [_ Hl2].
  split; [apply Forall_app; split; [done|by constructor]|].
  split; [by rewrite !length_app|].
  split; [rewrite !sumSizes_app; unfold sumSizes, sizeOr0; cbn; by rewrite Hsz|].
  split.
  - unfold resourceNodes. rewrite !filter_app, !filter_cons.
    assert (Hr : isResource c' = isResource c) by (unfold isResource; by rewrite Hty).
    rewrite Hr. destruct (isResource c);
      [rewrite !decide_True by done|rewrite !decide_False by done];
      by rewrite !length_app.
  - intros q Hq Hne. rewrite elem_of_app, elem_of_cons in Hq |- *.
    destruct Hq as [?|[->|?]]; [by left|done|by right; right].
Qed.

Lemma wellFormed_ids s : wellFormed s -> id <$> nodes s = url <$> nodes s.
Proof.
  intros (Hid & _). induction Hid as [|n l Hn _ IH]; [done|]. cbn. by rewrite Hn, IH.
Qed.

Section Statistics.
Context {World : Type} `{Platform World}.
Variable config : CrawlConfig.

Lemma statsAgree_reset s0 : statsAgree (resetCrawl config s0).
Proof.
  unfold statsAgree. cbn. repeat split; try done.
  - repeat constructor. by eexists.
  - apply NoDup_singleton.
  - repeat constructor.
Qed.

Lemma statsAgree_processQueue s :
  wellFormed s -> (forall c, task s <> Awaiting c) ->
  statsAgree s -> statsAgree (processQueue config s).
Proof.
  intros Hwf Htask (Hstr & Hndq & Hq & _ & Htl & Hsp & Hdr & Hsz & Haf & Hqp).
  destruct (terminates config s) eqn:Ht.
  { destruct (processQueue_finish config s Ht) as [-> _].
    unfold statsAgree. cbn. repeat split; done. }
  destruct (processQueue_dequeue config s Ht)
    as (c & rest & Hqs & _ & Hq' & _ & _ & _ & _ & _ & _ &
        Htl' & Hsp' & Hqp' & _ & Haf' & Hsz' & Hdr' & Hcase).
  rewrite Hqs in Hndq, Hq. cbn in Hndq.
  apply NoDup_cons in Hndq as [Hcfresh Hndrest].
  apply Forall_cons in Hq as [[Hcin Hcs] Hrest].
  unfold statsAgree. rewrite Hq', Htl', Hsp', Hqp', Haf', Hsz', Hdr'.
  destruct Hcase as [(_ & -> & ->)|(_ & -> & ->)].
  { repeat split; done. }
  assert (Hre : restatus c (setNode_status (JStr "scanning") c)).
  { unfold restatus. cbn. repeat split. by eexists. }
  destruct (updateNodes_replace c (setNode_status (JStr "scanning") c) (nodes s))
    as (l1 & l2 & Hl & ->); [|done|done|].
  { rewrite (wellFormed_ids s Hwf). apply Hwf. }
  rewrite Hl in *.
  destruct (replace_facts _ _ l1 l2 Hre Hstr) as (Hstr' & Hlen & Hsum & Hres & Hkeep).
  rewrite Hlen, Hsum, Hres, !scannedNodes_middle. cbn. rewrite Hcs.
  rewrite scannedNodes_middle in Hsp, Hdr. rewrite Hcs in Hsp, Hdr.
  split; [done|]. split; [done|]. split; [|split].
  - apply Forall_forall. intros q Hqin. rewrite Forall_forall in Hrest.
    destruct (Hrest q Hqin) as [Hin Hs]. split; [|done].
    apply Hkeep; [done|]. intros ->. apply Hcfresh. by apply list_elem_of_fmap_2.
  - intros c0 [= <-]. split; [|done]. apply elem_of_app. right. by left.
  - repeat split; done.
Qed.

Lemma fetchedChildren_statuses c s w :
  stringStatuses -> Forall stringStatus (fetchedChildren config c s w).
Proof.
  intros Hss. unfold fetchedChildren.
  destruct (Gemini.fetchPageLinks _ _ _ _ _ _) as [[[r|e] w1] evs] eqn:Hf; cbn;
    [|constructor].
  by eapply fetchPageLinks_statuses.
Qed.

Lemma NoDup_fmap_filter {A B} (f : A -> B) (P : A -> Prop) `{forall x, Decision (P x)}
    (l : list A) :
  NoDup (f <$> l) -> NoDup (f <$> filter P l).
Proof.
  induction l as [|x l IH]; [done|].
  rewrite fmap_cons, NoDup_cons. intros [Hx Hl]. rewrite filter_cons.
  case_decide; [|by apply IH]. rewrite fmap_cons. constructor; [|by apply IH].
  intros (y & Hy & Hin)%list_elem_of_fmap. apply Hx.
  apply list_elem_of_filter in Hin as [_ Hin]. rewrite Hy. by apply list_elem_of_fmap_2.
Qed.

Lemma statsAgree_resume c s w :
  stringStatuses -> wellFormed s -> task s = Awaiting c ->
  statsAgree s -> statsAgree (resumeQueue config c s w).1.1.
Proof.
  intros Hss Hwf Htask (Hstr & Hndq & Hq & Haw & Htl & Hsp & Hdr & Hsz & Haf & Hqp).
  destruct (Haw c Htask) as (Hcin & Hcs & Hcfresh).
  pose proof (wellFormed_ids s Hwf) as Hids.
  destruct Hwf as (Hkey & Hnd & Hvis & _ & _).
  destruct (resumeQueue_spec config c s w)
    as (added & c' & Hn & Hq' & _ & Hnd' & Hfresh & Hch & Ht' & _ & _ & _ & _ &
        Hre & Hcase & Hsub).
  assert (Hunsc : Forall (fun n => scanned n = false) added).
  { eapply Forall_impl; [exact Hch|]. by intros n (_ & _ & _ & _ & ?). }
  assert (Hakey : id <$> added = url <$> added).
  { clear -Hch. induction Hch as [|n l (Hn & _) _ IH]; [done|]. cbn. by rewrite Hn, IH. }
  assert (Hastr : Forall stringStatus added).
  { pose proof (fetchedChildren_statuses c s w Hss) as Hall.
    rewrite Forall_forall in Hall |- *. intros n Hin. apply Hall.
    by eapply sublist_subseteq. }
  assert (Hvisited : forall q, q ∈ nodes s -> id q ∈ visited s).
  { intros q Hin. rewrite Forall_forall in Hvis. apply Hvis. rewrite <- Hids.
    by apply list_elem_of_fmap_2. }
  assert (Hafresh : forall n, n ∈ added -> id n ∉ visited s).
  { intros n Hin. pose proof (Hfresh n Hin) as Hf.
    rewrite Forall_forall in Hch. destruct (Hch n Hin) as (Hid & _). by rewrite Hid. }
  assert (Hndall : NoDup (id <$> nodes s ++ added)).
  { rewrite fmap_app. apply NoDup_app. split; [by rewrite Hids|]. split; [|by rewrite Hakey].
    intros x (q & -> & Hqin)%list_elem_of_fmap (n & Hx & Hin)%list_elem_of_fmap.
    apply (Hafresh n Hin). rewrite <- Hx. by apply Hvisited. }
  destruct (updateNodes_replace c c' (nodes s ++ added))
    as (l1 & l2 & Hl & Hupd); [done| |by destruct Hre|].
  { apply elem_of_app. by left. }
  assert (Hstrall : Forall stringStatus (l1 ++ c :: l2)).
  { rewrite <- Hl. by apply Forall_app. }
  destruct (replace_facts _ _ l1 l2 Hre Hstrall) as (Hstr' & Hlen & Hsum & Hres & Hkeep).
  assert (Hscn : scannedNodes (nodes s) = scannedNodes l1 ++ scannedNodes l2).
  { pose proof (scannedNodes_app (nodes s) added) as Happ.
    rewrite Hl, scannedNodes_middle, Hcs, (scannedNodes_unscanned added Hunsc),
      app_nil_r in Happ. by rewrite <- Happ. }
  rewrite Hupd in Hn.
  unfold statsAgree. rewrite Hn, Hq', Ht'.
  split; [done|]. split; [|split; [|split; [done|]]].
  - rewrite fmap_app. apply NoDup_app. split; [done|]. split.
    + intros x (q & -> & Hqin)%list_elem_of_fmap (n & Hx & Hin)%list_elem_of_fmap.
      apply list_elem_of_filter in Hin as [_ Hin].
      apply (Hafresh n Hin). rewrite <- Hx. apply Hvisited.
      rewrite Forall_forall in Hq. by apply Hq.
    + apply NoDup_fmap_filter. by rewrite Hakey.
  - apply Forall_app. split; apply Forall_forall.
    + intros q Hqin. rewrite Forall_forall in Hq. destruct (Hq q Hqin) as [Hin Hs].
      split; [|done]. apply Hkeep; [rewrite <- Hl; apply elem_of_app; by left|].
      intros ->. apply Hcfresh. by apply list_elem_of_fmap_2.
    + intros n [_ Hin]%list_elem_of_filter. split.
      * apply Hkeep; [rewrite <- Hl; apply elem_of_app; by right|].
        intros ->. apply (Hafresh c Hin). by apply Hvisited.
      * rewrite Forall_forall in Hunsc. by apply Hunsc.
  - destruct Hcase as [(Hsc & r & w1 & evs & Hf & _ & Hsub' & Hstats)
                      |(Hsc & Hstats & [->|(r & w1 & evs & Hf & Hthrow)])].
    + destruct (countErrors_strings _ Hstr') as [errs Herrs].
      rewrite Hn, Hq' in Hstats. unfold statsUpdater in Hstats.
      rewrite Herrs in Hstats. cbn in Hstats. rewrite Hstats. cbn.
      rewrite scannedNodes_middle, Hsc, !length_app, !deepest_app, foldl_sizes.
      cbn. rewrite Hsp, Hdr, Hscn, length_app, deepest_app.
      apply sumSizes_sublist in Hsub'.
      rewrite Hsum, <- Hl, sumSizes_app.
      repeat split; lia.
    + rewrite app_nil_r in Hl. rewrite Hstats, Hlen, Hsum, Hres, <- Hl.
      rewrite scannedNodes_middle, Hsc, Hcs. cbn [app]. rewrite <- Hscn.
      rewrite filter_nil, app_nil_r. repeat split; done.
    + exfalso. apply Hthrow. apply mergeChildren_no_throw.
      by eapply fetchPageLinks_statuses.
Qed.

Lemma statsAgree_run h s w : stringStatuses -> run config h s w -> statsAgree s.
Proof.
  intros Hss Hrun.
  induction Hrun as [s0 w Ht Hc|h s w Hrun IH Ht|h s w c Hrun IH Ht|h s w Hrun IH Hc].
  - unfold startRecursiveCrawl. rewrite Hc.
    apply statsAgree_processQueue; [apply wellFormed_reset|done|apply statsAgree_reset].
  - apply statsAgree_processQueue; [by eapply wellFormed_run| |done].
    intros c. by rewrite Ht.
  - apply statsAgree_resume; [done|by eapply wellFormed_run|done|done].
  - destruct IH as (? & ? & ? & ? & ?). by unfold statsAgree.
Qed.

End Statistics.

Section StatisticsClaim.
Context {World : Type} `{Platform World}.
Variable config : CrawlConfig.
Hypothesis Hstrings : stringStatuses.

(** What a successful expansion writes into the size total and the error
    count. *)
Lemma resumeQueue_success_stats h s w c r w1 evs :
  run config h s w -> task s = Awaiting c ->
  Gemini.fetchPageLinks (apiKeys s) (url c) (cfg_url config) (depth c)
                        (currentKeyIndex s) w = (Ok r, w1, evs) ->
  totalSizeKB (stats (resumeQueue config c s w).1.1) =
    totalSizeKB (stats s) + sumSizes (links r) /\
  countErrors (nodes (resumeQueue config c s w).1.1) =
    Some (errors (stats (resumeQueue config c s w).1.1)).
Proof.
  intros Hrun Htask Hf.
  pose proof (statsAgree_resume config c s w Hstrings
                (wellFormed_run config h s w Hrun) Htask
                (statsAgree_run config h s w Hstrings Hrun)) as (Hstr & _).
  revert Hstr. unfold resumeQueue. rewrite Hf. cbn [fst snd].
  set (s1 := if bool_decide _ then s else _).
  assert (Hs1 : stats s1 = stats s) by (unfold s1; by case_bool_decide).
  pose proof (mergeChildren_no_throw (links r) s1
                (fetchPageLinks_statuses _ _ _ _ _ _ _ _ _ Hstrings Hf)) as Hno.
  destruct (mergeChildren (links r) s1) as [s2 err] eqn:Hm. cbn in Hno. subst err.
  destruct (mergeChildren_spec _ _ _ _ Hm) as (added & _ & _ & _ & _ & _ & _ & Hst & _).
  unfold setStats, statsUpdater. cbn [nodes queue stats updateNodeState withNodes].
  destruct (countErrors _) as [errs|] eqn:Herrs; cbn.
  - intros _. rewrite foldl_sizes, Hst, Hs1. by split; [lia|].
  - intros Hstr. apply countErrors_strings in Hstr as [k Hk]. congruence.
Qed.

(** C5, as amended.  With an oracle whose statuses are strings, in every
    state of a crawl started with no step of an earlier crawl pending the
    statistics hold: the number of nodes, of scanned nodes, of resource
    nodes and of frontier entries, recomputed from the node list and the
    frontier; as depth, the greatest depth among
    the scanned nodes (not among all nodes); and as size a running total
    that is at least the sum of the node sizes.  Each successful expansion
    adds the sizes of all children the client returned, admitted or not, to
    that total, and recomputes the error count from the node list. *)
Theorem statistics_track_nodes h s w :
  run config h s w ->
  totalLinks (stats s) = length (nodes s) /\
  scannedPages (stats s) = length (scannedNodes (nodes s)) /\
  depthReached (stats s) = deepest (scannedNodes (nodes s)) /\
  sumSizes (nodes s) <= totalSizeKB (stats s) /\
  assetsFound (stats s) = length (resourceNodes (nodes s)) /\
  queuedPages (stats s) = length (queue s) /\
  (forall c r w1 evs,
     task s = Awaiting c ->
     Gemini.fetchPageLinks (apiKeys s) (url c) (cfg_url config) (depth c)
                           (currentKeyIndex s) w = (Ok r, w1, evs) ->
     totalSizeKB (stats (resumeQueue config c s w).1.1) =
       totalSizeKB (stats s) + sumSizes (links r) /\
     countErrors (nodes (resumeQueue config c s w).1.1) =
       Some (errors (stats (resumeQueue config c s w).1.1))).
Proof.
  intros Hrun.
  destruct (statsAgree_run config h s w Hstrings Hrun)
    as (_ & _ & _ & _ & Htl & Hsp & Hdr & Hsz & Haf & Hqp).
  repeat (split; [done|]).
  intros c r w1 evs Htask Hf. by eapply resumeQueue_success_stats.
Qed.

End StatisticsClaim.

(** ** Stopping a run *)

Section Stop.
Variable config : CrawlConfig.

(** The step after [stopCrawl] takes the finishing branch. *)
Lemma processQueue_after_stop s :
  processQueue config (stopCrawl s) = finishCrawl (stopCrawl s) /\
  crawlStatus (processQueue config (stopCrawl s)) = COMPLETED.
Proof. unfold processQueue, terminates. by cbn. Qed.

(** A resumed step schedules the next one whatever the run flag says. *)
Lemma resumeQueue_schedules {World : Type} `{Platform World} c s (w : World) :
  task (resumeQueue config c s w).1.1 = Scheduled.
Proof. unfold resumeQueue. by destruct (Gemini.fetchPageLinks _ _ _ _ _ _) as [[? ?] ?]. Qed.

End Stop.

(** ** The runs of the example scenario *)

Module ScenarioRuns.
Import Scenario.
#[local] Existing Instance examplePlatform.

Lemma run1 pages : 2 <= pages -> run (cfg pages) (h1 pages) (s1 pages) 0.
Proof. intros _. apply run_start; reflexivity. Defined.

Lemma task1 pages : 2 <= pages -> task (s1 pages) = Awaiting (c1 pages).
Proof.
  intros Hp. unfold s1, startRecursiveCrawl, processQueue, terminates. cbn.
  destruct pages as [|[|p]]; [lia|lia|reflexivity].
Qed.

Lemma run2 pages : 2 <= pages -> run (cfg pages) (h1 pages) (s2 pages) (w2 pages).
Proof. intros Hp. apply (run_resume _ _ _ _ _ (run1 pages Hp) (task1 pages Hp)). Defined.

Lemma run3 : run (cfg 10) (h3 10) (s3 10) (w2 10).
Proof. apply run_timer; [apply run2; lia|]. vm_compute. reflexivity. Defined.

Lemma run4 : run (cfg 10) (h3 10) (s4 10) (w4 10).
Proof. apply (run_resume _ _ _ _ (c3 10) run3). vm_compute. reflexivity. Defined.

Lemma runStopped : run (cfg 10) (h1 10) (stopped 10) 0.
Proof. apply run_stop; [apply run1; lia|]. vm_compute. reflexivity. Defined.

Lemma runDrained : run (cfg 10) (h1 10) (drained 10) (drainedWorld 10).
Proof. apply (run_resume _ _ _ _ (c1 10) runStopped). vm_compute. reflexivity. Defined.

Lemma runFinal : run (cfg 10) (finalHistory 10) (final 10) (drainedWorld 10).
Proof. apply run_timer; [apply runDrained|]. vm_compute. reflexivity. Defined.

Lemma example_fanout : fanout 2.
Proof.
  intros w apiKey cur root t w1 raw Hg Hp. cbn in Hg. injection Hg as <- _.
  vm_compute in Hp. injection Hp as <-. cbn. lia.
Qed.

Lemma example_stringStatuses : stringStatuses.
Proof.
  intros w apiKey cur root t w1 raw Hg Hp. cbn in Hg. injection Hg as <- _.
  vm_compute in Hp. injection Hp as <-.
  repeat constructor; by eexists.
Qed.

Example nodes_after_two_expansions :
  url <$> nodes (s4 10) =
    ["https://example.test/"; "https://example.test/a"; "https://example.test/a/style.css"] /\
  queue (s4 10) = [] /\
  (url <$> h3 10) = ["https://example.test/"; "https://example.test/a"].
Proof. vm_compute. done. Qed.

End ScenarioRuns.

(** ** The claims on the example scenario *)

(** C1 as stated fails: with a budget of two pages the seed's expansion
    leaves three nodes in the node list. *)
Lemma node_budget_counterexample :
  @run nat examplePlatform (Scenario.cfg 2) (Scenario.h1 2) (Scenario.s2 2) (Scenario.w2 2) /\
  maxPages (Scenario.cfg 2) = 2 /\
  length (nodes (Scenario.s2 2)) = 3 /\
  ~ length (nodes (Scenario.s2 2)) <= maxPages (Scenario.cfg 2).
Proof.
  split; [apply ScenarioRuns.run2; lia|].
  split; [reflexivity|]. split; [by vm_compute|].
  vm_compute. lia.
Qed.

Lemma node_budget_overshoot_witness :
  (forall c, task (Scenario.s2 2) = Awaiting c ->
     length (nodes (Scenario.s2 2)) < maxPages (Scenario.cfg 2)) /\
  length (nodes (Scenario.s2 2)) <= 1 `max` (maxPages (Scenario.cfg 2) - 1 + 2).
Proof.
  apply (@node_budget_overshoot nat examplePlatform (Scenario.cfg 2) 2
           ScenarioRuns.example_fanout (Scenario.h1 2) (Scenario.s2 2) (Scenario.w2 2)).
  apply ScenarioRuns.run2. lia.
Defined.

(** C2 on the example: stop is pressed while the seed is being expanded.  The
    step in flight completes and schedules [processQueue] once more; that call
    finds the run flag cleared, finishes the crawl as COMPLETED over the IDLE
    that [stopCrawl] had set, and requests the report. *)
Theorem stop_ends_completed :
  @run nat examplePlatform (Scenario.cfg 10) (Scenario.finalHistory 10)
       (Scenario.final 10) (Scenario.drainedWorld 10) /\
  crawlStatus (Scenario.stopped 10) = IDLE /\
  task (Scenario.drained 10) = Scheduled /\
  crawlStatus (Scenario.final 10) = COMPLETED /\
  reports (Scenario.final 10) = ["key-1"] /\
  task (Scenario.final 10) = NoTask.
Proof. split; [apply ScenarioRuns.runFinal|]. vm_compute. done. Qed.

(** C5 as stated fails: after the seed's expansion the depth statistic is 0
    while the node list reaches depth 1, and after the expansion of [/a],
    which returns two known links, the size total is 20 while the node sizes
    add up to 10. *)
Lemma statistics_drift_counterexample :
  @run nat examplePlatform (Scenario.cfg 10) (Scenario.h1 10) (Scenario.s2 10) (Scenario.w2 10) /\
  depthReached (stats (Scenario.s2 10)) = 0 /\
  deepest (nodes (Scenario.s2 10)) = 1 /\
  @run nat examplePlatform (Scenario.cfg 10) (Scenario.h3 10) (Scenario.s4 10) (Scenario.w4 10) /\
  totalSizeKB (stats (Scenario.s4 10)) = 20 /\
  sumSizes (nodes (Scenario.s4 10)) = 10 /\
  depthReached (stats (Scenario.s2 10)) <> deepest (nodes (Scenario.s2 10)) /\
  totalSizeKB (stats (Scenario.s4 10)) <> sumSizes (nodes (Scenario.s4 10)).
Proof.
  split; [apply ScenarioRuns.run2; lia|]. split; [by vm_compute|]. split; [by vm_compute|].
  split; [apply ScenarioRuns.run4|]. split; [by vm_compute|]. split; [by vm_compute|].
  split; vm_compute; lia.
Qed.

Lemma statistics_track_nodes_witness :
  let s := Scenario.s3 10 in
  let w := Scenario.w2 10 in
  totalLinks (stats s) = length (nodes s) /\
  scannedPages (stats s) = length (scannedNodes (nodes s)) /\
  depthReached (stats s) = deepest (scannedNodes (nodes s)) /\
  sumSizes (nodes s) <= totalSizeKB (stats s) /\
  assetsFound (stats s) = length (resourceNodes (nodes s)) /\
  queuedPages (stats s) = length (queue s) /\
  (forall c r w1 evs,
     task s = Awaiting c ->
     @Gemini.fetchPageLinks nat examplePlatform (apiKeys s) (url c)
        (cfg_url (Scenario.cfg 10)) (depth c) (currentKeyIndex s) w = (Ok r, w1, evs) ->
     totalSizeKB (stats (@resumeQueue nat examplePlatform (Scenario.cfg 10) c s w).1.1) =
       totalSizeKB (stats s) + sumSizes (links r) /\
     countErrors (nodes (@resumeQueue nat examplePlatform (Scenario.cfg 10) c s w).1.1) =
       Some (errors (stats (@resumeQueue nat examplePlatform (Scenario.cfg 10) c s w).1.1))).
Proof.
  exact (@statistics_track_nodes nat examplePlatform (Scenario.cfg 10)
           ScenarioRuns.example_stringStatuses (Scenario.h3 10) (Scenario.s3 10) (Scenario.w2 10)
           ScenarioRuns.run3).
Defined.

Lemma no_duplicate_urls_witness :
  let s := Scenario.s4 10 in
  NoDup (url <$> nodes s) /\
  (forall n child, n ∈ nodes s -> url child = url n -> admitChild child s = (s, None)) /\
  (forall children s' err,
     mergeChildren children s = (s', err) -> nodes s `prefix_of` nodes s').
Proof.
  exact (@no_duplicate_urls nat examplePlatform (Scenario.cfg 10)
           (Scenario.h3 10) (Scenario.s4 10) (Scenario.w4 10) ScenarioRuns.run4).
Defined.

Lemma breadth_first_order_witness :
  StronglySorted depthLe (Scenario.h3 10) /\
  StronglySorted depthLe
    (filter (fun n => depth n < maxDepth (Scenario.cfg 10)) (Scenario.h3 10)) /\
  StronglySorted depthLe (Scenario.h3 10 ++ queue (Scenario.s3 10)) /\
  (forall keys cur root d startIndex w0 r w1 evs,
     @Gemini.fetchPageLinks nat examplePlatform keys cur root d startIndex w0 =
       (Ok r, w1, evs) ->
     Forall (fun n => depth n = d + 1) (links r)) /\
  (forall c n,
     task (Scenario.s3 10) = Awaiting c ->
     n ∈ queue (@resumeQueue nat examplePlatform (Scenario.cfg 10) c
                  (Scenario.s3 10) (Scenario.w2 10)).1.1 ->
     n ∈ queue (Scenario.s3 10) \/ depth n = depth c + 1).
Proof.
  exact (@breadth_first_order nat examplePlatform (Scenario.cfg 10)
           (Scenario.h3 10) (Scenario.s3 10) (Scenario.w2 10) ScenarioRuns.run3).
Defined.

Lemma resource_leaf_rule_witness :
  (forall n, n ∈ Scenario.h3 10 ++ queue (Scenario.s3 10) ->
     type n = JStr "internal" /\ contentType n = TextHtml /\
     (parentId n <> None -> guessContentType (url n) = TextHtml)) /\
  (forall child s0, contentType child <> TextHtml ->
     queue (admitChild child s0).1 = queue s0) /\
  (forall c n,
     task (Scenario.s3 10) = Awaiting c ->
     n ∈ queue (@resumeQueue nat examplePlatform (Scenario.cfg 10) c
                  (Scenario.s3 10) (Scenario.w2 10)).1.1 ->
     n ∈ queue (Scenario.s3 10) \/
     (guessContentType (url n) = TextHtml /\ type n = JStr "internal")) /\
  (forall keys cur root d startIndex w0,
     keys <> [] -> guessContentType cur <> TextHtml ->
     @Gemini.fetchPageLinks nat examplePlatform keys cur root d startIndex w0 =
       (Ok (mkFetched [] startIndex), w0, [])).
Proof.
  exact (@resource_leaf_rule nat examplePlatform (Scenario.cfg 10)
           (Scenario.h3 10) (Scenario.s3 10) (Scenario.w2 10) ScenarioRuns.run3).
Defined.

(** The style sheet of the scenario is recorded, never queued, and its own
    expansion asks the oracle nothing. *)
Example style_sheet_is_a_leaf :
  "https://example.test/a/style.css" ∈ (url <$> nodes (Scenario.s2 10)) /\
  (url <$> queue (Scenario.s2 10)) = ["https://example.test/a"] /\
  @Gemini.fetchPageLinks nat examplePlatform ["key-1"]
     "https://example.test/a/style.css" "https://example.test/" 1 0 7 =
    (Ok (mkFetched [] 0), 7, []).
Proof.
  split; [|by vm_compute].
  vm_compute. apply list_elem_of_In. cbn. tauto.
Qed.

(** * Further properties of the crawl loop *)

Lemma NoDup_fmap_eq {A B} (f : A -> B) (l : list A) x y :
  NoDup (f <$> l) -> x ∈ l -> y ∈ l -> f x = f y -> x = y.
Proof.
  induction l as [|a l IH]; [by intros _ ?%elem_of_nil|].
  rewrite fmap_cons, NoDup_cons. intros [Ha Hl] Hx Hy Hf.
  apply elem_of_cons in Hx as [->|Hx]; apply elem_of_cons in Hy as [->|Hy].
  - done.
  - destruct Ha. rewrite Hf. by apply list_elem_of_fmap_2.
  - destruct Ha. rewrite <- Hf. by apply list_elem_of_fmap_2.
  - by apply IH.
Qed.

Section MoreInvariants.
Context {World : Type} `{Platform World}.
Variable config : CrawlConfig.

(** Induction over a run with the well-formedness of the state at hand. *)
Lemma run_invariant_wf (I : list LinkNode -> Engine -> Prop) :
  (forall s0, I [] (resetCrawl config s0)) ->
  (forall h s, wellFormed s -> I h s -> (forall c, task s <> Awaiting c) ->
               I (h ++ dequeuedBy config s) (processQueue config s)) ->
  (forall h s w c, wellFormed s -> I h s -> task s = Awaiting c ->
                   I h (resumeQueue config c s w).1.1) ->
  (forall h s, I h s -> I h (stopCrawl s)) ->
  forall h s w, run config h s w -> I h s.
Proof.
  intros Hreset Htimer Hresume Hstop h s w Hrun.
  induction Hrun as [s0 w Ht Hc|h s w Hrun IH Ht|h s w c Hrun IH Ht|h s w Hrun IH Hc].
  - unfold startRecursiveCrawl. rewrite Hc.
    apply (Htimer [] (resetCrawl config s0));
      [apply wellFormed_reset|apply Hreset|done].
  - apply Htimer; [by eapply wellFormed_run|done|]. intros c. by rewrite Ht.
  - apply Hresume; [by eapply wellFormed_run|done|done].
  - by apply Hstop.
Qed.

(** The nodes a resumed step merges have ids of their own. *)
Lemma merged_ids_NoDup s added c d :
  wellFormed s ->
  NoDup (url <$> added) ->
  (forall n, n ∈ added -> url n ∉ visited s) ->
  Forall (childOf c d) added ->
  NoDup (id <$> nodes s ++ added).
Proof.
  intros (Hkey & Hnd & Hvis & _) Hnd' Hfresh Hch.
  assert (Hids : id <$> nodes s ++ added = url <$> nodes s ++ added).
  { apply list_fmap_ext. intros i n Hn.
    apply list_elem_of_lookup_2, elem_of_app in Hn as [Hn|Hn].
    - rewrite Forall_forall in Hkey. by apply Hkey.
    - rewrite Forall_forall in Hch. by destruct (Hch n Hn) as (? & _). }
  rewrite Hids, fmap_app. apply NoDup_app. split; [done|]. split; [|done].
  intros u Hu (n & -> & Hin)%list_elem_of_fmap.
  apply (Hfresh n Hin). rewrite Forall_forall in Hvis. by apply Hvis.
Qed.

Lemma depthBounded_run h s w :
  run config h s w ->
  Forall (fun n => depth n <= maxDepth config /\
                   (scanned n = true -> depth n < maxDepth config)) (nodes s) /\
  (forall c, task s = Awaiting c -> depth c < maxDepth config).
Proof.
  revert h s w. apply (run_invariant config (fun _ s =>
    Forall (fun n => depth n <= maxDepth config /\
                     (scanned n = true -> depth n < maxDepth config)) (nodes s) /\
    (forall c, task s = Awaiting c -> depth c < maxDepth config))).
  - intros s0. cbn. split; [|done]. constructor; [|constructor]. cbn. split; [lia|done].
  - intros h s [Hn Hc] _. destruct (terminates config s) eqn:Ht.
    + destruct (processQueue_finish config s Ht) as [-> _]. cbn. by split.
    + destruct (processQueue_dequeue config s Ht)
        as (c & rest & _ & _ & _ & _ & _ & _ & _ & _ & _ & _ & _ & _ & _ & _ & _ & _ & Hcase).
      destruct Hcase as [(_ & -> & ->)|(Hd & -> & ->)]; [by split|].
      split; [|by intros ? [= <-]].
      apply Forall_forall. intros n [Hin| ->]%updateNodes_elem.
      * rewrite Forall_forall in Hn. by apply Hn.
      * cbn. split; [lia|done].
  - intros h s w c [Hn Hc] Htask. specialize (Hc c Htask).
    destruct (resumeQueue_spec config c s w)
      as (added & c' & -> & _ & _ & _ & _ & Hch & -> & _ & _ & _ & _ & Hre & _).
    destruct Hre as (_ & _ & Hdc & _).
    split; [|done].
    apply Forall_forall. intros n [[Hin|Hin]%elem_of_app| ->]%updateNodes_elem.
    + rewrite Forall_forall in Hn. by apply Hn.
    + rewrite Forall_forall in Hch. destruct (Hch n Hin) as (_ & Hd & _ & _ & Hs).
      split; [lia|]. congruence.
    + rewrite Hdc. split; [lia|done].
  - intros h s [Hn Hc]. by split.
Qed.

(** X1. In a crawl started with no step of an earlier crawl pending, no
    node deeper than [maxDepth] is ever recorded, and only nodes above that
    depth are expanded: in every state of the run each node of the node list
    has depth at most [maxDepth], and each scanned node and the node in
    flight have a smaller depth. *)
Theorem depth_limit_respected h s w :
  run config h s w ->
  (forall n, n ∈ nodes s -> depth n <= maxDepth config) /\
  (forall n, n ∈ nodes s -> scanned n = true -> depth n < maxDepth config) /\
  (forall c, task s = Awaiting c -> depth c < maxDepth config).
Proof.
  intros Hrun. destruct (depthBounded_run h s w Hrun) as [Hn Hc].
  rewrite Forall_forall in Hn.
  split; [intros n Hin; by apply Hn|]. split; [|done].
  intros n Hin. by apply Hn.
Qed.

Lemma visitedUrls_run h s w :
  run config h s w -> forall u, u ∈ visited s <-> u ∈ url <$> nodes s.
Proof.
  revert h s w. apply (run_invariant_wf (fun _ s =>
    forall u, u ∈ visited s <-> u ∈ url <$> nodes s)).
  - intros s0 u. cbn. by rewrite elem_of_singleton, list_elem_of_singleton.
  - intros h s (Hkey & _ & _ & Hq & _) IH _ u. destruct (terminates config s) eqn:Ht.
    + destruct (processQueue_finish config s Ht) as [-> _]. apply IH.
    + destruct (processQueue_dequeue config s Ht)
        as (c & rest & Hqs & _ & _ & -> & _ & _ & _ & _ & _ & _ & _ & _ & _ & _ & _ & _ & Hcase).
      destruct Hcase as [(_ & _ & ->)|(_ & _ & ->)]; [apply IH|].
      rewrite Hqs in Hq. apply Forall_cons in Hq as [Hc _].
      destruct (updateNodes_keyed (setNode_status (JStr "scanning") c) (nodes s))
        as [_ ->]; [done|done|]. apply IH.
  - intros h s w c (Hkey & _ & _ & _ & Hc) IH Htask u.
    destruct (resumeQueue_spec config c s w)
      as (added & c' & -> & _ & Hv & _ & _ & Hch & _ & _ & _ & _ & _ & Hre & _).
    destruct Hre as (Hid & Hurl & _).
    destruct (updateNodes_keyed c' (nodes s ++ added)) as [_ ->].
    { rewrite Hid, Hurl. by apply Hc. }
    { apply Forall_app. split; [done|].
      eapply Forall_impl; [exact Hch|]. by intros n (? & _). }
    rewrite Hv, fmap_app, elem_of_app, IH. done.
  - intros h s IH. apply IH.
Qed.

(** X2. The visited set holds exactly the URLs of the node list: in every
    state of a run a URL is visited if and only if a node with that URL is
    listed. *)
Theorem visited_is_node_urls h s w :
  run config h s w ->
  forall u, u ∈ visited s <-> exists n, n ∈ nodes s /\ url n = u.
Proof.
  intros Hrun u. rewrite (visitedUrls_run h s w Hrun), list_elem_of_fmap.
  split; intros (n & ? & ?); exists n; by split.
Qed.

Lemma admittedOnce_run h s w :
  run config h s w ->
  NoDup (url <$> h ++ queue s) /\
  Forall (fun n => url n ∈ visited s) (h ++ queue s) /\
  length h + length (queue s) <= length (nodes s).
Proof.
  revert h s w. apply (run_invariant config (fun h s =>
    NoDup (url <$> h ++ queue s) /\
    Forall (fun n => url n ∈ visited s) (h ++ queue s) /\
    length h + length (queue s) <= length (nodes s))).
  - intros s0. cbn. split; [apply NoDup_singleton|]. split; [|lia].
    repeat constructor. by apply elem_of_singleton.
  - intros h s (Hnd & Hvis & Hlen) _. destruct (terminates config s) eqn:Ht.
    + destruct (processQueue_finish config s Ht) as [-> ->]. by rewrite app_nil_r.
    + destruct (processQueue_dequeue config s Ht)
        as (c & rest & Hqs & -> & -> & -> & _ & _ & _ & _ & _ & _ & _ & _ & _ & _ & _ & _ & Hcase).
      rewrite Hqs in Hnd, Hvis, Hlen. cbn in Hlen.
      rewrite <- app_assoc. cbn [app]. split; [done|]. split; [done|].
      rewrite length_app. cbn.
      destruct Hcase as [(_ & _ & ->)|(_ & _ & ->)]; [lia|].
      rewrite updateNodes_length. lia.
  - intros h s w c (Hnd & Hvis & Hlen) Htask.
    destruct (resumeQueue_spec config c s w)
      as (added & c' & -> & -> & Hv & Hnd' & Hfresh & _).
    rewrite app_assoc. split; [|split].
    + rewrite fmap_app. apply NoDup_app. split; [done|]. split.
      * intros u (n & -> & Hn)%list_elem_of_fmap (m & Hu & Hm)%list_elem_of_fmap.
        apply list_elem_of_filter in Hm as [_ Hm].
        apply (Hfresh m Hm). rewrite <- Hu. rewrite Forall_forall in Hvis. by apply Hvis.
      * by apply NoDup_fmap_filter.
    + apply Forall_app. split.
      * eapply Forall_impl; [exact Hvis|]. intros n Hn. apply Hv. by left.
      * apply Forall_forall. intros n [_ Hn]%list_elem_of_filter.
        apply Hv. right. by apply list_elem_of_fmap_2.
    + rewrite updateNodes_length, !length_app.
      pose proof (length_filter (fun n => isInternalHtml n = true) added). lia.
  - intros h s IH. apply IH.
Qed.

(** X3. A node enters the frontier once: in every state of a run the nodes
    dequeued so far and the nodes still queued have pairwise different URLs,
    each is a node of the node list, and together they are no more than the
    node list holds.  So a node is never expanded twice, and a failed node is
    not queued again. *)
Theorem frontier_admits_once h s w :
  run config h s w ->
  NoDup (url <$> h ++ queue s) /\
  (forall n, n ∈ h ++ queue s -> url n ∈ url <$> nodes s) /\
  length h + length (queue s) <= length (nodes s).
Proof.
  intros Hrun. destruct (admittedOnce_run h s w Hrun) as (Hnd & Hvis & Hlen).
  split; [done|]. split; [|done].
  intros n Hn. apply (visitedUrls_run h s w Hrun).
  rewrite Forall_forall in Hvis. by apply Hvis.
Qed.

End MoreInvariants.

Lemma updateNodes_shapes c c' l :
  NoDup (id <$> l) -> shape c ∈ shape <$> l -> shape c' = shape c ->
  shape <$> updateNodes c' l = shape <$> l.
Proof.
  intros Hnd (m & Hm & Hin)%list_elem_of_fmap Hc. apply updateNodes_fmap.
  intros n Hn Hid.
  assert (Hnm : n = m).
  { apply (NoDup_fmap_eq id l); [done|done|done|].
    rewrite Hid. unfold shape in Hm, Hc. congruence. }
  congruence.
Qed.

Lemma treeShaped_shapes config l l' :
  shape <$> l = shape <$> l' -> treeShaped config l -> treeShaped config l'.
Proof.
  intros Hs Ht n Hn.
  assert (Hn' : shape n ∈ shape <$> l) by (rewrite Hs; by apply list_elem_of_fmap_2).
  apply list_elem_of_fmap in Hn' as (n0 & Hsh & Hn0).
  specialize (Ht n0 Hn0). unfold shape in Hsh.
  assert (Hp : parentId n = parentId n0) by congruence.
  assert (Hu : url n = url n0) by congruence.
  assert (Hd : depth n = depth n0) by congruence.
  rewrite Hp, Hu, Hd. destruct (parentId n0) as [p|]; [|done].
  destruct Ht as (m & Hm & Hmu & Hmd).
  assert (Hm' : shape m ∈ shape <$> l') by (rewrite <- Hs; by apply list_elem_of_fmap_2).
  apply list_elem_of_fmap in Hm' as (m' & Hsh' & Hm').
  exists m'. unfold shape in Hsh'. split; [done|]. split; congruence.
Qed.

Lemma treeShaped_app config l added c d :
  treeShaped config l ->
  (exists m, m ∈ l /\ url m = c /\ depth m = d) ->
  Forall (childOf c d) added ->
  treeShaped config (l ++ added).
Proof.
  intros Ht (m & Hm & Hmu & Hmd) Hch n [Hn|Hn]%elem_of_app.
  - specialize (Ht n Hn). destruct (parentId n) as [p|]; [|done].
    destruct Ht as (m' & Hm' & ?). exists m'. split; [|done]. apply elem_of_app. by left.
  - rewrite Forall_forall in Hch. destruct (Hch n Hn) as (_ & Hd & -> & _).
    exists m. split; [apply elem_of_app; by left|]. split; [done|lia].
Qed.

Section Tree.
Context {World : Type} `{Platform World}.
Variable config : CrawlConfig.

Lemma tree_run h s w :
  run config h s w ->
  treeShaped config (nodes s) /\
  (forall q, q ∈ queue s -> shape q ∈ shape <$> nodes s) /\
  (forall c, task s = Awaiting c -> shape c ∈ shape <$> nodes s).
Proof.
  revert h s w. apply (run_invariant_wf config (fun _ s =>
    treeShaped config (nodes s) /\
    (forall q, q ∈ queue s -> shape q ∈ shape <$> nodes s) /\
    (forall c, task s = Awaiting c -> shape c ∈ shape <$> nodes s))).
  - intros s0. cbn. split; [|split; [|done]].
    + intros n ->%list_elem_of_singleton. by cbn.
    + intros q ->%list_elem_of_singleton. by apply list_elem_of_singleton.
  - intros h s Hwf (Ht & Hq & _) _. destruct (terminates config s) eqn:Hterm.
    + destruct (processQueue_finish config s Hterm) as [-> _]. cbn. by split.
    + destruct (processQueue_dequeue config s Hterm)
        as (c & rest & Hqs & _ & -> & _ & _ & _ & _ & _ & _ & _ & _ & _ & _ & _ & _ & _ & Hcase).
      rewrite Hqs in Hq.
      assert (Hrest : forall q, q ∈ rest -> shape q ∈ shape <$> nodes s)
        by (intros q Hin; apply Hq; by right).
      destruct Hcase as [(_ & -> & ->)|(_ & -> & ->)]; [by split|].
      assert (Hsh : shape <$> updateNodes (setNode_status (JStr "scanning") c) (nodes s)
                    = shape <$> nodes s).
      { apply (updateNodes_shapes c); [|apply Hq; by left|done].
        rewrite (wellFormed_ids s Hwf). apply Hwf. }
      rewrite Hsh. split; [by eapply treeShaped_shapes|]. split; [done|].
      intros c0 [= <-]. apply (Hq c). by left.
  - intros h s w c Hwf (Ht & Hq & Hc) Htask. specialize (Hc c Htask).
    destruct (resumeQueue_spec config c s w)
      as (added & c' & -> & -> & _ & Hnd' & Hfresh & Hch & -> & _ & _ & _ & _ & Hre & _).
    assert (Hsh : shape <$> updateNodes c' (nodes s ++ added) = shape <$> nodes s ++ added).
    { apply (updateNodes_shapes c).
      - by eapply merged_ids_NoDup.
      - rewrite fmap_app. apply elem_of_app. by left.
      - destruct Hre as (Hi & Hu & Hd & Hp & _). unfold shape. congruence. }
    rewrite Hsh, fmap_app. split; [|split; [|done]].
    + eapply treeShaped_shapes; [symmetry; exact Hsh|].
      eapply treeShaped_app; [done| |done].
      apply list_elem_of_fmap in Hc as (m & Hm & Hin). exists m.
      unfold shape in Hm. split; [done|]. split; congruence.
    + intros q [Hin|[_ Hin]%list_elem_of_filter]%elem_of_app; apply elem_of_app.
      * left. by apply Hq.
      * right. by apply list_elem_of_fmap_2.
  - intros h s IH. apply IH.
Qed.

(** X4. In a crawl started with no step of an earlier crawl pending, the
    node list is a tree rooted at the seed: in every state of the run the
    only node without a parent is the seed, at depth 0, and the parent of
    every other node is a listed node one level above it. *)
Theorem nodes_form_a_tree h s w :
  run config h s w ->
  treeShaped config (nodes s) /\
  (forall n m, n ∈ nodes s -> m ∈ nodes s ->
     parentId n = None -> parentId m = None -> n = m).
Proof.
  intros Hrun. destruct (tree_run h s w Hrun) as (Ht & _). split; [done|].
  intros n m Hn Hm Hpn Hpm.
  pose proof (Ht n Hn) as Hn'. pose proof (Ht m Hm) as Hm'.
  rewrite Hpn in Hn'. rewrite Hpm in Hm'.
  destruct (wellFormed_run config h s w Hrun) as (_ & Hnd & _).
  apply (NoDup_fmap_eq url (nodes s)); [done|done|done|].
  destruct Hn' as [-> _]. by destruct Hm' as [-> _].
Qed.

End Tree.

Section Termination.
Context {World : Type} `{Platform World}.
Variable config : CrawlConfig.
Variable k : nat.
Hypothesis Hfanout : fanout k.

Lemma nodeBound_run h s w :
  run config h s w ->
  (forall c, task s = Awaiting c -> length (nodes s) < maxPages config) /\
  length (nodes s) <= nodeBound config k.
Proof.
  unfold nodeBound. revert h s w.
  apply (run_invariant config (fun _ s =>
    (forall c, task s = Awaiting c -> length (nodes s) < maxPages config) /\
    length (nodes s) <= 1 `max` (maxPages config - 1 + k))).
  - intros s0. cbn. split; [done|lia].
  - intros h s [Haw Hlen] _. destruct (terminates config s) eqn:Ht.
    + destruct (processQueue_finish config s Ht) as [-> _]. cbn. by split.
    + destruct (terminates_false config s Ht) as (_ & Hlt & _).
      destruct (processQueue_dequeue config s Ht)
        as (c & rest & _ & _ & _ & _ & _ & _ & _ & _ & _ & _ & _ & _ & _ & _ & _ & _ & Hcase).
      destruct Hcase as [(_ & -> & ->)|(_ & -> & ->)]; [by split|].
      rewrite updateNodes_length. split; [by intros _ _|done].
  - intros h s w c [Haw Hlen] Htask.
    destruct (resumeQueue_spec config c s w)
      as (added & c' & -> & _ & _ & _ & _ & _ & -> & _ & _ & _ & _ & _ & _ & Hsub).
    rewrite updateNodes_length, length_app. split; [done|].
    specialize (Haw c Htask). apply sublist_length in Hsub.
    pose proof (fetchedChildren_fanout config k Hfanout c s w). lia.
  - intros h s [Haw Hlen]. by split.
Qed.

(** Only [finishCrawl] leaves a run without a pending task. *)
Lemma noTask_completed h s w :
  run config h s w -> task s = NoTask ->
  crawlStatus s = COMPLETED /\ isRunning s = false.
Proof.
  assert (Hpq : forall s0, task (processQueue config s0) = NoTask ->
            crawlStatus (processQueue config s0) = COMPLETED /\
            isRunning (processQueue config s0) = false).
  { intros s0. destruct (terminates config s0) eqn:Ht.
    - destruct (processQueue_finish config s0 Ht) as [-> _]. by cbn.
    - destruct (processQueue_dequeue config s0 Ht)
        as (c & rest & _ & _ & _ & _ & _ & _ & _ & _ & _ & _ & _ & _ & _ & _ & _ & _ & Hcase).
      destruct Hcase as [(_ & -> & _)|(_ & -> & _)]; done. }
  intros Hrun.
  induction Hrun as [s0 w Ht Hc|h s w Hrun IH Ht|h s w c Hrun IH Ht|h s w Hrun IH Hc].
  - unfold startRecursiveCrawl. rewrite Hc. apply Hpq.
  - apply Hpq.
  - by rewrite resumeQueue_schedules.
  - cbn. intros Ht. destruct (IH Ht) as [Hs _]. congruence.
Qed.

Lemma turn_noTask s (w : World) : task s = NoTask -> turn config (s, w) = (s, w).
Proof. unfold turn. cbn. by intros ->. Qed.

Lemma iter_turn_noTask n s (w : World) :
  task s = NoTask -> Nat.iter n (turn config) (s, w) = (s, w).
Proof.
  intros Ht. induction n as [|n IH]; [done|]. rewrite Nat.iter_succ, IH. by apply turn_noTask.
Qed.

(** A turn on a pending task ends the run or brings it nearer its end. *)
Lemma turn_progress h s w :
  run config h s w -> task s <> NoTask ->
  exists h',
    run config h' (turn config (s, w)).1 (turn config (s, w)).2 /\
    (task (turn config (s, w)).1 = NoTask \/
     turnsLeft config k h' (turn config (s, w)).1 < turnsLeft config k h s).
Proof.
  intros Hrun Hne. unfold turn. cbn [fst snd].
  destruct (task s) as [|c|] eqn:Ht; [| |done].
  - exists (h ++ dequeuedBy config s). split; [by apply run_timer|]. cbn [fst].
    pose proof (run_timer config h s w Hrun Ht) as Hrun'.
    destruct (terminates config s) eqn:Hterm.
    + left. destruct (processQueue_finish config s Hterm) as [-> _]. done.
    + right.
      destruct (admittedOnce_run config _ _ _ Hrun') as (_ & _ & Hlen).
      destruct (nodeBound_run _ _ _ Hrun') as [_ Hb].
      destruct (processQueue_dequeue config s Hterm) as (c & rest & _ & Hdq & _).
      rewrite Hdq in Hlen |- *. rewrite length_app in Hlen. cbn [length] in Hlen.
      unfold turnsLeft. rewrite Ht, length_app. cbn [length].
      destruct (task (processQueue config s)); lia.
  - exists h. split; [by apply (run_resume config h s w c)|]. right. cbn [fst].
    unfold turnsLeft. rewrite Ht, resumeQueue_schedules. lia.
Qed.

Lemma turns_reach_end n h s w :
  run config h s w ->
  task s = NoTask \/ turnsLeft config k h s < n ->
  exists h',
    run config h' (Nat.iter n (turn config) (s, w)).1 (Nat.iter n (turn config) (s, w)).2 /\
    task (Nat.iter n (turn config) (s, w)).1 = NoTask.
Proof.
  revert h s w. induction n as [|n IH]; intros h s w Hrun Hm.
  - destruct Hm as [Ht|Hm]; [|lia]. exists h. by split.
  - assert (Hdec : task s = NoTask \/ task s <> NoTask)
      by (destruct (task s); [by right|by right|by left]).
    destruct Hdec as [Ht|Hne].
    { rewrite iter_turn_noTask by done. exists h. by split. }
    destruct Hm as [Ht|Hm]; [done|].
    rewrite Nat.iter_succ_r.
    destruct (turn_progress h s w Hrun Hne) as (h' & Hrun' & Hcase).
    destruct (turn config (s, w)) as [s' w'] eqn:Hturn. cbn [fst snd] in *.
    apply (IH h' s' w' Hrun'). destruct Hcase as [?|?]; [by left|right; lia].
Qed.

(** X5. A crawl left alone comes to an end: started on an engine with
    nothing pending, with an oracle of at most [k] links per reply, after
    twice [max(1, maxPages - 1 + k)] turns of the event loop no callback is
    pending and the run flag is cleared, whatever the oracle answers; and
    with an oracle whose statuses are strings the status is COMPLETED. *)
Theorem crawl_terminates s0 w0 :
  task s0 = NoTask -> canStart config s0 = true ->
  let sw := Nat.iter (2 * nodeBound config k) (turn config)
                     (startRecursiveCrawl config s0, w0) in
  task sw.1 = NoTask /\ isRunning sw.1 = false /\
  (stringStatuses -> crawlStatus sw.1 = COMPLETED) /\
  exists h, run config h sw.1 sw.2.
Proof.
  intros Ht Hc sw.
  pose proof (run_start config s0 w0 Ht Hc) as Hrun.
  destruct (turns_reach_end (2 * nodeBound config k) _ _ _ Hrun) as (h' & Hrun' & Hend).
  { assert (Hdec : task (startRecursiveCrawl config s0) = NoTask \/
                   task (startRecursiveCrawl config s0) <> NoTask)
      by (destruct (task (startRecursiveCrawl config s0)); [by right|by right|by left]).
    destruct Hdec as [?|Hne]; [by left|].
    right. unfold startRecursiveCrawl in *. rewrite Hc in *.
    destruct (terminates config (resetCrawl config s0)) eqn:Hterm.
    { destruct (processQueue_finish config _ Hterm) as [Heq _]. by rewrite Heq in Hne. }
    destruct (processQueue_dequeue config _ Hterm) as (c & rest & _ & -> & _).
    unfold turnsLeft, nodeBound. cbn [length].
    destruct (task (processQueue config (resetCrawl config s0))); lia. }
  fold sw in Hrun', Hend.
  destruct (noTask_completed _ _ _ Hrun' Hend) as [Hs Hr].
  split; [done|]. split; [done|]. split; [by intros _|]. by exists h'.
Qed.

End Termination.

(** * The key pool *)

Lemma rev_app_list s1 s2 :
  list_ascii_of_string (String.rev_app s1 s2) =
    List.rev (list_ascii_of_string s1) ++ list_ascii_of_string s2.
Proof.
  revert s2. induction s1 as [|a s1 IH]; intros s2; cbn; [done|].
  rewrite IH. cbn. by rewrite <- app_assoc.
Qed.

Lemma rev_list s : list_ascii_of_string (String.rev s) = List.rev (list_ascii_of_string s).
Proof. unfold String.rev. rewrite rev_app_list. cbn. by rewrite app_nil_r. Qed.

Lemma rev_rev s : String.rev (String.rev s) = s.
Proof.
  rewrite <- (string_of_list_ascii_of_string (String.rev (String.rev s))).
  rewrite !rev_list, List.rev_involutive. apply string_of_list_ascii_of_string.
Qed.

Lemma separatorFree_list s :
  separatorFree s = true <->
  Forall (fun c => isKeySeparator c = false) (list_ascii_of_string s).
Proof.
  induction s as [|c s IH]; cbn; [split; [constructor|done]|].
  rewrite andb_true_iff, negb_true_iff, Forall_cons, IH. done.
Qed.

Lemma separatorFree_app s1 s2 :
  separatorFree (s1 +:+ s2) = separatorFree s1 && separatorFree s2.
Proof.
  induction s1 as [|c s1 IH]; [done|].
  change (separatorFree (String c (s1 +:+ s2)) =
          separatorFree (String c s1) && separatorFree s2).
  cbn [separatorFree]. by rewrite IH, andb_assoc.
Qed.

Lemma isKeySeparator_space c : isKeySeparator c = false -> isSpace c = false.
Proof. unfold isKeySeparator. by intros [[? _]%orb_false_iff _]%orb_false_iff. Qed.

Lemma trimStart_free s : separatorFree s = true -> trimStart s = s.
Proof.
  destruct s as [|c s]; cbn; [done|].
  intros [Hc _]%andb_true_iff. apply negb_true_iff, isKeySeparator_space in Hc.
  by rewrite Hc.
Qed.

(** [trim] leaves a piece without white space as it is. *)
Lemma trim_free s : separatorFree s = true -> trim s = s.
Proof.
  intros Hs. unfold trim. rewrite (trimStart_free s Hs).
  rewrite trimStart_free; [apply rev_rev|].
  apply separatorFree_list. rewrite rev_list.
  apply List.Forall_rev. by apply separatorFree_list.
Qed.

Lemma splitOnRuns_free s cur b :
  separatorFree cur = true ->
  Forall (fun k => separatorFree k = true) (splitOnRuns isKeySeparator s cur b).
Proof.
  revert cur b. induction s as [|c s IH]; intros cur b Hcur; cbn.
  - by constructor.
  - destruct (isKeySeparator c) eqn:Hc.
    + destruct b; [by apply IH|]. constructor; [done|by apply IH].
    + apply IH. rewrite separatorFree_app, Hcur. cbn. by rewrite Hc.
Qed.

Lemma append_char cur c k : (cur +:+ String c "") +:+ k = cur +:+ String c k.
Proof.
  induction cur as [|a cur IH]; [done|].
  apply (f_equal (String a)) in IH. exact IH.
Qed.

Lemma append_empty k : k +:+ "" = k.
Proof.
  induction k as [|a k IH]; [done|].
  apply (f_equal (String a)) in IH. exact IH.
Qed.

(** Reading on through a piece without separators. *)
Lemma splitOnRuns_piece k s cur b :
  separatorFree k = true -> k <> "" ->
  splitOnRuns isKeySeparator (k +:+ s) cur b =
    splitOnRuns isKeySeparator s (cur +:+ k) false.
Proof.
  revert cur b. induction k as [|c k IH]; intros cur b Hk Hne; [done|].
  cbn in Hk. apply andb_true_iff in Hk as [Hc Hk]. apply negb_true_iff in Hc.
  change (String c k +:+ s) with (String c (k +:+ s)).
  cbn [splitOnRuns]. rewrite Hc. destruct k as [|c' k'].
  - done.
  - rewrite IH by done. by rewrite append_char.
Qed.

Lemma parseKeys_valid input :
  Forall (fun k => 20 < String.length k /\ separatorFree k = true) (parseKeys input).
Proof.
  unfold parseKeys. apply Forall_forall. intros k [Hlen Hin]%list_elem_of_filter.
  split; [done|].
  apply list_elem_of_fmap in Hin as (t & -> & Ht).
  pose proof (splitOnRuns_free input "" false eq_refl) as Hall.
  rewrite Forall_forall in Hall. specialize (Hall t Ht). by rewrite trim_free.
Qed.

(** X6. [handleConnectApi] only ever installs keys longer than 20 characters
    and free of separators and white space.  With such a key in the input the
    pool is replaced, the cursor goes back to 0 and the pool counts as
    connected; without one the engine is left as it was. *)
Theorem connect_installs_valid_keys input s :
  Forall (fun k => 20 < String.length k /\ separatorFree k = true) (parseKeys input) /\
  (parseKeys input = [] -> handleConnectApi input s = s) /\
  (parseKeys input <> [] ->
   apiKeys (handleConnectApi input s) = parseKeys input /\
   currentKeyIndex (handleConnectApi input s) = 0 /\
   currentKeyIndex (handleConnectApi input s) < length (apiKeys (handleConnectApi input s)) /\
   isApiConnected (handleConnectApi input s) = true /\
   nodes (handleConnectApi input s) = nodes s /\
   queue (handleConnectApi input s) = queue s /\
   task (handleConnectApi input s) = task s).
Proof.
  split; [apply parseKeys_valid|]. unfold handleConnectApi.
  destruct (parseKeys input) as [|k ks]; cbn; [done|].
  split; [done|]. intros _. repeat split; lia.
Qed.

Lemma splitOnRuns_join keys b :
  Forall (fun k => 20 < String.length k /\ separatorFree k = true) keys ->
  keys <> [] ->
  splitOnRuns isKeySeparator (joinWith "," keys) "" b = keys.
Proof.
  intros Hall. revert b. induction Hall as [|k rest [Hlen Hfree] Hrest IH]; intros b Hne; [done|].
  assert (Hk : k <> "") by (intros ->; cbn in Hlen; lia).
  cbn [joinWith]. destruct rest as [|k' rest'].
  - rewrite <- (append_empty k) at 1.
    rewrite splitOnRuns_piece by done. done.
  - rewrite splitOnRuns_piece by done. simpl.
    change (isKeySeparator ",") with true. cbn iota.
    rewrite IH by done. done.
Qed.

(** X7. Keys written one after the other with commas are read back as they
    are: for keys of ASCII characters, longer than 20 characters and free of
    separators, [parseKeys] of their comma-joined text is the list itself,
    in order. *)
Theorem parseKeys_join keys :
  Forall (fun k => asciiOnly k = true /\ 20 < String.length k /\
                   separatorFree k = true) keys ->
  keys <> [] ->
  parseKeys (joinWith "," keys) = keys.
Proof.
  intros Hascii Hne.
  assert (Hall : Forall (fun k => 20 < String.length k /\ separatorFree k = true) keys)
    by (eapply Forall_impl; [exact Hascii|]; by intros k (_ & ? & ?)).
  clear Hascii. unfold parseKeys. rewrite splitOnRuns_join by done.
  clear Hne. induction Hall as [|k rest [Hlen Hfree] _ IH]; [done|].
  rewrite fmap_cons, filter_cons, trim_free by done.
  rewrite decide_True by done. by rewrite IH.
Qed.

(** * The cost of one expansion and the key cursor *)

Lemma requestCount_app evs1 evs2 :
  requestCount (evs1 ++ evs2) = requestCount evs1 + requestCount evs2.
Proof. unfold requestCount. by rewrite List.filter_app, length_app. Qed.

Lemma requestCount_nil : requestCount [] = 0.
Proof. done. Qed.

Lemma requestCount_request keyIdx attempt evs :
  requestCount (Request keyIdx attempt :: evs) = S (requestCount evs).
Proof. done. Qed.

Lemma requestCount_sleep ms evs : requestCount (Sleep ms :: evs) = requestCount evs.
Proof. done. Qed.

Lemma sleepTotal_nil : sleepTotal [] = 0%Z.
Proof. done. Qed.

Lemma sleepTotal_request keyIdx attempt evs :
  sleepTotal (Request keyIdx attempt :: evs) = sleepTotal evs.
Proof. done. Qed.

Lemma sleepTotal_sleep ms evs : sleepTotal (Sleep ms :: evs) = (ms + sleepTotal evs)%Z.
Proof. done. Qed.

Lemma sleepTotal_app evs1 evs2 :
  sleepTotal (evs1 ++ evs2) = (sleepTotal evs1 + sleepTotal evs2)%Z.
Proof.
  induction evs1 as [|ev evs1 IH]; [done|].
  change ((ev :: evs1) ++ evs2) with (ev :: (evs1 ++ evs2)).
  destruct ev; rewrite ?sleepTotal_request, ?sleepTotal_sleep; lia.
Qed.

Lemma boundedEvent_mono lo hi lo' hi' ev :
  lo' <= lo -> hi <= hi' -> boundedEvent lo hi ev -> boundedEvent lo' hi' ev.
Proof. intros ? ?. destruct ev; cbn; [lia|done]. Qed.

Lemma prepend_nil {World : Type} (r : LoopState World) : prepend [] r = r.
Proof. by destruct r as [[[? ?] ?] ?]. Qed.

Lemma prepend_prepend {World : Type} evs1 evs2 (r : LoopState World) :
  prepend evs1 (prepend evs2 r) = prepend (evs1 ++ evs2) r.
Proof. destruct r as [[[? ?] ?] ?]. cbn. by rewrite app_assoc. Qed.

Section Effort.
Context {World : Type} `{Platform World}.
Variables (cur root : string) (d : nat).

Lemma attemptLoop_effort apiKey keyIdx remaining attempt le w :
  attempt + remaining = 3 ->
  let evs := (Gemini.attemptLoop cur root d apiKey keyIdx remaining attempt le w).2 in
  Forall (boundedEvent keyIdx (S keyIdx)) evs /\
  requestCount evs <= remaining /\
  (0 <= sleepTotal evs <= 10000 * Z.of_nat (remaining - 1))%Z.
Proof.
  revert attempt le w. induction remaining as [|remaining IH]; intros attempt le w Hsum.
  { cbn [Gemini.attemptLoop snd]. rewrite requestCount_nil, sleepTotal_nil.
    split; [constructor|]. lia. }
  assert (Hlast :
    Forall (boundedEvent keyIdx (S keyIdx)) [Request keyIdx attempt] /\
    requestCount [Request keyIdx attempt] <= S remaining /\
    (0 <= sleepTotal [Request keyIdx attempt] <= 10000 * Z.of_nat (S remaining - 1))%Z).
  { rewrite requestCount_request, sleepTotal_request,
      requestCount_nil, sleepTotal_nil.
    split; [|lia]. constructor; [|constructor]. cbn. lia. }
  assert (Hretry : forall ms e w1,
    attempt < 2 -> (ms = 10000 \/ ms = 2000 \/ ms = 4000)%Z ->
    let evs := (prepend [Request keyIdx attempt; Sleep ms]
                  (Gemini.attemptLoop cur root d apiKey keyIdx remaining (S attempt)
                                      (Some e) w1)).2 in
    Forall (boundedEvent keyIdx (S keyIdx)) evs /\
    requestCount evs <= S remaining /\
    (0 <= sleepTotal evs <= 10000 * Z.of_nat (S remaining - 1))%Z).
  { intros ms e w1 Ha Hms.
    assert (Hsum' : S attempt + remaining = 3) by lia.
    specialize (IH (S attempt) (Some e) w1 Hsum').
    destruct (Gemini.attemptLoop cur root d apiKey keyIdx remaining (S attempt) (Some e) w1)
      as [[[x le'] w2] evs]. cbn [prepend snd app] in IH |- *.
    destruct IH as (Hall & Hreq & Hsl).
    rewrite requestCount_request, sleepTotal_request, requestCount_sleep, sleepTotal_sleep.
    split; [|lia].
    constructor; [cbn; lia|]. by constructor. }
  destruct (Gemini.tryBody cur root d apiKey keyIdx w) as [[r|e] w1] eqn:Hbody.
  { rewrite (attemptLoop_ok _ _ _ _ _ _ _ _ _ _ _ Hbody). apply Hlast. }
  rewrite (attemptLoop_throw _ _ _ _ _ _ _ _ _ _ _ Hbody).
  destruct (Gemini.isQuotaError e).
  - destruct (attempt <? 2) eqn:Ha; [|apply Hlast].
    apply Nat.ltb_lt in Ha. apply Hretry; [done|by left].
  - destruct (attempt =? 2) eqn:Ha; [apply Hlast|].
    apply Nat.eqb_neq in Ha. apply Hretry; [lia|].
    destruct attempt as [|[|?]]; [by right; left|by right; right|lia].
Qed.

Lemma keyLoop_effort rest keyIdx le w :
  let evs := (Gemini.keyLoop cur root d rest keyIdx le w).2 in
  Forall (boundedEvent keyIdx (keyIdx + length rest)) evs /\
  requestCount evs <= 3 * length rest /\
  (0 <= sleepTotal evs <= 20000 * Z.of_nat (length rest))%Z.
Proof.
  revert keyIdx le w. induction rest as [|apiKey rest IH]; intros keyIdx le w.
  { cbn. split; [constructor|]. split; [done|lia]. }
  rewrite keyLoop_cons.
  pose proof (attemptLoop_effort apiKey keyIdx 3 0 le w eq_refl) as Hone.
  destruct (Gemini.attemptLoop cur root d apiKey keyIdx 3 0 le w) as [[[x le1] w1] evs1].
  cbn [snd] in Hone. destruct Hone as (Hall1 & Hreq1 & Hsl1).
  assert (Hwide : Forall (boundedEvent keyIdx (keyIdx + length (apiKey :: rest))) evs1).
  { eapply Forall_impl; [exact Hall1|]. intros ev. apply boundedEvent_mono; cbn; lia. }
  assert (Hnext :
    let evs := (prepend evs1 (Gemini.keyLoop cur root d rest (S keyIdx) le1 w1)).2 in
    Forall (boundedEvent keyIdx (keyIdx + length (apiKey :: rest))) evs /\
    requestCount evs <= 3 * length (apiKey :: rest) /\
    (0 <= sleepTotal evs <= 20000 * Z.of_nat (length (apiKey :: rest)))%Z).
  { specialize (IH (S keyIdx) le1 w1).
    destruct (Gemini.keyLoop cur root d rest (S keyIdx) le1 w1) as [[[x' le'] w2] evs2].
    cbn [prepend snd] in IH |- *. destruct IH as (Hall2 & Hreq2 & Hsl2).
    rewrite requestCount_app, sleepTotal_app. cbn [length]. split; [|lia].
    apply Forall_app. split; [done|].
    eapply Forall_impl; [exact Hall2|]. intros ev. apply boundedEvent_mono; lia. }
  destruct x; [ | |exact Hnext|exact Hnext]; cbn [snd length]; cbn [length] in Hwide;
    (split; [done|]; lia).
Qed.


(** X8. One expansion costs a bounded effort, whatever the oracle does: the
    requests of [fetchPageLinks] go to keys from the start index to the end
    of the pool, at most three to each; every wait is a 10 s cooldown or a
    2 s or 4 s backoff, and the waits add up to at most 20 s for each key
    from the start index on. *)
Theorem fetch_effort_bounded keys startIndex w :
  let evs := (Gemini.fetchPageLinks keys cur root d startIndex w).2 in
  Forall (boundedEvent startIndex (length keys)) evs /\
  requestCount evs <= 3 * (length keys - startIndex) /\
  (0 <= sleepTotal evs <= 20000 * Z.of_nat (length keys - startIndex))%Z.
Proof.
  unfold Gemini.fetchPageLinks.
  assert (Hnone : Forall (boundedEvent startIndex (length keys)) [] /\
                  requestCount [] <= 3 * (length keys - startIndex) /\
                  (0 <= sleepTotal [] <= 20000 * Z.of_nat (length keys - startIndex))%Z).
  { split; [constructor|]. cbn. lia. }
  case_bool_decide; [exact Hnone|].
  destruct (negb _); [exact Hnone|].
  pose proof (keyLoop_effort (drop startIndex keys) startIndex None w) as Hk.
  destruct (Gemini.keyLoop _ _ _ _ _ _ _) as [[[x le] w2] evs2].
  cbn [snd] in Hk. rewrite length_drop in Hk. destruct Hk as (Hall & Hreq & Hsl).
  assert (Hall' : Forall (boundedEvent startIndex (length keys)) evs2).
  { eapply Forall_impl; [exact Hall|]. intros ev. destruct ev; cbn; [lia|done]. }
  destruct x; [| |destruct le|destruct le]; cbn; done.
Qed.

(** The key loop passes over keys that only get quota signals. *)
Lemma keyLoop_skips_quota bad tail keyIdx le w :
  alwaysQuota cur root bad ->
  exists le' w1,
    Gemini.keyLoop cur root d (bad ++ tail) keyIdx le w =
      prepend (flat_map (threeAttempts 10000 10000) (seq keyIdx (length bad)))
              (Gemini.keyLoop cur root d tail (keyIdx + length bad) le' w1).
Proof.
  revert keyIdx le w. induction bad as [|apiKey bad IH]; intros keyIdx le w Hq.
  { exists le, w. cbn. by rewrite Nat.add_0_r, prepend_nil. }
  destruct (attemptLoop_all_quota cur root d (apiKey :: bad) Hq apiKey keyIdx le w)
    as (e & w1 & _ & Hone); [by left|].
  assert (Hq' : alwaysQuota cur root bad).
  { intros w0 k Hk. apply Hq. by right. }
  destruct (IH (S keyIdx) (Some e) w1 Hq') as (le' & w2 & Hrest).
  exists le', w2. cbn [app]. rewrite keyLoop_cons, Hone, Hrest, prepend_prepend.
  cbn [length seq flat_map]. by rewrite Nat.add_succ_r.
Qed.

(** X9. Rotation lands on the first key that works: when the keys [bad]
    from the start index on only get quota signals and an attempt with the
    next key [good] succeeds, [fetchPageLinks] returns that attempt's result
    with [usedKeyIndex] the index of [good], after three requests and two
    10 s cooldowns on each bad key and one request to [good]; no later key
    is asked. *)
Theorem failover_reaches_working_key pre bad good rest w :
  guessContentType cur = TextHtml ->
  alwaysQuota cur root bad ->
  (forall w0 keyIdx, exists r w1,
     Gemini.tryBody cur root d good keyIdx w0 = (Ok r, w1)) ->
  exists r w1,
    Gemini.fetchPageLinks (pre ++ bad ++ good :: rest) cur root d (length pre) w =
      (Ok r, w1,
       flat_map (threeAttempts 10000 10000) (seq (length pre) (length bad)) ++
       [Request (length pre + length bad) 0]) /\
    usedKeyIndex r = length pre + length bad.
Proof.
  intros Hhtml Hq Hgood.
  rewrite fetchPageLinks_html; [|by destruct pre, bad|done].
  rewrite drop_app_length.
  destruct (keyLoop_skips_quota bad (good :: rest) (length pre) None w Hq)
    as (le' & w1 & ->).
  destruct (Hgood w1 (length pre + length bad)) as (r & w2 & Hok).
  rewrite keyLoop_cons, (attemptLoop_ok _ _ _ _ _ _ _ _ _ _ _ Hok). cbn.
  exists r, w2. split; [done|].
  by destruct (tryBody_Ok _ _ _ _ _ _ _ _ Hok) as [_ ->].
Qed.

End Effort.

Lemma failover_reaches_working_key_witness :
  exists r w1,
    @Gemini.fetchPageLinks nat pickyPlatform (["k-old"] ++ ["k-bad"] ++ "k-good" :: ["k-next"])
       "https://example.test/" "https://example.test/" 0 (length ["k-old"]) 0 =
      (Ok r, w1,
       flat_map (threeAttempts 10000 10000) (seq (length ["k-old"]) (length ["k-bad"])) ++
       [Request (length ["k-old"] + length ["k-bad"]) 0]) /\
    usedKeyIndex r = length ["k-old"] + length ["k-bad"].
Proof.
  apply (@failover_reaches_working_key nat pickyPlatform
           "https://example.test/" "https://example.test/" 0 ["k-old"] ["k-bad"] "k-good"
           ["k-next"] 0).
  - reflexivity.
  - intros w apiKey Hk. apply list_elem_of_singleton in Hk as ->.
    exists quotaError, (S w). split; reflexivity.
  - intros w0 keyIdx. eexists _, _. vm_compute. reflexivity.
Defined.

Section Requests.
Context {World : Type} `{Platform World}.
Variables (cur root : string) (d : nat).


End Requests.

Section Cursor.
Context {World : Type} `{Platform World}.
Variable config : CrawlConfig.

(** What a resumed step writes: the entry of the current node, scanned with
    status 200 or failed with one of three codes, and the key cursor. *)
Lemma resumeQueue_marks c s w :
  exists added c',
    nodes (resumeQueue config c s w).1.1 = updateNodes c' (nodes s ++ added) /\
    Forall (childOf (url c) (depth c)) added /\
    (c' = setNode_scanned true (setNode_status (JStr "200") c) \/
     exists err, c' = setNode_status (JStr (failedStatus err)) c) /\
    currentKeyIndex (resumeQueue config c s w).1.1 =
      match (Gemini.fetchPageLinks (apiKeys s) (url c) (cfg_url config) (depth c)
                                   (currentKeyIndex s) w).1.1 with
      | Ok r => usedKeyIndex r
      | Throw _ => currentKeyIndex s
      end.
Proof.
  unfold resumeQueue.
  destruct (Gemini.fetchPageLinks _ _ _ _ _ _) as [[[r|e] w1] evs] eqn:Hf; cbn [fst snd].
  - set (s1 := if bool_decide _ then s else _).
    assert (Hs1 : nodes s1 = nodes s /\ currentKeyIndex s1 = usedKeyIndex r).
    { unfold s1. by case_bool_decide. }
    destruct Hs1 as [Hn1 Hk1].
    destruct (mergeChildren (links r) s1) as [s2 err] eqn:Hm.
    destruct (mergeChildren_spec _ _ _ _ Hm)
      as (added & Hsub & Hn & _ & _ & _ & _ & _ & _ & _ & _ & _ & Hk & _).
    assert (Hch : Forall (childOf (url c) (depth c)) added).
    { pose proof (fetchPageLinks_childOf _ _ _ _ _ _ _ _ _ Hf) as Hall.
      rewrite Forall_forall in Hall |- *. intros n Hin. apply Hall.
      by eapply sublist_subseteq. }
    rewrite Hn1 in Hn. exists added.
    destruct err as [err|].
    + exists (setNode_status (JStr (failedStatus err)) c). cbn. rewrite Hn.
      split; [done|]. split; [done|]. split; [right; by eexists|congruence].
    + exists (setNode_scanned true (setNode_status (JStr "200") c)).
      unfold setStats. cbn [nodes queue updateNodeState withNodes stats].
      destruct (statsUpdater _ _ _ _ _); cbn; rewrite Hn;
        (split; [done|]; split; [done|]; split; [by left|congruence]).
  - exists [], (setNode_status (JStr (failedStatus e)) c). cbn. rewrite app_nil_r.
    split; [done|]. split; [constructor|]. split; [right; by eexists|done].
Qed.






End Cursor.


(** * The reply text and the classifier *)

Lemma prefix_backtick pat c r :
  Ascii.eqb c "`" = false -> String.prefix (String "`" pat) (String c r) = false.
Proof.
  intros Hc.
  change (String.prefix (String "`" pat) (String c r))
    with (match ascii_dec "`" c with
          | left _ => String.prefix pat r
          | right _ => false
          end).
  destruct (ascii_dec "`" c) as [<-|]; [|done].
  by rewrite Ascii.eqb_refl in Hc.
Qed.

(** A pattern that begins with a backtick leaves text without backticks
    as it is. *)
Lemma removeAllFrom_free pat body t :
  noBacktick body = true ->
  removeAllFrom (String "`" pat) 0 (body +:+ t) =
    body +:+ removeAllFrom (String "`" pat) 0 t.
Proof.
  induction body as [|c body IH]; [done|].
  intros [Hc Hb]%andb_true_iff. apply negb_true_iff in Hc.
  change (String c body +:+ t) with (String c (body +:+ t)).
  cbn [removeAllFrom]. rewrite prefix_backtick by done.
  rewrite IH by done. done.
Qed.

Lemma removeAll_free pat body :
  noBacktick body = true -> removeAll (String "`" pat) body = body.
Proof.
  intros Hb. unfold removeAll. rewrite <- (append_empty body) at 1.
  rewrite removeAllFrom_free by done. cbn [removeAllFrom]. apply append_empty.
Qed.

(** X11. The code fence is transparent: for a reply body without backticks,
    the text wrapped in a json code fence is cleaned to the same string as
    the bare body, which is the body trimmed. *)
Theorem fenced_reply_is_unwrapped body :
  noBacktick body = true ->
  Gemini.cleanText ("```json" +:+ body +:+ "```") = trim body /\
  Gemini.cleanText body = trim body.
Proof.
  intros Hb. unfold Gemini.cleanText. split.
  - assert (Hopen : forall t, removeAll "```json" ("```json" +:+ t) =
                                removeAllFrom "```json" 0 t)
      by (by intros [|? ?]).
    rewrite Hopen, removeAllFrom_free by done.
    assert (Hclose : removeAllFrom "```json" 0 "```" = "```") by reflexivity.
    rewrite Hclose. unfold removeAll. rewrite removeAllFrom_free by done.
    assert (Hlast : removeAllFrom "```" 0 "```" = "") by reflexivity.
    by rewrite Hlast, append_empty.
  - by rewrite (removeAll_free _ body Hb), (removeAll_free _ body Hb).
Qed.

Lemma fenced_reply_is_unwrapped_witness :
  Gemini.cleanText ("```json" +:+ " [1, 2] " +:+ "```") = trim " [1, 2] " /\
  Gemini.cleanText " [1, 2] " = trim " [1, 2] ".
Proof. apply (fenced_reply_is_unwrapped " [1, 2] "). reflexivity. Defined.

Lemma lowerAscii_idem c : lowerAscii (lowerAscii c) = lowerAscii c.
Proof. destruct c as [[] [] [] [] [] [] [] []]; reflexivity. Qed.

Lemma toLowerCase_idem u : toLowerCase (toLowerCase u) = toLowerCase u.
Proof. induction u as [|c u IH]; [done|]. cbn. by rewrite lowerAscii_idem, IH. Qed.

Lemma toLowerCase_app p u : toLowerCase (p +:+ u) = toLowerCase p +:+ toLowerCase u.
Proof.
  induction p as [|c p IH]; [done|].
  change (String c p +:+ u) with (String c (p +:+ u)). cbn [toLowerCase].
  by rewrite IH.
Qed.

Lemma toLowerCase_length u : String.length (toLowerCase u) = String.length u.
Proof. induction u as [|c u IH]; [done|]. cbn. by rewrite IH. Qed.

Lemma length_app_string p u : String.length (p +:+ u) = String.length p + String.length u.
Proof.
  induction p as [|c p IH]; [done|].
  change (String c p +:+ u) with (String c (p +:+ u)). cbn [String.length].
  by rewrite IH.
Qed.

Lemma substring_skip p n m s :
  String.substring (String.length p + n) m (p +:+ s) = String.substring n m s.
Proof. induction p as [|c p IH]; [done|]. exact IH. Qed.

(** Whether a string ends with [e] is decided by its last characters. *)
Lemma endsWith_app e p u :
  String.length e <= String.length u -> endsWith e (p +:+ u) = endsWith e u.
Proof.
  intros Hlen. unfold endsWith. rewrite length_app_string.
  replace (String.length p + String.length u - String.length e)
    with (String.length p + (String.length u - String.length e)) by lia.
  rewrite substring_skip.
  destruct (Nat.leb_spec (String.length e) (String.length u)); [|lia].
  destruct (Nat.leb_spec (String.length e) (String.length p + String.length u)); [done|lia].
Qed.

(** X12. The classifier reads the end of the URL and nothing else: the
    content type never is [Other], it does not depend on the case of the
    letters, and it is the same for any two URLs with the same last five
    characters, so all that precedes them, the host and the path, has no
    say. *)
Theorem classifier_reads_the_ending u :
  guessContentType u <> Other /\
  guessContentType (toLowerCase u) = guessContentType u /\
  (forall p, 5 <= String.length u -> guessContentType (p +:+ u) = guessContentType u).
Proof.
  split; [|split].
  - unfold guessContentType. by repeat destruct (matchesExt _ _).
  - unfold guessContentType, matchesExt. by rewrite toLowerCase_idem.
  - intros p Hlen. unfold guessContentType, matchesExt. cbn [existsb].
    rewrite toLowerCase_app.
    by rewrite !endsWith_app by (rewrite toLowerCase_length; cbn; lia).
Qed.

Lemma classifier_reads_the_ending_witness :
  guessContentType "/logo.PNG" <> Other /\
  guessContentType (toLowerCase "/logo.PNG") = guessContentType "/logo.PNG" /\
  guessContentType ("https://example.test" +:+ "/logo.PNG") = guessContentType "/logo.PNG".
Proof.
  destruct (classifier_reads_the_ending "/logo.PNG") as (Hother & Hcase & Hend).
  split; [exact Hother|]. split; [exact Hcase|].
  apply (Hend "https://example.test"). cbn. lia.
Defined.

(** * The status of the crawl and of its nodes *)

Section Status.
Context {World : Type} `{Platform World}.
Variable config : CrawlConfig.

Lemma statusFlag_run h s w :
  run config h s w ->
  (isRunning s = true <-> crawlStatus s = RUNNING) /\
  (task s = NoTask <-> crawlStatus s = COMPLETED) /\
  (crawlStatus s = RUNNING \/ crawlStatus s = IDLE \/ crawlStatus s = COMPLETED).
Proof.
  assert (Hpq : forall s0,
            (isRunning s0 = true <-> crawlStatus s0 = RUNNING) ->
            (isRunning (processQueue config s0) = true <->
               crawlStatus (processQueue config s0) = RUNNING) /\
            (task (processQueue config s0) = NoTask <->
               crawlStatus (processQueue config s0) = COMPLETED) /\
            (crawlStatus (processQueue config s0) = RUNNING \/
             crawlStatus (processQueue config s0) = IDLE \/
             crawlStatus (processQueue config s0) = COMPLETED)).
  { intros s0 Hflag. destruct (terminates config s0) eqn:Ht.
    - destruct (processQueue_finish config s0 Ht) as [-> _]. cbn.
      split; [done|]. split; [done|]. by right; right.
    - destruct (terminates_false config s0 Ht) as (Hr & _).
      destruct (processQueue_dequeue config s0 Ht)
        as (c & rest & _ & _ & _ & _ & -> & -> & _ & _ & _ & _ & _ & _ & _ & _ & _ & _ & Hcase).
      pose proof (proj1 Hflag Hr) as Hs. rewrite Hs.
      split; [by split|]. split; [|by left].
      destruct Hcase as [(_ & -> & _)|(_ & -> & _)]; done. }
  intros Hrun.
  induction Hrun as [s0 w Ht Hc|h s w _ IH Ht|h s w c _ IH Ht|h s w _ IH Hc].
  - unfold startRecursiveCrawl. rewrite Hc. by apply Hpq.
  - apply Hpq, IH.
  - destruct (resumeQueue_spec config c s w)
      as (_ & _ & _ & _ & _ & _ & _ & _ & -> & -> & -> & _).
    destruct IH as (Hflag & Htask & Hset). split; [done|]. split; [|done].
    rewrite <- Htask, Ht. done.
  - destruct IH as (Hflag & Htask & Hset). cbn.
    split; [done|]. split; [|by right; left].
    rewrite Htask, Hc. done.
Qed.

(** X13. The status shown follows the engine: with an oracle whose statuses
    are strings, in every state of a crawl started with no step of an
    earlier crawl pending, the run flag is set exactly when the status is
    RUNNING, nothing is pending on the event loop exactly when the status
    is COMPLETED, and the status is RUNNING, IDLE or COMPLETED, never
    PAUSED or FAILED. *)
Theorem status_tracks_engine h s w :
  stringStatuses ->
  run config h s w ->
  (isRunning s = true <-> crawlStatus s = RUNNING) /\
  (task s = NoTask <-> crawlStatus s = COMPLETED) /\
  crawlStatus s <> PAUSED /\ crawlStatus s <> FAILED.
Proof.
  intros _ Hrun. destruct (statusFlag_run h s w Hrun) as (Hflag & Htask & Hset).
  split; [done|]. split; [done|].
  destruct Hset as [->|[->| ->]]; done.
Qed.

Lemma marks_run h s w :
  run config h s w ->
  Forall (fun n => scanned n = true -> status n = JStr "200") (nodes s) /\
  Forall (fun n => scanned n = false) (queue s) /\
  (forall c, task s = Awaiting c -> scanned c = false /\ status c = JStr "scanning").
Proof.
  revert h s w. apply (run_invariant config (fun _ s =>
    Forall (fun n => scanned n = true -> status n = JStr "200") (nodes s) /\
    Forall (fun n => scanned n = false) (queue s) /\
    (forall c, task s = Awaiting c -> scanned c = false /\ status c = JStr "scanning"))).
  - intros s0. cbn. split; [|split; [|done]]; by repeat constructor.
  - intros h s (Hn & Hq & Hc) _. destruct (terminates config s) eqn:Ht.
    + destruct (processQueue_finish config s Ht) as [-> _]. cbn. by split.
    + destruct (processQueue_dequeue config s Ht)
        as (c & rest & Hqs & _ & -> & _ & _ & _ & _ & _ & _ & _ & _ & _ & _ & _ & _ & _ & Hcase).
      rewrite Hqs in Hq. apply Forall_cons in Hq as [Hsc Hrest].
      destruct Hcase as [(_ & -> & ->)|(_ & -> & ->)]; [by split|].
      split; [|split; [done|by intros ? [= <-]]].
      apply Forall_forall. intros n [Hin| ->]%updateNodes_elem.
      * rewrite Forall_forall in Hn. by apply Hn.
      * cbn. congruence.
  - intros h s w c (Hn & Hq & Hc) Htask. destruct (Hc c Htask) as [Hsc _].
    destruct (resumeQueue_spec config c s w)
      as (added & _ & _ & -> & _ & _ & _ & Hch & -> & _).
    destruct (resumeQueue_marks config c s w) as (added' & c' & -> & Hch' & Hc' & _).
    split; [|split; [|done]].
    + apply Forall_forall. intros n [[Hin|Hin]%elem_of_app| ->]%updateNodes_elem.
      * rewrite Forall_forall in Hn. by apply Hn.
      * rewrite Forall_forall in Hch'. destruct (Hch' n Hin) as (_ & _ & _ & _ & Hs).
        congruence.
      * destruct Hc' as [->|[err ->]]; [done|]. cbn. congruence.
    + apply Forall_app. split; [done|].
      apply Forall_forall. intros n [_ Hin]%list_elem_of_filter.
      rewrite Forall_forall in Hch. by destruct (Hch n Hin) as (_ & _ & _ & _ & Hs).
  - intros h s IH. apply IH.
Qed.

(** X14. A node counts as scanned only with status 200: in every state of a
    run each scanned node of the node list has status 200, no node of the
    frontier is scanned, and the node in flight is unscanned with status
    scanning. *)
Theorem scanned_means_status_200 h s w :
  run config h s w ->
  (forall n, n ∈ nodes s -> scanned n = true -> status n = JStr "200") /\
  (forall n, n ∈ queue s -> scanned n = false) /\
  (forall c, task s = Awaiting c -> scanned c = false /\ status c = JStr "scanning").
Proof.
  intros Hrun. destruct (marks_run h s w Hrun) as (Hn & Hq & Hc).
  rewrite Forall_forall in Hn. rewrite Forall_forall in Hq. done.
Qed.

(** X15. Disconnecting the pool while the one step in flight still waits
    out its delay, before it calls the oracle client, ends the crawl: the
    step then makes no request, marks its node with 500 and adds nothing;
    the timer it sets finds the run flag cleared and finishes the crawl as
    COMPLETED without asking for a report, and the crawl cannot be started
    again before a pool is connected.  A disconnect that lands during the
    oracle call is another case: the call goes on with the pool it was
    given. *)
Theorem disconnect_ends_the_crawl c s w :
  task s = Awaiting c ->
  crawlStatus s = RUNNING ->
  let s1 := handleDisconnectApi s in
  let r := resumeQueue config c s1 w in
  let s3 := processQueue config r.1.1 in
  r.1.2 = w /\ r.2 = [Sleep (delay config)] /\
  nodes r.1.1 = updateNodes (setNode_status (JStr "500") c) (nodes s) /\
  queue r.1.1 = queue s /\ visited r.1.1 = visited s /\
  crawlStatus s3 = COMPLETED /\ task s3 = NoTask /\ reports s3 = reports s /\
  nodes s3 = nodes r.1.1 /\ canStart config s3 = false.
Proof.
  intros _ Hc. unfold handleDisconnectApi. rewrite bool_decide_eq_true_2 by done.
  cbn. unfold canStart. cbn. by rewrite andb_false_r.
Qed.

End Status.

Lemma status_tracks_engine_witness :
  (isRunning (Scenario.final 10) = true <-> crawlStatus (Scenario.final 10) = RUNNING) /\
  (task (Scenario.final 10) = NoTask <-> crawlStatus (Scenario.final 10) = COMPLETED) /\
  crawlStatus (Scenario.final 10) <> PAUSED /\ crawlStatus (Scenario.final 10) <> FAILED.
Proof.
  exact (@status_tracks_engine nat examplePlatform (Scenario.cfg 10)
           (Scenario.finalHistory 10) (Scenario.final 10) (Scenario.drainedWorld 10)
           ScenarioRuns.example_stringStatuses ScenarioRuns.runFinal).
Defined.

Lemma scanned_means_status_200_witness :
  (forall n, n ∈ nodes (Scenario.s4 10) -> scanned n = true -> status n = JStr "200") /\
  (forall n, n ∈ queue (Scenario.s4 10) -> scanned n = false) /\
  (forall c, task (Scenario.s4 10) = Awaiting c ->
     scanned c = false /\ status c = JStr "scanning").
Proof.
  exact (@scanned_means_status_200 nat examplePlatform (Scenario.cfg 10)
           (Scenario.h3 10) (Scenario.s4 10) (Scenario.w4 10) ScenarioRuns.run4).
Defined.

Lemma disconnect_ends_the_crawl_witness :
  let config := Scenario.cfg 10 in
  let s1 := handleDisconnectApi (Scenario.s1 10) in
  let r := @resumeQueue nat examplePlatform config (Scenario.c1 10) s1 0 in
  let s3 := processQueue config r.1.1 in
  r.1.2 = 0 /\ r.2 = [Sleep (delay config)] /\
  nodes r.1.1 =
    updateNodes (setNode_status (JStr "500") (Scenario.c1 10)) (nodes (Scenario.s1 10)) /\
  queue r.1.1 = queue (Scenario.s1 10) /\ visited r.1.1 = visited (Scenario.s1 10) /\
  crawlStatus s3 = COMPLETED /\ task s3 = NoTask /\ reports s3 = reports (Scenario.s1 10) /\
  nodes s3 = nodes r.1.1 /\ canStart config s3 = false.
Proof.
  apply (@disconnect_ends_the_crawl nat examplePlatform (Scenario.cfg 10)
           (Scenario.c1 10) (Scenario.s1 10) 0).
  - apply ScenarioRuns.task1. lia.
  - reflexivity.
Defined.

(** * The views of the node list *)

Lemma includes_empty s : includes "" s = true.
Proof. by destruct s. Qed.

Lemma filterNodes_total f g l :
  (forall n, f n = Some (g n)) -> filterNodes f l = Some (List.filter g l).
Proof.
  intros Hf. induction l as [|n l IH]; [done|].
  cbn [filterNodes List.filter]. by rewrite Hf, IH.
Qed.

Lemma filter_bool_sublist {A} (g : A -> bool) (l : list A) : List.filter g l `sublist_of` l.
Proof.
  induction l as [|x l IH]; [done|]. cbn.
  destruct (g x); [by apply sublist_skip|by apply sublist_cons].
Qed.

Lemma filter_bool_split {A} (g r : A -> bool) (l : list A) :
  List.filter (fun x => g x && r x) l ++ List.filter (fun x => g x && negb (r x)) l
    ≡ₚ List.filter g l.
Proof.
  induction l as [|x l IH]; [done|]. cbn.
  destruct (g x), (r x); cbn; [by rewrite IH| |done|done].
  by rewrite <- Permutation_middle, IH.
Qed.

Lemma filter_bool_all {A} (g : A -> bool) (l : list A) :
  (forall x, g x = true) -> List.filter g l = l.
Proof. intros Hg. induction l as [|x l IH]; [done|]. cbn. by rewrite Hg, IH. Qed.

(** X16. The views of the node table: the filters all, assets and pages
    never throw; what all shows is a sublist of the node list, and the whole
    list when the search box is empty; assets and pages split it in two, a
    node being shown by exactly one of them according to its type. *)
Theorem filter_views_partition searchTerm l :
  exists shown assets pages,
    filteredNodes "all" searchTerm l = Some shown /\
    filteredNodes "assets" searchTerm l = Some assets /\
    filteredNodes "pages" searchTerm l = Some pages /\
    shown `sublist_of` l /\
    assets ++ pages ≡ₚ shown /\
    Forall (fun n => isResource n = true) assets /\
    Forall (fun n => isResource n = false) pages /\
    (searchTerm = "" -> shown = l).
Proof.
  exists (List.filter (matchesSearch searchTerm) l),
         (List.filter (fun n => matchesSearch searchTerm n && isResource n) l),
         (List.filter (fun n => matchesSearch searchTerm n && negb (isResource n)) l).
  split; [|split; [|split]].
  - apply filterNodes_total. intros n. unfold matchesFilter. cbn. by rewrite andb_true_r.
  - by apply filterNodes_total.
  - by apply filterNodes_total.
  - split; [apply filter_bool_sublist|]. split; [apply filter_bool_split|].
    split; [|split].
    + apply Forall_forall. intros n Hn. apply list_elem_of_In, filter_In in Hn as [_ Hn].
      by apply andb_true_iff in Hn as [_ ?].
    + apply Forall_forall. intros n Hn. apply list_elem_of_In, filter_In in Hn as [_ Hn].
      apply andb_true_iff in Hn as [_ Hn]. by apply negb_true_iff.
    + intros ->. apply filter_bool_all. intros n. apply includes_empty.
Qed.

Lemma filter_views_partition_witness :
  exists shown assets pages,
    filteredNodes "all" "" (nodes (Scenario.s4 10)) = Some shown /\
    filteredNodes "assets" "" (nodes (Scenario.s4 10)) = Some assets /\
    filteredNodes "pages" "" (nodes (Scenario.s4 10)) = Some pages /\
    shown `sublist_of` nodes (Scenario.s4 10) /\
    assets ++ pages ≡ₚ shown /\
    Forall (fun n => isResource n = true) assets /\
    Forall (fun n => isResource n = false) pages /\
    ("" = "" -> shown = nodes (Scenario.s4 10)).
Proof. exact (filter_views_partition "" (nodes (Scenario.s4 10))). Defined.

Lemma startsWith_4_not_5 st : startsWith "4" st = true -> startsWith "5" st = false.
Proof.
  unfold startsWith. destruct st as [|c st]; [done|].
  change (String.prefix "4" (String c st))
    with (match ascii_dec "4" c with left _ => String.prefix "" st | right _ => false end).
  change (String.prefix "5" (String c st))
    with (match ascii_dec "5" c with left _ => String.prefix "" st | right _ => false end).
  destruct (ascii_dec "4" c) as [<-|]; [|done]. intros _.
  by destruct (ascii_dec "5" "4").
Qed.

(** X17. The filter broken shows more than the error count counts: where
    the error count of the statistics is defined, the filter does not throw,
    and with an empty search box it shows as many nodes as the error count
    says plus the nodes whose status begins with 5.  A page whose expansion
    failed with status 500 is shown as broken and is not counted as an
    error. *)
Theorem broken_filter_exceeds_error_count l e :
  countErrors l = Some e ->
  exists shown,
    filteredNodes "broken" "" l = Some shown /\
    length shown =
      e + length (filter (fun n => statusStartsWith "5" n = Some true) l).
Proof.
  revert e. induction l as [|n l IH]; intros e.
  { intros [= <-]. by exists []. }
  cbn [countErrors]. unfold statusStartsWith4.
  destruct (status n) as [| | |st| |] eqn:Hst; try done.
  destruct (countErrors l) as [k|]; [|done]. intros [= <-].
  destruct (IH k eq_refl) as (shown & Hshown & Hlen).
  unfold filteredNodes in *. cbn [filterNodes]. rewrite Hshown.
  assert (Hm : matchesFilter "broken" "" n =
               Some (startsWith "4" st || startsWith "5" st)).
  { unfold matchesFilter, matchesSearch. cbn [toLowerCase].
    rewrite includes_empty.
    change (matchesType "broken" n)
      with (match statusStartsWith "4" n with
            | Some true => Some true
            | Some false => statusStartsWith "5" n
            | None => None
            end).
    unfold statusStartsWith. rewrite Hst. by destruct (startsWith "4" st). }
  assert (H5 : statusStartsWith "5" n = Some (startsWith "5" st))
    by (unfold statusStartsWith; by rewrite Hst).
  rewrite Hm, filter_cons.
  destruct (startsWith "4" st) eqn:H4.
  - rewrite (startsWith_4_not_5 st H4) in H5 |- *. cbn [orb].
    exists (n :: shown). split; [done|].
    rewrite decide_False by (rewrite H5; by intros [=]). cbn. lia.
  - cbn [orb]. destruct (startsWith "5" st).
    + exists (n :: shown). split; [done|]. rewrite decide_True by done. cbn. lia.
    + exists shown. split; [done|].
      rewrite decide_False by (rewrite H5; by intros [=]). lia.
Qed.

Lemma broken_filter_exceeds_error_count_witness :
  let failed := setNode_status (JStr "500") (Scenario.c1 10) in
  exists shown,
    filteredNodes "broken" "" [failed] = Some shown /\
    length shown =
      0 + length (filter (fun n => statusStartsWith "5" n = Some true) [failed]).
Proof.
  apply (broken_filter_exceeds_error_count
           [setNode_status (JStr "500") (Scenario.c1 10)] 0).
  reflexivity.
Defined.

(** * The depth chart *)

Lemma bump_above k d counts :
  k < d -> Forall (fun e => k < e.1) counts -> Forall (fun e => k < e.1) (bump d counts).
Proof.
  intros Hk. induction 1 as [|[k' c] rest Hh Hrest IH]; cbn [bump].
  { constructor; [cbn; lia|constructor]. }
  destruct (d =? k'); [by constructor|].
  destruct (d <? k').
  - constructor; [cbn; lia|]. by constructor.
  - by constructor.
Qed.

Lemma bump_sorted d counts :
  StronglySorted byLevel counts -> StronglySorted byLevel (bump d counts).
Proof.
  induction 1 as [|[k c] rest Hs IH Hall]; cbn [bump].
  { by repeat constructor. }
  destruct (Nat.eqb_spec d k) as [->|Hdk]; [by constructor|].
  destruct (Nat.ltb_spec d k) as [Hlt|Hge].
  - constructor; [by constructor|].
    constructor; [done|]. eapply Forall_impl; [exact Hall|].
    intros e He. unfold byLevel in *. cbn in *. lia.
  - constructor; [done|]. apply (bump_above k d rest); [lia|done].
Qed.

Lemma lookupCount_above d counts :
  Forall (fun e => d < e.1) counts -> lookupCount d counts = 0.
Proof.
  induction 1 as [|[k c] rest Hh Hrest IH]; [done|]. cbn [lookupCount]. cbn in Hh.
  destruct (Nat.eqb_spec d k); [lia|done].
Qed.

Lemma lookupCount_bump d' d counts :
  StronglySorted byLevel counts ->
  lookupCount d' (bump d counts) = lookupCount d' counts + (if d' =? d then 1 else 0).
Proof.
  induction 1 as [|[k c] rest Hs IH Hall]; cbn [bump lookupCount].
  { by destruct (d' =? d). }
  destruct (Nat.eqb_spec d k) as [->|Hdk]; cbn [lookupCount].
  { destruct (d' =? k); lia. }
  destruct (Nat.ltb_spec d k) as [Hlt|Hge]; cbn [lookupCount].
  - destruct (Nat.eqb_spec d' d) as [->|Hd']; [|lia].
    destruct (Nat.eqb_spec d k); [lia|].
    rewrite lookupCount_above; [done|].
    eapply Forall_impl; [exact Hall|]. intros e He. unfold byLevel in He. cbn in *. lia.
  - rewrite IH. destruct (Nat.eqb_spec d' k) as [->|]; [|done].
    destruct (Nat.eqb_spec k d); lia.
Qed.

Lemma bump_positive d counts :
  Forall (fun e => 0 < e.2) counts -> Forall (fun e => 0 < e.2) (bump d counts).
Proof.
  induction 1 as [|[k c] rest Hh Hrest IH]; cbn [bump].
  { constructor; [cbn; lia|constructor]. }
  destruct (d =? k); [constructor; [cbn; lia|done]|].
  destruct (d <? k).
  - constructor; [cbn; lia|]. by constructor.
  - by constructor.
Qed.

Lemma bump_sum d counts : sum_list (snd <$> bump d counts) = S (sum_list (snd <$> counts)).
Proof.
  induction counts as [|[k c] rest IH]; [done|]. cbn [bump].
  destruct (d =? k); [done|]. destruct (d <? k); [done|].
  rewrite !fmap_cons. cbn [sum_list snd]. rewrite IH. lia.
Qed.

Lemma nodesAt_cons d n l :
  nodesAt d (n :: l) = (if depth n =? d then 1 else 0) + nodesAt d l.
Proof.
  unfold nodesAt. rewrite filter_cons.
  destruct (Nat.eqb_spec (depth n) d); [by rewrite decide_True|by rewrite decide_False].
Qed.

Lemma depthCounts_fold l counts :
  StronglySorted byLevel counts -> Forall (fun e => 0 < e.2) counts ->
  let counts' := foldl (fun counts n => bump (depth n) counts) counts l in
  StronglySorted byLevel counts' /\ Forall (fun e => 0 < e.2) counts' /\
  sum_list (snd <$> counts') = sum_list (snd <$> counts) + length l /\
  forall d, lookupCount d counts' = lookupCount d counts + nodesAt d l.
Proof.
  revert counts. induction l as [|n l IH]; intros counts Hs Hp.
  { cbn. split; [done|]. split; [done|]. split; [lia|]. intros d.
    unfold nodesAt. cbn. lia. }
  cbn [foldl].
  destruct (IH (bump (depth n) counts) (bump_sorted _ _ Hs) (bump_positive _ _ Hp))
    as (Hs' & Hp' & Hsum & Hl).
  split; [done|]. split; [done|]. split.
  - rewrite Hsum, bump_sum. cbn [length]. lia.
  - intros d. rewrite Hl, lookupCount_bump, nodesAt_cons by done.
    rewrite (Nat.eqb_sym (depth n) d). lia.
Qed.

Lemma lookupCount_elem d c counts :
  StronglySorted byLevel counts ->
  (d, c) ∈ counts <-> lookupCount d counts = c /\ (0 < c \/ (d, c) ∈ counts).
Proof.
  induction 1 as [|[k c0] rest Hs IH Hall].
  { cbn. split; [by intros ?%elem_of_nil|]. intros [<- [?|?%elem_of_nil]]; [lia|done]. }
  cbn [lookupCount]. rewrite elem_of_cons. split.
  - intros [[= -> ->]|Hin].
    + rewrite Nat.eqb_refl. split; [done|]. right. by left.
    + rewrite Forall_forall in Hall. specialize (Hall _ Hin). unfold byLevel in Hall.
      cbn in Hall. destruct (Nat.eqb_spec d k); [lia|].
      split; [by apply IH|]. right. by right.
  - intros [Hl [Hpos|[[= -> ->]|Hin]]]; [|by left|by right].
    destruct (Nat.eqb_spec d k) as [->|]; [left; by rewrite Hl|].
    right. apply IH. split; [done|by left].
Qed.

Lemma lookupCount_positive d counts :
  0 < lookupCount d counts -> (d, lookupCount d counts) ∈ counts.
Proof.
  induction counts as [|[k c] rest IH]; cbn; [lia|].
  destruct (Nat.eqb_spec d k) as [->|]; [by left|]. intros Hpos. right. by apply IH.
Qed.

Lemma depthCounts_spec l :
  StronglySorted byLevel (depthCounts l) /\
  (forall d c, (d, c) ∈ depthCounts l <-> c = nodesAt d l /\ 0 < c) /\
  sum_list (snd <$> depthCounts l) = length l.
Proof.
  destruct (depthCounts_fold l [] (SSorted_nil _) (Forall_nil_2 _))
    as (Hs & Hp & Hsum & Hl).
  fold (depthCounts l) in Hs, Hp, Hsum, Hl.
  split; [done|]. split; [|done].
  intros d c. split.
  - intros Hin. pose proof (proj1 (lookupCount_elem d c _ Hs) Hin) as [Hc _].
    rewrite Forall_forall in Hp. specialize (Hp _ Hin). cbn in Hp, Hl.
    rewrite Hl in Hc. cbn in Hc. split; [lia|done].
  - intros [-> Hpos]. specialize (Hl d). cbn in Hl. rewrite <- Hl.
    apply lookupCount_positive. rewrite Hl. done.
Qed.

(** A depth has an entry in the chart exactly when a node has that depth. *)
Lemma depthCounts_levels l d :
  d ∈ fst <$> depthCounts l <-> exists n, n ∈ l /\ depth n = d.
Proof.
  destruct (depthCounts_spec l) as (_ & Hiff & _). split.
  - intros ([d0 c] & -> & Hin)%list_elem_of_fmap. cbn.
    apply Hiff in Hin as [-> Hpos]. unfold nodesAt in Hpos.
    destruct (filter (fun n => depth n = d0) l) as [|n rest] eqn:Hf; [cbn in Hpos; lia|].
    assert (Hn : n ∈ filter (fun n => depth n = d0) l) by (rewrite Hf; by left).
    apply list_elem_of_filter in Hn as [Hd Hn]. by exists n.
  - intros (n & Hn & Hd).
    apply list_elem_of_fmap. exists (d, nodesAt d l). split; [done|].
    apply Hiff. split; [done|]. unfold nodesAt.
    assert (Hin : n ∈ filter (fun n => depth n = d) l) by (by apply list_elem_of_filter).
    destruct (filter (fun n => depth n = d) l); [by apply elem_of_nil in Hin|cbn; lia].
Qed.

(** X18. The depth chart counts the levels: the entries of [depthData] come
    by ascending depth, one for each depth that occurs in the node list and
    none for any other, each with the number of nodes at that depth, and
    the counts add up to the length of the list. *)
Theorem depth_chart_counts_levels l :
  depthData l = (fun e => ("Lvl " +:+ pretty e.1, e.2)) <$> depthCounts l /\
  StronglySorted byLevel (depthCounts l) /\
  (forall d c, (d, c) ∈ depthCounts l <-> c = nodesAt d l /\ 0 < c) /\
  sum_list (snd <$> depthCounts l) = length l.
Proof. split; [done|apply depthCounts_spec]. Qed.

Lemma depth_chart_counts_levels_witness :
  let l := nodes (Scenario.s4 10) in
  depthData l = (fun e => ("Lvl " +:+ pretty e.1, e.2)) <$> depthCounts l /\
  StronglySorted byLevel (depthCounts l) /\
  (forall d c, (d, c) ∈ depthCounts l <-> c = nodesAt d l /\ 0 < c) /\
  sum_list (snd <$> depthCounts l) = length l.
Proof. exact (depth_chart_counts_levels (nodes (Scenario.s4 10))). Defined.

Example depth_chart_of_the_example :
  depthData (nodes (Scenario.s4 10)) = [("Lvl 0", 1); ("Lvl 1", 2)].
Proof. by vm_compute. Qed.

(** A strictly ascending list of numbers from [base] on in which every number
    above [base] has its predecessor is [base, base + 1, ...]. *)
Lemma ascending_closed base ks :
  StronglySorted lt ks ->
  (forall d, d ∈ ks -> base <= d) ->
  (forall d, d ∈ ks -> base < d -> exists d', d' ∈ ks /\ d = S d') ->
  ks = seq base (length ks).
Proof.
  intros Hs. revert base. induction Hs as [|k ks Hs IH Hall]; intros base Hlow Hpred; [done|].
  rewrite Forall_forall in Hall.
  assert (Hk : k = base).
  { pose proof (Hlow k (list_elem_of_here _ _)) as Hle.
    destruct (decide (base < k)) as [Hlt|]; [|lia].
    destruct (Hpred k (list_elem_of_here _ _) Hlt) as (d' & [->|Hin]%elem_of_cons & Hd); [lia|].
    specialize (Hall d' Hin). lia. }
  subst k. cbn. f_equal. apply IH.
  - intros d Hd. specialize (Hall d Hd). lia.
  - intros d Hd Hlt.
    destruct (Hpred d (list_elem_of_further _ _ _ Hd)) as (d' & [->|Hin]%elem_of_cons & Heq);
      [lia|lia|]. by exists d'.
Qed.

(** * The graph *)

Lemma graphLink_Some data node src tgt :
  graphLink data node = Some (src, tgt) ->
  parentId node = Some src /\ url node = tgt /\ src <> "" /\ src ∈ url <$> data.
Proof.
  unfold graphLink. destruct (parentId node) as [p|]; [|done].
  destruct (negb (String.eqb p "")) eqn:Hp; [|done].
  destruct (existsb _ data) eqn:Hex; [|done]. cbn. intros [= <- <-].
  apply negb_true_iff, String.eqb_neq in Hp.
  apply existsb_exists in Hex as (m & Hm & Heq). apply String.eqb_eq in Heq.
  split; [done|]. split; [done|]. split; [done|].
  rewrite <- Heq. apply list_elem_of_fmap_2. by apply list_elem_of_In.
Qed.


(** X19. No link of the graph dangles: the source of every link that
    [NetworkGraph] builds is the non-empty URL of a node of its data, and the
    target is the URL of a node of its data that names the source as its
    parent; so the lookup of the link ends by id cannot fail. *)
Theorem graph_links_never_dangle data src tgt :
  (src, tgt) ∈ graphLinks data ->
  src ∈ url <$> data /\ tgt ∈ url <$> data /\ src <> "" /\
  exists n, n ∈ data /\ parentId n = Some src /\ url n = tgt.
Proof.
  intros (n & Hn & Hlink)%list_elem_of_omap.
  destruct (graphLink_Some _ _ _ _ Hlink) as (Hp & Hu & Hne & Hsrc).
  split; [done|]. split; [rewrite <- Hu; by apply list_elem_of_fmap_2|].
  split; [done|]. by exists n.
Qed.




Section Graph.
Context {World : Type} `{Platform World}.
Variable config : CrawlConfig.





End Graph.

Section Chart.
Context {World : Type} `{Platform World}.
Variable config : CrawlConfig.

(** X21. The depth chart of a crawl has no gaps: in every state of a crawl
    started with no step of an earlier crawl pending the levels of the chart
    are 0, 1, 2 and so on up to the deepest node, in this order, each with
    at least one node. *)
Theorem depth_chart_has_no_gaps h s w :
  run config h s w ->
  fst <$> depthCounts (nodes s) = seq 0 (length (depthCounts (nodes s))) /\
  Forall (fun e => 0 < e.2) (depthCounts (nodes s)).
Proof.
  intros Hrun. destruct (tree_run config h s w Hrun) as (Htree & _).
  destruct (depthCounts_spec (nodes s)) as (Hs & Hiff & _). split.
  - rewrite <- (length_fmap fst). apply ascending_closed.
    + by apply (StronglySorted_fmap fst byLevel lt).
    + intros; lia.
    + intros d (n & Hn & Hd)%depthCounts_levels Hpos.
      pose proof (Htree n Hn) as Hpar. destruct (parentId n) as [p|]; [|lia].
      destruct Hpar as (m & Hm & _ & Hdm). exists (depth m).
      split; [|lia]. apply depthCounts_levels. by exists m.
  - apply Forall_forall. intros [d c] Hin. by apply Hiff in Hin as [_ ?].
Qed.

End Chart.

Lemma graph_links_never_dangle_witness :
  let data := nodes (Scenario.s4 10) in
  "https://example.test/" ∈ url <$> data /\ "https://example.test/a" ∈ url <$> data /\
  "https://example.test/" <> "" /\
  exists n, n ∈ data /\ parentId n = Some "https://example.test/" /\
            url n = "https://example.test/a".
Proof.
  apply (graph_links_never_dangle (nodes (Scenario.s4 10))
           "https://example.test/" "https://example.test/a").
  apply list_elem_of_In. vm_compute. left. reflexivity.
Defined.



Lemma depth_chart_has_no_gaps_witness :
  let s := Scenario.s4 10 in
  fst <$> depthCounts (nodes s) = seq 0 (length (depthCounts (nodes s))) /\
  Forall (fun e => 0 < e.2) (depthCounts (nodes s)).
Proof.
  exact (@depth_chart_has_no_gaps nat examplePlatform (Scenario.cfg 10)
           (Scenario.h3 10) (Scenario.s4 10) (Scenario.w4 10) ScenarioRuns.run4).
Defined.

(** * The further properties on the example scenario *)

Lemma depth_limit_respected_witness :
  let s := Scenario.s4 10 in
  (forall n, n ∈ nodes s -> depth n <= maxDepth (Scenario.cfg 10)) /\
  (forall n, n ∈ nodes s -> scanned n = true -> depth n < maxDepth (Scenario.cfg 10)) /\
  (forall c, task s = Awaiting c -> depth c < maxDepth (Scenario.cfg 10)).
Proof.
  exact (@depth_limit_respected nat examplePlatform (Scenario.cfg 10)
           (Scenario.h3 10) (Scenario.s4 10) (Scenario.w4 10) ScenarioRuns.run4).
Defined.

Lemma visited_is_node_urls_witness :
  "https://example.test/a" ∈ visited (Scenario.s4 10) <->
  exists n, n ∈ nodes (Scenario.s4 10) /\ url n = "https://example.test/a".
Proof.
  exact (@visited_is_node_urls nat examplePlatform (Scenario.cfg 10)
           (Scenario.h3 10) (Scenario.s4 10) (Scenario.w4 10) ScenarioRuns.run4
           "https://example.test/a").
Defined.

Lemma frontier_admits_once_witness :
  let h := Scenario.h3 10 in
  let s := Scenario.s4 10 in
  NoDup (url <$> h ++ queue s) /\
  (forall n, n ∈ h ++ queue s -> url n ∈ url <$> nodes s) /\
  length h + length (queue s) <= length (nodes s).
Proof.
  exact (@frontier_admits_once nat examplePlatform (Scenario.cfg 10)
           (Scenario.h3 10) (Scenario.s4 10) (Scenario.w4 10) ScenarioRuns.run4).
Defined.

Lemma nodes_form_a_tree_witness :
  let s := Scenario.s4 10 in
  treeShaped (Scenario.cfg 10) (nodes s) /\
  (forall n m, n ∈ nodes s -> m ∈ nodes s ->
     parentId n = None -> parentId m = None -> n = m).
Proof.
  exact (@nodes_form_a_tree nat examplePlatform (Scenario.cfg 10)
           (Scenario.h3 10) (Scenario.s4 10) (Scenario.w4 10) ScenarioRuns.run4).
Defined.

Lemma crawl_terminates_witness :
  let config := Scenario.cfg 10 in
  let sw := Nat.iter (2 * nodeBound config 2) (@turn nat examplePlatform config)
                     (startRecursiveCrawl config (idleEngine Scenario.keys), 0) in
  task sw.1 = NoTask /\ isRunning sw.1 = false /\ crawlStatus sw.1 = COMPLETED /\
  exists h, @run nat examplePlatform config h sw.1 sw.2.
Proof.
  destruct (@crawl_terminates nat examplePlatform (Scenario.cfg 10) 2
              ScenarioRuns.example_fanout (idleEngine Scenario.keys) 0 eq_refl eq_refl)
    as (Htask & Hflag & Hstatus & Hrun).
  split; [exact Htask|]. split; [exact Hflag|].
  split; [exact (Hstatus ScenarioRuns.example_stringStatuses)|exact Hrun].
Defined.

Example parseKeys_example :
  parseKeys " AIzaSyA-0123456789abcdefghij, short |AIzaSyB-0123456789abcdefghij " =
    ["AIzaSyA-0123456789abcdefghij"; "AIzaSyB-0123456789abcdefghij"].
Proof. by vm_compute. Qed.

Lemma connect_installs_valid_keys_witness :
  let input := "AIzaSyA-0123456789abcdefghij, short |AIzaSyB-0123456789abcdefghij" in
  let s := mountedEngine in
  Forall (fun k => 20 < String.length k /\ separatorFree k = true) (parseKeys input) /\
  (parseKeys input = [] -> handleConnectApi input s = s) /\
  (parseKeys input <> [] ->
   apiKeys (handleConnectApi input s) = parseKeys input /\
   currentKeyIndex (handleConnectApi input s) = 0 /\
   currentKeyIndex (handleConnectApi input s) < length (apiKeys (handleConnectApi input s)) /\
   isApiConnected (handleConnectApi input s) = true /\
   nodes (handleConnectApi input s) = nodes s /\
   queue (handleConnectApi input s) = queue s /\
   task (handleConnectApi input s) = task s).
Proof.
  exact (connect_installs_valid_keys
           "AIzaSyA-0123456789abcdefghij, short |AIzaSyB-0123456789abcdefghij"
           mountedEngine).
Defined.

Lemma parseKeys_join_witness :
  let keys := ["AIzaSyA-0123456789abcdefghij"; "AIzaSyB-0123456789abcdefghij"] in
  parseKeys (joinWith "," keys) = keys.
Proof.
  apply (parseKeys_join ["AIzaSyA-0123456789abcdefghij"; "AIzaSyB-0123456789abcdefghij"]).
  - repeat constructor; vm_compute; lia.
  - discriminate.
Defined.

(** * The status of a failed page *)

(** X22. A failed expansion is marked 404, 403 or 500 and nothing else: 404
    when the error has that status or its message mentions 404 anywhere,
    whatever the status says; and 500 for a quota error whose message
    mentions neither 404 nor 403. *)
Theorem failure_status_codes err :
  failedStatus err ∈ ["404"; "403"; "500"] /\
  (forall m, e_message err = Some m -> includes "404" m = true ->
     failedStatus err = "404") /\
  (e_status err = ENum 404 -> failedStatus err = "404") /\
  (forall m, e_status err = ENum 429 -> e_message err = Some m -> m <> "" ->
     includes "404" m = false -> includes "403" m = false ->
     failedStatus err = "500").
Proof.
  unfold failedStatus. split; [|split; [|split]].
  - destruct (_ || _); [by left|]. destruct (_ || _); [right; by left|].
    right; right; by left.
  - intros m -> Hm. destruct m as [|a m]; [done|].
    change (String.eqb (String a m) "") with false. cbn iota.
    by rewrite Hm, orb_true_r.
  - intros ->. cbn [fieldTruthy fieldToString].
    by change (String.eqb (pretty 404%Z) "404") with true.
  - intros m -> -> Hne H404 H403. cbn [fieldTruthy fieldToString].
    destruct m as [|a m]; [done|].
    change (String.eqb (String a m) "") with false. cbn iota.
    change (String.eqb (pretty 429%Z) "404") with false.
    change (String.eqb (pretty 429%Z) "403") with false.
    by rewrite H404, H403.
Qed.

Lemma failure_status_codes_witness :
  failedStatus quotaError ∈ ["404"; "403"; "500"] /\
  failedStatus (mkError (ENum 500) EUndefined (Some "HTTP 404 for page") "{}") = "404" /\
  failedStatus (mkError (ENum 404) EUndefined None "{}") = "404" /\
  failedStatus quotaError = "500".
Proof.
  split; [exact (proj1 (failure_status_codes quotaError))|].
  split; [|split].
  - apply (proj1 (proj2 (failure_status_codes
             (mkError (ENum 500) EUndefined (Some "HTTP 404 for page") "{}")))
             "HTTP 404 for page"); reflexivity.
  - apply (proj1 (proj2 (proj2 (failure_status_codes
             (mkError (ENum 404) EUndefined None "{}"))))). reflexivity.
  - apply (proj2 (proj2 (proj2 (failure_status_codes quotaError)))
             "Too Many Requests"); (reflexivity || discriminate).
Defined.

(** * The report *)

Section Report.
Context {World : Type} `{Reporter World}.

Lemma analyzeOrphans_cases apiKey l (w : World) :
  (analyzeOrphans apiKey l w).1.1 <> "" /\
  (analyzeOrphans apiKey l w).2 <= 1 /\
  (apiKey = "" -> analyzeOrphans apiKey l w = ("API Key missing.", w, 0)) /\
  (apiKey <> "" ->
   (analyzeOrphans apiKey l w).2 = 1 /\
   (analyzeOrphans apiKey l w).1.2 = (generateReport w apiKey (summarize l)).2).
Proof.
  unfold analyzeOrphans. destruct (String.eqb_spec apiKey "") as [->|Hne].
  { cbn. split; [done|]. split; [lia|]. by split. }
  destruct (generateReport w apiKey (summarize l)) as [[[text|]|e] w1]; cbn.
  - destruct (String.eqb_spec text ""); (split; [done|]); (split; [lia|]); by split.
  - split; [done|]. split; [lia|]. by split.
  - split; [done|]. split; [lia|]. by split.
Qed.

(** X23. The report is asked for once, with a key: [analyzeOrphans] never
    answers with the empty text and makes at most one request, none without
    a key and no second one after a rejection; and whenever [finishCrawl]
    asks for a report, the key it passes is the non-empty key under the
    cursor, so exactly one request is made. *)
Theorem report_is_requested_with_a_key s apiKey (w : World) :
  (forall key l, (analyzeOrphans key l w).1.1 <> "" /\ (analyzeOrphans key l w).2 <= 1) /\
  (forall l, analyzeOrphans "" l w = ("API Key missing.", w, 0)) /\
  (reports (finishCrawl s) = reports s ++ [apiKey] ->
   apiKeys s !! currentKeyIndex s = Some apiKey /\ apiKey <> "" /\
   (analyzeOrphans apiKey (nodes (finishCrawl s)) w).2 = 1).
Proof.
  split; [|split].
  - intros key l. by destruct (analyzeOrphans_cases key l w) as (? & ? & _).
  - intros l. by apply analyzeOrphans_cases.
  - cbn [finishCrawl reports nodes].
    assert (Hno : reports s <> reports s ++ [apiKey]).
    { intros Heq. apply (f_equal length) in Heq. rewrite length_app in Heq. cbn in Heq. lia. }
    destruct (apiKeys s !! currentKeyIndex s) as [activeKey|]; [|done].
    destruct (String.eqb_spec activeKey "") as [->|Hne]; [done|].
    intros [= ->]%app_inv_head. split; [done|]. split; [done|].
    by apply analyzeOrphans_cases.
Qed.

End Report.

Lemma report_is_requested_with_a_key_witness :
  reports (finishCrawl (Scenario.drained 10)) = reports (Scenario.drained 10) ++ ["key-1"] /\
  apiKeys (Scenario.drained 10) !! currentKeyIndex (Scenario.drained 10) = Some "key-1" /\
  "key-1" <> "" /\
  (@analyzeOrphans nat exampleReporter "key-1"
     (nodes (finishCrawl (Scenario.drained 10))) 0).2 = 1.
Proof.
  assert (Hr : reports (finishCrawl (Scenario.drained 10)) =
               reports (Scenario.drained 10) ++ ["key-1"]) by (vm_compute; reflexivity).
  split; [exact Hr|].
  exact (proj2 (proj2 (@report_is_requested_with_a_key nat exampleReporter
                         (Scenario.drained 10) "key-1" 0)) Hr).
Defined.

(** * The log *)

Lemma take_cons_take {A} n (x : A) l : take n (x :: take n l) = take n (x :: l).
Proof.
  destruct n as [|n]; [done|]. cbn. f_equal.
  rewrite take_take. f_equal. lia.
Qed.

(** X24. The log keeps the newest 200 entries: after any sequence of
    [addLog] calls on an empty log, the log is the last 200 entries of the
    sequence, newest first, and never longer than 200. *)
Theorem log_keeps_last_200 {A} (entries : list A) :
  foldl (fun logs entry => addLog entry logs) [] entries = take logLimit (reverse entries) /\
  length (foldl (fun logs entry => addLog entry logs) [] entries) <= 200.
Proof.
  assert (Hlog : foldl (fun logs entry => addLog entry logs) [] entries =
                 take logLimit (reverse entries)).
  { induction entries as [|e entries IH] using rev_ind; [done|].
    rewrite foldl_app. cbn [foldl]. rewrite IH, reverse_app. unfold addLog. cbn [reverse app].
    change (reverse [e]) with [e]. cbn [app]. apply take_cons_take. }
  split; [done|]. rewrite Hlog, length_take. unfold logLimit. lia.
Qed.

(** * The CSV export *)

Lemma splitOn_piece c k s cur :
  charFree c k = true -> splitOn c (k +:+ s) cur = splitOn c s (cur +:+ k).
Proof.
  revert cur. induction k as [|a k IH]; intros cur Hk.
  { by rewrite append_empty. }
  cbn [charFree] in Hk. apply andb_true_iff in Hk as [Ha Hk]. apply negb_true_iff in Ha.
  change (String a k +:+ s) with (String a (k +:+ s)).
  cbn [splitOn]. rewrite Ha, IH by done. by rewrite append_char.
Qed.

Lemma splitOn_join c l :
  l <> [] -> Forall (fun k => charFree c k = true) l ->
  splitOn c (joinWith (String c "") l) "" = l.
Proof.
  intros Hne Hall. induction Hall as [|k rest Hk Hrest IH]; [done|].
  cbn [joinWith]. destruct rest as [|k' rest'].
  - rewrite <- (append_empty k) at 1. by rewrite splitOn_piece.
  - rewrite splitOn_piece by done.
    change (String c "" +:+ joinWith (String c "") (k' :: rest'))
      with (String c (joinWith (String c "") (k' :: rest'))).
    cbn [splitOn]. rewrite Ascii.eqb_refl, IH by done. done.
Qed.

Lemma charFree_app c s1 s2 : charFree c (s1 +:+ s2) = charFree c s1 && charFree c s2.
Proof.
  induction s1 as [|a s1 IH]; [done|].
  change (String a s1 +:+ s2) with (String a (s1 +:+ s2)).
  cbn [charFree]. by rewrite IH, andb_assoc.
Qed.

Lemma charFree_join c sep l :
  charFree c sep = true -> Forall (fun k => charFree c k = true) l ->
  charFree c (joinWith sep l) = true.
Proof.
  intros Hsep. induction 1 as [|k rest Hk Hrest IH]; [done|].
  cbn [joinWith]. destruct rest; [done|].
  by rewrite !charFree_app, Hk, Hsep, IH.
Qed.

Lemma pretty_N_go_charFree c x s :
  (forall d, Ascii.eqb (pretty_N_char d) c = false) ->
  charFree c s = true -> charFree c (pretty_N_go x s) = true.
Proof.
  intros Hc. revert s. induction (N.lt_wf_0 x) as [x _ IH]; intros s Hs.
  assert (x = 0 \/ 0 < x)%N as [->|Hpos] by lia; [by rewrite pretty_N_go_0|].
  rewrite pretty_N_go_step by done. apply IH; [by apply N.div_lt|].
  cbn [charFree]. by rewrite Hc, Hs.
Qed.

Lemma pretty_nat_csvSafe (n : nat) : csvSafe (pretty n).
Proof.
  unfold csvSafe, pretty, pretty_nat, pretty, pretty_N.
  case_decide; [done|].
  split; apply pretty_N_go_charFree; try done;
    intros d; unfold pretty_N_char; by repeat case_match.
Qed.

(** X25. The export can be read back when no text field holds a comma or a
    line feed: for nodes whose URL, type, status and parent are free of
    both, splitting [csvContent] into lines and the lines at the commas
    gives the header and, for each node in order, its six fields.  Nothing
    is quoted or escaped. *)
Theorem csv_round_trip l :
  Forall (fun n => csvSafe (url n) /\ csvSafe (jsonText (type n)) /\
                   csvSafe (jsonText (status n)) /\ csvSafe (default "" (parentId n))) l ->
  readCsv (csvContent l) = csvHeaders :: (csvRow <$> l).
Proof.
  intros Hsafe.
  assert (Hrows : Forall (fun row => row <> [] /\ Forall csvSafe row)
                         (csvHeaders :: (csvRow <$> l))).
  { constructor.
    - split; [done|]. repeat constructor.
    - apply Forall_fmap. eapply Forall_impl; [exact Hsafe|].
      intros n (Hu & Ht & Hs & Hp). split; [done|].
      assert (Hsize : csvSafe (match size n with Some k => pretty k | None => "" end))
        by (destruct (size n); [apply pretty_nat_csvSafe|done]).
      unfold csvRow.
      constructor; [exact Hu|]. constructor; [exact Ht|]. constructor; [exact Hs|].
      constructor; [exact Hsize|]. constructor; [apply pretty_nat_csvSafe|].
      constructor; [exact Hp|constructor]. }
  unfold readCsv, csvContent.
  change (joinWith "," csvHeaders :: (joinWith "," <$> (csvRow <$> l)))
    with (joinWith "," <$> (csvHeaders :: (csvRow <$> l))).
  assert (Hrows' : csvHeaders :: (csvRow <$> l) <> []) by done.
  revert Hrows Hrows'. generalize (csvHeaders :: (csvRow <$> l)). intros rows Hrows Hrows'.
  unfold newline. rewrite splitOn_join.
  - rewrite <- list_fmap_compose. clear Hrows'.
    induction Hrows as [|row rows [Hne Hrow] _ IH]; [done|].
    rewrite fmap_cons, IH. f_equal. cbn. apply splitOn_join; [done|].
    eapply Forall_impl; [exact Hrow|]. by intros f [? _].
  - by destruct rows.
  - apply Forall_fmap, Forall_forall. intros row Hin. cbn.
    rewrite Forall_forall in Hrows. destruct (Hrows row Hin) as [_ Hrow].
    apply charFree_join; [done|].
    eapply Forall_impl; [exact Hrow|]. by intros f [_ ?].
Qed.

Lemma csv_round_trip_witness :
  readCsv (csvContent (nodes (Scenario.s4 10))) =
    csvHeaders :: (csvRow <$> nodes (Scenario.s4 10)).
Proof.
  apply (csv_round_trip (nodes (Scenario.s4 10))).
  vm_compute. repeat constructor.
Defined.

Example csv_of_the_example :
  csvContent (nodes (Scenario.s2 10)) =
    joinWith newline
      ["URL,Type,Status,Size,Depth,Parent";
       "https://example.test/,internal,200,,0,";
       "https://example.test/a,internal,200,5,1,https://example.test/";
       "https://example.test/a/style.css,resource,200,5,1,https://example.test/"].
Proof. by vm_compute. Qed.

(** A comma in a URL moves the columns. *)
Example csv_comma_breaks_columns :
  let n := setNode_status (JStr "200")
             (mkNode "u" "https://example.test/a,b" (JStr "t") 1 None (JStr "200")
                     (JStr "internal") TextHtml None (JStr "anchor") false None) in
  length <$> readCsv (csvContent [n]) = [6; 7].
Proof. by vm_compute. Qed.

(** * Several steps in flight *)

Section Sessions.
Context {World : Type} `{Platform World}.
Variable config : CrawlConfig.

(** A run is a session with one callback pending at a time. *)
Lemma run_is_session h s w :
  run config h s w ->
  exists s0 w0,
    rtc sessionStep (mkSession [] s0 w0 []) (mkSession h s w (pendingOf config (task s))).
Proof.
  intros Hrun.
  induction Hrun as [s0 w Ht Hc|h s w _ IH Ht|h s w c _ IH Ht|h s w _ IH Hc].
  - exists s0, w. apply rtc_once.
    exact (session_start config [] s0 w [] Hc).
  - destruct IH as (s0 & w0 & IH). exists s0, w0.
    eapply rtc_r; [exact IH|]. rewrite Ht.
    pose proof (session_timer config h s w [] []) as Hstep.
    by rewrite app_nil_r in Hstep.
  - destruct IH as (s0 & w0 & IH). exists s0, w0.
    eapply rtc_r; [exact IH|]. rewrite Ht, resumeQueue_schedules.
    exact (session_resume config c h s w [] []).
  - destruct IH as (s0 & w0 & IH). exists s0, w0.
    eapply rtc_r; [exact IH|]. by apply session_stop.
Qed.

End Sessions.

Module RestartSteps.
Import Restart.
#[local] Existing Instance sitePlatform.

Lemma step1 : sessionStep S0 S1.
Proof.
  pose proof (session_start cfg [] (idleEngine keys) 0 [] eq_refl) as Hstep.
  assert (Hp : [] ++ pendingOf cfg (task (startRecursiveCrawl cfg (idleEngine keys))) =
               [StepOf cfg seed]) by (vm_compute; reflexivity).
  rewrite Hp in Hstep. exact Hstep.
Qed.

Lemma step2 : sessionStep S1 S2.
Proof. exact (session_resume cfg seed h1 e1 0 [] []). Qed.

Lemma step3 : sessionStep S2 S3.
Proof.
  pose proof (session_timer cfg h1 e2 w2 [] []) as Hstep.
  assert (Hp : [] ++ pendingOf cfg (task (processQueue cfg e2)) ++ [] = [StepOf cfg pageA])
    by (vm_compute; reflexivity).
  rewrite Hp in Hstep. exact Hstep.
Qed.

Lemma step4 : sessionStep S3 S4.
Proof. apply session_stop. vm_compute. reflexivity. Qed.

Lemma step5 : sessionStep S4 S5.
Proof.
  assert (Hc : canStart cfg e4 = true) by (vm_compute; reflexivity).
  pose proof (session_start cfg h3 e4 w2 [StepOf cfg pageA] Hc) as Hstep.
  assert (Hp : [StepOf cfg pageA] ++ pendingOf cfg (task (startRecursiveCrawl cfg e4)) =
               [StepOf cfg pageA; StepOf cfg seed]) by (vm_compute; reflexivity).
  rewrite Hp in Hstep. exact Hstep.
Qed.

Lemma step6 : sessionStep S5 S6.
Proof. exact (session_resume cfg pageA h5 e5 w2 [] [StepOf cfg seed]). Qed.

Lemma step7 : sessionStep S6 S7.
Proof.
  pose proof (session_timer cfg h5 e6 w6 [] [StepOf cfg seed]) as Hstep.
  assert (Hp : [] ++ pendingOf cfg (task (processQueue cfg e6)) ++ [StepOf cfg seed] =
               [StepOf cfg pageX; StepOf cfg seed]) by (vm_compute; reflexivity).
  rewrite Hp in Hstep. exact Hstep.
Qed.

Lemma step8 : sessionStep S7 S8.
Proof. exact (session_resume cfg seed h7 e7 w6 [StepOf cfg pageX] []). Qed.

Lemma step9 : sessionStep S8 S9.
Proof.
  pose proof (session_timer cfg h7 e8 w8 [StepOf cfg pageX] []) as Hstep.
  assert (Hp : [StepOf cfg pageX] ++ pendingOf cfg (task (processQueue cfg e8)) ++ [] =
               [StepOf cfg pageX; StepOf cfg pageA']) by (vm_compute; reflexivity).
  rewrite Hp in Hstep. exact Hstep.
Qed.

Lemma reach5 : rtc sessionStep S0 S5.
Proof.
  eapply rtc_l; [exact step1|]. eapply rtc_l; [exact step2|].
  eapply rtc_l; [exact step3|]. eapply rtc_l; [exact step4|].
  apply rtc_once. exact step5.
Qed.

Lemma reach6 : rtc sessionStep S0 S6.
Proof. eapply rtc_r; [exact reach5|exact step6]. Qed.

Lemma reach9 : rtc sessionStep S0 S9.
Proof.
  eapply rtc_r; [|exact step9]. eapply rtc_r; [|exact step8].
  eapply rtc_r; [exact reach6|exact step7].
Qed.

End RestartSteps.

(** C7 on a crawl restarted after an abort.  [stopCrawl] cancels nothing:
    the step of [/a] that was in flight resumes in the new crawl, finds
    [/a/x] unvisited and puts it, at depth 2, into the new frontier before
    the new seed's step has listed [/a] at depth 1.  The new crawl then
    takes [/], [/a/x] and [/a] off the frontier in this order and expands
    each: the depths are 0, 2, 1. *)
Theorem stale_step_breaks_breadth_first :
  rtc (@sessionStep nat sitePlatform) Restart.S0 Restart.S9 /\
  crawlStatus (engine Restart.S4) = IDLE /\
  canStart Restart.cfg (engine Restart.S4) = true /\
  url <$> dequeued Restart.S9 =
    ["https://example.test/"; "https://example.test/a/x"; "https://example.test/a"] /\
  depth <$> dequeued Restart.S9 = [0; 2; 1] /\
  callbacks Restart.S9 =
    [StepOf Restart.cfg Restart.pageX; StepOf Restart.cfg Restart.pageA'] /\
  url <$> nodes (engine Restart.S9) =
    ["https://example.test/"; "https://example.test/a/x"; "https://example.test/a"] /\
  ~ StronglySorted depthLe (dequeued Restart.S9).
Proof.
  split; [exact RestartSteps.reach9|].
  split; [by vm_compute|]. split; [by vm_compute|].
  split; [by vm_compute|]. split; [by vm_compute|].
  split; [done|]. split; [by vm_compute|].
  intros Hs.
  assert (Hd : StronglySorted le (depth <$> dequeued Restart.S9))
    by (by apply (StronglySorted_fmap depth depthLe le)).
  assert (Heq : depth <$> dequeued Restart.S9 = [0; 2; 1]) by (by vm_compute).
  rewrite Heq in Hd.
  apply StronglySorted_inv in Hd as [Hd _].
  apply StronglySorted_inv in Hd as [_ Hd].
  apply Forall_cons in Hd as [Hd _]. lia.
Qed.

(** The state the stale step leaves in the new crawl: a node whose parent
    is not listed, a level missing from the depth chart, no link in the
    graph, and a scanned page counted with no node scanned. *)
Example stale_step_state :
  rtc (@sessionStep nat sitePlatform) Restart.S0 Restart.S6 /\
  (shape <$> nodes Restart.e6) =
    [("https://example.test/", "https://example.test/", 0, None);
     ("https://example.test/a/x", "https://example.test/a/x", 2,
      Some "https://example.test/a")] /\
  graphLinks (nodes Restart.e6) = [] /\
  depthData (nodes Restart.e6) = [("Lvl 0", 1); ("Lvl 2", 1)] /\
  scannedPages (stats Restart.e6) = 1 /\ depthReached (stats Restart.e6) = 1 /\
  scannedNodes (nodes Restart.e6) = [].
Proof.
  split; [exact RestartSteps.reach6|]. by vm_compute.
Qed.
